(** * Dialectic subnet: commitment engine, dispute manager, consensus engine

    A shallow embedding of [src/merkle.py], [src/challenge.py],
    [src/consensus.py] and the parts of [src/protocol.py] they use.

    Conventions of the embedding.
    - Python [float] values (stakes, payouts, confidences, calibration
      scores) are exact rationals [Q] where a statement is an algebraic law
      that rounding does not touch; equalities between them are stated with
      [==].  Where the outcome depends on rounding (the tally and its
      threshold, the no-defense slash, the stake test), the code is embedded a second time
      over binary64 floats, in module [Binary64].
    - A [datetime] is a count of microseconds [Z]; [datetime.utcnow()] is an
      explicit argument [now] of every operation that reads the clock.
    - Dictionaries that are only looked up are [gmap]s; the dispute table,
      whose iteration order is observable, is an insertion-ordered
      association list.
    - Methods that mutate [self] take the state and return the new one. *)

From Stdlib Require Import QArith Qminmax Qabs Lqa.
From Stdlib Require Floats.
From stdpp Require Import gmap strings list fin_maps pretty.

#[local] Set Warnings "-inexact-float".

(* ===================================================================== *)
(** ** protocol.py *)
(* ===================================================================== *)

Inductive NodeType := CONCLUSION | PREMISE | SUB_PREMISE | REBUTTAL | QUALIFIER.

Inductive AttackType :=
  FACTUAL_ERROR | LOGICAL_FALLACY | MISSING_CONTEXT | CONTRADICTION | OUTDATED.

Inductive DefenseType := REFUTE | CONCEDE | DEFENSE_PARTIAL.

(** Declaration order is the iteration order of [for v in Verdict]. *)
Inductive Verdict := CHALLENGE_UPHELD | CHALLENGE_REJECTED | PARTIAL | ABSTAIN.

Global Instance Verdict_eq_dec : EqDecision Verdict.
Proof. solve_decision. Defined.

Global Instance AttackType_eq_dec : EqDecision AttackType.
Proof. solve_decision. Defined.

(** A [datetime] in microseconds, and [timedelta(hours=h)]. *)
Definition datetime := Z.

Definition timedelta_hours (h : Z) : Z := (h * 3600 * 1000000)%Z.

(** [(a - b).days]: whole days of a difference, rounded towards minus
    infinity as [timedelta] normalises it. *)
Definition timedelta_days (a b : datetime) : Z := ((a - b) / 86400000000)%Z.

Module Evidence.
Record t := {
  source : string;
  data : string;
  url : option string;
  timestamp : option string
}.
End Evidence.

Module ReasoningNode.
Record t := {
  id : string;
  claim : string;
  node_type : NodeType;
  evidence : option Evidence.t;
  children : list string;
  merkle_hash : option string
}.
End ReasoningNode.

(** [submitted_at] is an optional ISO string in the source, read back with
    [datetime.fromisoformat]; the embedding holds the instant it denotes. *)
Module ReasoningTree.
Record t := {
  task_id : string;
  root : ReasoningNode.t;
  nodes : list ReasoningNode.t;
  merkle_root : string;
  stake : Q;
  proposer_hotkey : string;
  submitted_at : option datetime
}.
End ReasoningTree.

Module ChallengeSubmission.
Record t := {
  task_id : string;
  target_node : string;
  attack_type : AttackType;
  argument : string;
  evidence : option Evidence.t;
  stake : Q;
  challenger_hotkey : string;
  accepted : option bool;
  dispute_id : option string
}.
End ChallengeSubmission.

Module DefenseSubmission.
Record t := {
  dispute_id : string;
  defense_type : DefenseType;
  response : string;
  evidence : option Evidence.t;
  affected_nodes : list string;
  tree_still_valid : option bool;
  accepted : option bool
}.
End DefenseSubmission.

(** The payload handed to the consensus engine, which stores it and never
    reads it. *)
Module DisputeForAdjudication.
Record t := {
  dispute_id : string;
  task_id : string;
  contested_node : ReasoningNode.t;
  challenge : ChallengeSubmission.t;
  defense : option DefenseSubmission.t;
  proposer_reputation : Q;
  challenger_reputation : Q;
  verdict : option Verdict;
  confidence : option Q;
  reasoning : option string;
  validator_hotkey : option string
}.
End DisputeForAdjudication.

Definition ATTACK_MULTIPLIERS (a : AttackType) : Q :=
  match a with
  | FACTUAL_ERROR => 2.0
  | LOGICAL_FALLACY => 2.5
  | MISSING_CONTEXT => 1.5
  | CONTRADICTION => 3.0
  | OUTDATED => 1.5
  end.

(* ===================================================================== *)
(** ** Python built-ins used by the engines *)
(* ===================================================================== *)

Inductive Exception := ValueError | TypeError | OverflowError.

Inductive Outcome (A : Type) :=
  | Return (a : A)
  | Raise (e : Exception).
Arguments Return {A} a.
Arguments Raise {A} e.

Definition Qltb (x y : Q) : bool := negb (Qle_bool y x).

(** [max(a, b)] and [min(a, b)]: the first argument wins a tie. *)
Definition py_max (a b : Q) : Q := if Qltb a b then b else a.
Definition py_min (a b : Q) : Q := if Qltb b a then b else a.

(** An insertion-ordered [dict] with string keys. *)
Module PyDict.
Section Dict.
Context {V : Type}.

Fixpoint get (k : string) (d : list (string * V)) : option V :=
  match d with
  | [] => None
  | (k', v) :: rest => if bool_decide (k' = k) then Some v else get k rest
  end.

(** [d[k] = v]: an existing key keeps its position, a new one goes last. *)
Fixpoint set (k : string) (v : V) (d : list (string * V)) : list (string * V) :=
  match d with
  | [] => [(k, v)]
  | (k', v') :: rest =>
      if bool_decide (k' = k) then (k, v) :: rest else (k', v') :: set k v rest
  end.

Definition keys (d : list (string * V)) : list string := map fst d.

End Dict.
End PyDict.

(* ===================================================================== *)
(** ** merkle.py *)
(* ===================================================================== *)

Module Merkle.

(** [MerkleNode]: a dataclass whose children are optional references. *)
#[local] Unset Elimination Schemes.
Inductive MerkleNode : Type := Build_MerkleNode {
  hash : string;
  data_id : option string;
  left : option MerkleNode;
  right : option MerkleNode
}.
#[local] Set Elimination Schemes.

(** Induction that reaches through the optional children. *)
Fixpoint MerkleNode_rect' (P : MerkleNode -> Type)
    (IH : forall h d l r,
        (forall x, l = Some x -> P x) ->
        (forall x, r = Some x -> P x) ->
        P (Build_MerkleNode h d l r))
    (t : MerkleNode) {struct t} : P t :=
  match t with
  | Build_MerkleNode h d l r =>
      IH h d l r
        (match l as o return forall x, o = Some x -> P x with
         | Some ln => fun x e =>
             match e in _ = y return match y with Some z => P z | None => unit end with
             | eq_refl => MerkleNode_rect' P IH ln
             end
         | None => fun x e => match e in _ = y return match y with Some z => P x | None => unit end with eq_refl => tt end
         end)
        (match r as o return forall x, o = Some x -> P x with
         | Some rn => fun x e =>
             match e in _ = y return match y with Some z => P z | None => unit end with
             | eq_refl => MerkleNode_rect' P IH rn
             end
         | None => fun x e => match e in _ = y return match y with Some z => P x | None => unit end with eq_refl => tt end
         end)
  end.

Definition Proof := list (string * string).

(** [ReasoningMerkleTree]: the three attributes set by [__init__]. *)
Record ReasoningMerkleTree := {
  root : option MerkleNode;
  nodes : gmap string string;
  proofs : gmap string Proof
}.

Definition init : ReasoningMerkleTree :=
  {| root := None; nodes := ∅; proofs := ∅ |}.

Section WithHash.

(** [hashlib.sha256(s.encode()).hexdigest()] and
    [json.dumps(node, sort_keys=True, separators=(',', ':'))] are library
    functions; the development holds for every choice of them. *)
Variable sha256_hexdigest : string -> string.
Variable json_dumps : ReasoningNode.t -> string.

Definition hash_data (data : string) : string := sha256_hexdigest data.

Definition hash_node (node_data : ReasoningNode.t) : string :=
  let canonical := json_dumps node_data in
  hash_data canonical.

Definition combine_hashes (l r : string) : string :=
  let combined := (l +:+ r) in
  hash_data combined.

(** [if len(nodes) % 2 == 1: nodes.append(nodes[-1])] *)
Definition pad (ns : list MerkleNode) : list MerkleNode :=
  if (length ns mod 2 =? 1)%nat
  then match last ns with Some x => ns ++ [x] | None => ns end
  else ns.

(** [for i in range(0, len(nodes), 2)]: parents of adjacent pairs.  On a
    list of odd length [nodes[i + 1]] raises IndexError; the padded list is
    even, and the embedding stops at a trailing single element. *)
Fixpoint parents (ns : list MerkleNode) : list MerkleNode :=
  match ns with
  | l :: r :: rest =>
      let parent_hash := combine_hashes (hash l) (hash r) in
      Build_MerkleNode parent_hash None (Some l) (Some r) :: parents rest
  | _ => []
  end.

(** [_build_tree].  The recursion is on a list that shrinks; [fuel] bounds
    its depth.  On the empty list the Python recursion never reaches a list
    of length one, and the embedding returns [None]. *)
Fixpoint build_tree_fuel (fuel : nat) (ns : list MerkleNode) : option MerkleNode :=
  match fuel with
  | O => None
  | S fuel' =>
      if (length ns =? 1)%nat then head ns
      else build_tree_fuel fuel' (parents (pad ns))
  end.

Definition _build_tree (ns : list MerkleNode) : option MerkleNode :=
  build_tree_fuel (length ns) ns.

Section GenerateProof.

Variable node_id : string.
Variable target : string.

(** The closure [find_and_prove]; the captured list [proof] is threaded
    through as state.  The argument is a node that is not [None]. *)
Fixpoint find_and_prove_node (node : MerkleNode) (proof : Proof) {struct node}
    : bool * Proof :=
  if bool_decide (hash node = target) && bool_decide (data_id node = Some node_id)
  then (true, proof)
  else
    let '(found_l, proof1) :=
      match left node with
      | Some ln => find_and_prove_node ln proof
      | None => (false, proof)
      end in
    if found_l then
      (true, match right node with
             | Some rn => proof1 ++ [(hash rn, "right")]
             | None => proof1
             end)
    else
      let '(found_r, proof2) :=
        match right node with
        | Some rn => find_and_prove_node rn proof1
        | None => (false, proof1)
        end in
      if found_r then
        (true, match left node with
               | Some ln => proof2 ++ [(hash ln, "left")]
               | None => proof2
               end)
      else (false, proof2).

Definition find_and_prove (node : option MerkleNode) (proof : Proof) : bool * Proof :=
  match node with
  | None => (false, proof)
  | Some n => find_and_prove_node n proof
  end.

End GenerateProof.

Definition _generate_proof (self : ReasoningMerkleTree) (node_id : string) : Proof :=
  match nodes self !! node_id with
  | None => []
  | Some target_hash =>
      snd (find_and_prove node_id target_hash (root self) [])
  end.

(** [build_from_reasoning_tree]: the new state and the returned root hash.
    [None] only if [_build_tree] does not return. *)
Definition build_from_reasoning_tree (self : ReasoningMerkleTree)
    (reasoning_nodes : list ReasoningNode.t)
    : option (ReasoningMerkleTree * string) :=
  match reasoning_nodes with
  | [] => Some (self, hash_data "")
  | _ =>
      let '(nodes1, leaves) :=
        foldl (fun '(ns, lv) node =>
                 let node_hash := hash_node node in
                 (<[ReasoningNode.id node := node_hash]> ns,
                  lv ++ [Build_MerkleNode node_hash (Some (ReasoningNode.id node)) None None]))
              (nodes self, []) reasoning_nodes in
      match _build_tree leaves with
      | None => None
      | Some r =>
          let self1 := {| root := Some r; nodes := nodes1; proofs := proofs self |} in
          let proofs1 :=
            map_fold (fun node_id _ acc => <[node_id := _generate_proof self1 node_id]> acc)
                     (proofs self) nodes1 in
          Some ({| root := Some r; nodes := nodes1; proofs := proofs1 |}, hash r)
      end
  end.

Definition get_proof (self : ReasoningMerkleTree) (node_id : string) : option Proof :=
  proofs self !! node_id.

(** [verify_proof]: any direction other than ["left"] takes the else branch. *)
Definition verify_step (current_hash : string) (entry : string * string) : string :=
  let '(sibling_hash, direction) := entry in
  if bool_decide (direction = "left")
  then combine_hashes sibling_hash current_hash
  else combine_hashes current_hash sibling_hash.

Definition verify_proof (node_data : ReasoningNode.t) (proof : Proof)
    (root_hash : string) : bool :=
  let current_hash := foldl verify_step (hash_node node_data) proof in
  bool_decide (current_hash = root_hash).

Definition get_root (self : ReasoningMerkleTree) : option string :=
  hash <$> root self.

(** [create_merkle_commitment]: a fresh tree over the root followed by the
    listed nodes. *)
Definition create_merkle_commitment (reasoning_tree : ReasoningTree.t)
    : option (string * gmap string Proof) :=
  let tree := init in
  let all_nodes :=
    ReasoningTree.root reasoning_tree :: ReasoningTree.nodes reasoning_tree in
  match build_from_reasoning_tree tree all_nodes with
  | Some (tree1, merkle_root) => Some (merkle_root, proofs tree1)
  | None => None
  end.

(** *** Predicates on hash trees used in the statements *)

(** Every node is a leaf or has two children whose hashes combine to its
    own. *)
Fixpoint well_formed (t : MerkleNode) : Prop :=
  match t with
  | Build_MerkleNode h _ l r =>
      match l, r with
      | None, None => True
      | Some ln, Some rn =>
          h = combine_hashes (hash ln) (hash rn) /\ well_formed ln /\ well_formed rn
      | _, _ => False
      end
  end.

(** Some node of [t] carries hash [target] and identifier [node_id]. *)
Fixpoint occurs (node_id target : string) (t : MerkleNode) : Prop :=
  match t with
  | Build_MerkleNode h d l r =>
      (h = target /\ d = Some node_id)
      \/ match l with Some ln => occurs node_id target ln | None => False end
      \/ match r with Some rn => occurs node_id target rn | None => False end
  end.

(** The leaf built for a reasoning node. *)
Definition leaf_of (node : ReasoningNode.t) : MerkleNode :=
  Build_MerkleNode (hash_node node) (Some (ReasoningNode.id node)) None None.

(** A tree whose leaves, all labelled, sit [k] levels below the root, and
    whose inner nodes are unlabelled and have two children. *)
Fixpoint perfect (k : nat) (t : MerkleNode) : Prop :=
  match k with
  | O => left t = None /\ right t = None /\ is_Some (data_id t)
  | S k' =>
      data_id t = None
      /\ exists l r, left t = Some l /\ right t = Some r
                     /\ perfect k' l /\ perfect k' r
  end.

(** Two inputs of the digest with the same output. *)
Definition collision : Prop :=
  exists x y : string, x <> y /\ sha256_hexdigest x = sha256_hexdigest y.

(** The string that one step of a verification hashes. *)
Definition step_input (current_hash : string) (entry : string * string) : string :=
  if bool_decide (entry.2 = "left")
  then entry.1 +:+ current_hash
  else current_hash +:+ entry.1.

(** The strings hashed, one per step, by a verification that starts from
    [current_hash]. *)
Fixpoint fold_inputs (current_hash : string) (proof : Proof) : list string :=
  match proof with
  | [] => []
  | entry :: rest =>
      step_input current_hash entry :: fold_inputs (verify_step current_hash entry) rest
  end.

(** Every string that [verify_proof] hashes on a node and a proof: the
    serialised node, then one string per entry of the proof. *)
Definition digest_inputs (node_data : ReasoningNode.t) (proof : Proof) : list string :=
  json_dumps node_data :: fold_inputs (hash_node node_data) proof.

End WithHash.

End Merkle.

(* ===================================================================== *)
(** ** merkle.py: [verify_proof] as a caller can invoke it *)
(* ===================================================================== *)

(** The annotation of the argument [proof] is a list of pairs, but the value
    a caller holds is what [get_proof] returned, and that is [None] for an
    identifier without a stored proof: [for ... in None] raises [TypeError].
    [hash_data] encodes its argument first, and [str.encode] raises
    [UnicodeEncodeError], a [ValueError], on a string that holds a surrogate
    code point.  Here the proof is optional and the results are outcomes. *)
Module MerkleCalls.

Section WithHash.

Variable sha256_hexdigest : string -> string.
Variable json_dumps : ReasoningNode.t -> string.

(** [encodes s]: [s.encode()] returns, that is, [s] holds no surrogate code
    point. *)
Variable encodes : string -> bool.

Definition hash_data (data : string) : Outcome string :=
  if encodes data then Return (sha256_hexdigest data) else Raise ValueError.

Definition hash_node (node_data : ReasoningNode.t) : Outcome string :=
  let canonical := json_dumps node_data in
  hash_data canonical.

Definition combine_hashes (l r : string) : Outcome string :=
  let combined := (l +:+ r) in
  hash_data combined.

(** The loop of [verify_proof] over a list of pairs. *)
Fixpoint verify_loop (current_hash : string) (proof : Merkle.Proof) : Outcome string :=
  match proof with
  | [] => Return current_hash
  | (sibling_hash, direction) :: rest =>
      let combined :=
        if bool_decide (direction = "left")
        then combine_hashes sibling_hash current_hash
        else combine_hashes current_hash sibling_hash in
      match combined with
      | Return current_hash => verify_loop current_hash rest
      | Raise e => Raise e
      end
  end.

Definition verify_proof (node_data : ReasoningNode.t) (proof : option Merkle.Proof)
    (root_hash : string) : Outcome bool :=
  match hash_node node_data with
  | Raise e => Raise e
  | Return current_hash =>
      match proof with
      | None => Raise TypeError
      | Some proof =>
          match verify_loop current_hash proof with
          | Return current_hash => Return (bool_decide (current_hash = root_hash))
          | Raise e => Raise e
          end
      end
  end.

End WithHash.

End MerkleCalls.

(* ===================================================================== *)
(** ** challenge.py *)
(* ===================================================================== *)

Module Challenge.

Local Open Scope Q_scope.

Definition CHALLENGE_WINDOW_HOURS : Z := 6.
Definition DEFENSE_WINDOW_HOURS : Z := 2.
Definition MIN_CHALLENGE_STAKE_RATIO : Q := 0.1.

Definition PROPOSER_SLASH_RATE : Q := 0.30.
Definition CHALLENGER_SLASH_RATE : Q := 0.50.

Inductive DisputeStatus := PENDING_DEFENSE | PENDING_ADJUDICATION | RESOLVED | EXPIRED.

Global Instance DisputeStatus_eq_dec : EqDecision DisputeStatus.
Proof. solve_decision. Defined.

Module Dispute.
Record t := {
  dispute_id : string;
  task_id : string;
  target_node_id : string;
  proposer_hotkey : string;
  challenger_hotkey : string;
  proposer_stake : Q;
  challenger_stake : Q;
  attack_type : AttackType;
  challenge_argument : string;
  challenge_evidence : option Evidence.t;
  defense : option DefenseSubmission.t;
  defense_deadline : option datetime;
  status : DisputeStatus;
  verdict : option Verdict;
  created_at : datetime;
  resolved_at : option datetime;
  proposer_payout : Q;
  challenger_payout : Q;
  proposer_reputation_delta : Q;
  challenger_reputation_delta : Q
}.

(** Attribute assignments [dispute.field = x]. *)
Definition set_defense (x : option DefenseSubmission.t) (d : t) : t :=
  let '(Build_t a1 a2 a3 a4 a5 a6 a7 a8 a9 a10 _ a12 a13 a14 a15 a16 a17 a18 a19 a20) := d in
  Build_t a1 a2 a3 a4 a5 a6 a7 a8 a9 a10 x a12 a13 a14 a15 a16 a17 a18 a19 a20.
Definition set_status (x : DisputeStatus) (d : t) : t :=
  let '(Build_t a1 a2 a3 a4 a5 a6 a7 a8 a9 a10 a11 a12 _ a14 a15 a16 a17 a18 a19 a20) := d in
  Build_t a1 a2 a3 a4 a5 a6 a7 a8 a9 a10 a11 a12 x a14 a15 a16 a17 a18 a19 a20.
Definition set_verdict (x : option Verdict) (d : t) : t :=
  let '(Build_t a1 a2 a3 a4 a5 a6 a7 a8 a9 a10 a11 a12 a13 _ a15 a16 a17 a18 a19 a20) := d in
  Build_t a1 a2 a3 a4 a5 a6 a7 a8 a9 a10 a11 a12 a13 x a15 a16 a17 a18 a19 a20.
Definition set_resolved_at (x : option datetime) (d : t) : t :=
  let '(Build_t a1 a2 a3 a4 a5 a6 a7 a8 a9 a10 a11 a12 a13 a14 a15 _ a17 a18 a19 a20) := d in
  Build_t a1 a2 a3 a4 a5 a6 a7 a8 a9 a10 a11 a12 a13 a14 a15 x a17 a18 a19 a20.
Definition set_proposer_payout (x : Q) (d : t) : t :=
  let '(Build_t a1 a2 a3 a4 a5 a6 a7 a8 a9 a10 a11 a12 a13 a14 a15 a16 _ a18 a19 a20) := d in
  Build_t a1 a2 a3 a4 a5 a6 a7 a8 a9 a10 a11 a12 a13 a14 a15 a16 x a18 a19 a20.
Definition set_challenger_payout (x : Q) (d : t) : t :=
  let '(Build_t a1 a2 a3 a4 a5 a6 a7 a8 a9 a10 a11 a12 a13 a14 a15 a16 a17 _ a19 a20) := d in
  Build_t a1 a2 a3 a4 a5 a6 a7 a8 a9 a10 a11 a12 a13 a14 a15 a16 a17 x a19 a20.
Definition set_proposer_reputation_delta (x : Q) (d : t) : t :=
  let '(Build_t a1 a2 a3 a4 a5 a6 a7 a8 a9 a10 a11 a12 a13 a14 a15 a16 a17 a18 _ a20) := d in
  Build_t a1 a2 a3 a4 a5 a6 a7 a8 a9 a10 a11 a12 a13 a14 a15 a16 a17 a18 x a20.
Definition set_challenger_reputation_delta (x : Q) (d : t) : t :=
  let '(Build_t a1 a2 a3 a4 a5 a6 a7 a8 a9 a10 a11 a12 a13 a14 a15 a16 a17 a18 a19 _) := d in
  Build_t a1 a2 a3 a4 a5 a6 a7 a8 a9 a10 a11 a12 a13 a14 a15 a16 a17 a18 a19 x.
End Dispute.

(** The messages of the [(bool, Optional[str])] results and of the
    [{"error": ...}] summary, with the values their f-strings interpolate. *)
Inductive Message :=
  | TargetNodeNotFound (target_node : string)
  | StakeBelowMinimum (stake min_stake : Q)
  | ChallengeWindowClosed
  | AlreadyActiveChallenge (target_node : string)
  | DisputeNotFound (dispute_id : string)
  | NotAcceptingDefenses (status : DisputeStatus)
  | DefenseWindowExpired.

Record ChallengeManager := {
  disputes : list (string * Dispute.t);
  tree_challenges : gmap string (list string);
  dispute_counter : Z
}.

Definition init : ChallengeManager :=
  {| disputes := []; tree_challenges := ∅; dispute_counter := 0 |}.

(** The loop over [task_disputes] in [validate_challenge]: [true] when some
    listed dispute on the same node is not resolved. *)
Fixpoint has_active_challenge (ds : list (string * Dispute.t)) (target_node : string)
    (task_disputes : list string) : bool :=
  match task_disputes with
  | [] => false
  | dispute_id :: rest =>
      match PyDict.get dispute_id ds with
      | Some dispute =>
          if bool_decide (Dispute.target_node_id dispute = target_node)
             && negb (bool_decide (Dispute.status dispute = RESOLVED))
          then true
          else has_active_challenge ds target_node rest
      | None => has_active_challenge ds target_node rest
      end
  end.

Definition validate_challenge (self : ChallengeManager) (now : datetime)
    (challenge : ChallengeSubmission.t) (tree : ReasoningTree.t)
    : bool * option Message :=
  let node_ids :=
    ReasoningNode.id (ReasoningTree.root tree)
      :: map ReasoningNode.id (ReasoningTree.nodes tree) in
  if negb (bool_decide (ChallengeSubmission.target_node challenge ∈ node_ids)) then
    (false, Some (TargetNodeNotFound (ChallengeSubmission.target_node challenge)))
  else
    let min_stake := ReasoningTree.stake tree * MIN_CHALLENGE_STAKE_RATIO in
    if Qltb (ChallengeSubmission.stake challenge) min_stake then
      (false, Some (StakeBelowMinimum (ChallengeSubmission.stake challenge) min_stake))
    else
      let window_closed :=
        match ReasoningTree.submitted_at tree with
        | Some submitted =>
            let window_end := (submitted + timedelta_hours CHALLENGE_WINDOW_HOURS)%Z in
            bool_decide (now > window_end)%Z
        | None => false
        end in
      if window_closed then (false, Some ChallengeWindowClosed)
      else
        let task_disputes :=
          default [] (tree_challenges self !! ReasoningTree.task_id tree) in
        if has_active_challenge (disputes self)
             (ChallengeSubmission.target_node challenge) task_disputes
        then (false, Some (AlreadyActiveChallenge (ChallengeSubmission.target_node challenge)))
        else (true, None).

Definition create_dispute (self : ChallengeManager) (now : datetime)
    (challenge : ChallengeSubmission.t) (tree : ReasoningTree.t)
    : ChallengeManager * Dispute.t :=
  let counter := (dispute_counter self + 1)%Z in
  let dispute_id :=
    "disp_" +:+ ReasoningTree.task_id tree +:+ "_" +:+ pretty counter in
  let dispute := {|
    Dispute.dispute_id := dispute_id;
    Dispute.task_id := ReasoningTree.task_id tree;
    Dispute.target_node_id := ChallengeSubmission.target_node challenge;
    Dispute.proposer_hotkey := ReasoningTree.proposer_hotkey tree;
    Dispute.challenger_hotkey := ChallengeSubmission.challenger_hotkey challenge;
    Dispute.proposer_stake := ReasoningTree.stake tree;
    Dispute.challenger_stake := ChallengeSubmission.stake challenge;
    Dispute.attack_type := ChallengeSubmission.attack_type challenge;
    Dispute.challenge_argument := ChallengeSubmission.argument challenge;
    Dispute.challenge_evidence := ChallengeSubmission.evidence challenge;
    Dispute.defense := None;
    Dispute.defense_deadline := Some (now + timedelta_hours DEFENSE_WINDOW_HOURS)%Z;
    Dispute.status := PENDING_DEFENSE;
    Dispute.verdict := None;
    Dispute.created_at := now;
    Dispute.resolved_at := None;
    Dispute.proposer_payout := 0.0;
    Dispute.challenger_payout := 0.0;
    Dispute.proposer_reputation_delta := 0.0;
    Dispute.challenger_reputation_delta := 0.0
  |} in
  let task_id := ReasoningTree.task_id tree in
  let listed := default [] (tree_challenges self !! task_id) in
  ({| disputes := PyDict.set dispute_id dispute (disputes self);
      tree_challenges := <[task_id := (listed ++ [dispute_id])%list]> (tree_challenges self);
      dispute_counter := counter |},
   dispute).

(** [submit_defense].  Comparing [datetime.utcnow()] with a deadline that is
    [None] raises [TypeError]. *)
Definition submit_defense (self : ChallengeManager) (now : datetime)
    (dispute_id : string) (defense : DefenseSubmission.t)
    : Outcome (ChallengeManager * (bool * option Message)) :=
  match PyDict.get dispute_id (disputes self) with
  | None => Return (self, (false, Some (DisputeNotFound dispute_id)))
  | Some dispute =>
      if negb (bool_decide (Dispute.status dispute = PENDING_DEFENSE)) then
        Return (self, (false, Some (NotAcceptingDefenses (Dispute.status dispute))))
      else
        match Dispute.defense_deadline dispute with
        | None => Raise TypeError
        | Some deadline =>
            if bool_decide (now > deadline)%Z then
              Return (self, (false, Some DefenseWindowExpired))
            else
              let dispute1 := Dispute.set_defense (Some defense) dispute in
              let dispute2 := Dispute.set_status PENDING_ADJUDICATION dispute1 in
              Return ({| disputes := PyDict.set dispute_id dispute2 (disputes self);
                         tree_challenges := tree_challenges self;
                         dispute_counter := dispute_counter self |},
                      (true, None))
        end
  end.

(** [_resolve_no_defense]; [resolved_at] takes the clock reading of the
    sweep that calls it. *)
Definition _resolve_no_defense (now : datetime) (dispute : Dispute.t) : Dispute.t :=
  let dispute := Dispute.set_status RESOLVED dispute in
  let dispute := Dispute.set_verdict (Some CHALLENGE_UPHELD) dispute in
  let dispute := Dispute.set_resolved_at (Some now) dispute in
  let multiplier := ATTACK_MULTIPLIERS (Dispute.attack_type dispute) in
  let base_reward := Dispute.challenger_stake dispute * multiplier in
  let proposer_slash :=
    py_min (Dispute.proposer_stake dispute * (PROPOSER_SLASH_RATE * 1.5))
           (Dispute.proposer_stake dispute) in
  let dispute := Dispute.set_challenger_payout (base_reward + proposer_slash) dispute in
  let dispute := Dispute.set_proposer_payout (- proposer_slash) dispute in
  let dispute := Dispute.set_proposer_reputation_delta (- 0.15) dispute in
  Dispute.set_challenger_reputation_delta 0.05 dispute.

(** The test of the sweep: pending defense, a deadline, and [now] past it. *)
Definition defense_expired (now : datetime) (dispute : Dispute.t) : bool :=
  bool_decide (Dispute.status dispute = PENDING_DEFENSE)
  && match Dispute.defense_deadline dispute with
     | Some deadline => bool_decide (now > deadline)%Z
     | None => false
     end.

(** The loop of [check_expired_defenses] over [self.disputes.items()]: the
    table after the in-place resolutions and the list [expired]. *)
Fixpoint expire_items (now : datetime) (items : list (string * Dispute.t))
    : list (string * Dispute.t) * list string :=
  match items with
  | [] => ([], [])
  | (dispute_id, dispute) :: rest =>
      let '(rest', expired) := expire_items now rest in
      if defense_expired now dispute
      then ((dispute_id, _resolve_no_defense now dispute) :: rest', dispute_id :: expired)
      else ((dispute_id, dispute) :: rest', expired)
  end.

Definition check_expired_defenses (self : ChallengeManager) (now : datetime)
    : ChallengeManager * list string :=
  let '(disputes', expired) := expire_items now (disputes self) in
  ({| disputes := disputes';
      tree_challenges := tree_challenges self;
      dispute_counter := dispute_counter self |},
   expired).

Definition _resolve_challenger_wins (dispute : Dispute.t) (confidence : Q) : Dispute.t :=
  let multiplier := ATTACK_MULTIPLIERS (Dispute.attack_type dispute) in
  let base_reward := Dispute.challenger_stake dispute * multiplier * confidence in
  let proposer_slash := Dispute.proposer_stake dispute * PROPOSER_SLASH_RATE * confidence in
  let dispute := Dispute.set_challenger_payout (base_reward + proposer_slash) dispute in
  let dispute := Dispute.set_proposer_payout (- proposer_slash) dispute in
  let dispute := Dispute.set_proposer_reputation_delta (- 0.10 * confidence) dispute in
  Dispute.set_challenger_reputation_delta (0.05 * confidence) dispute.

Definition _resolve_proposer_wins (dispute : Dispute.t) (confidence : Q) : Dispute.t :=
  let challenger_slash :=
    Dispute.challenger_stake dispute * CHALLENGER_SLASH_RATE * confidence in
  let proposer_recovery := challenger_slash * 0.6 in
  let dispute := Dispute.set_challenger_payout (- challenger_slash) dispute in
  let dispute := Dispute.set_proposer_payout proposer_recovery dispute in
  let dispute := Dispute.set_proposer_reputation_delta (0.02 * confidence) dispute in
  Dispute.set_challenger_reputation_delta (- 0.05 * confidence) dispute.

Definition _resolve_partial (dispute : Dispute.t) (confidence : Q) : Dispute.t :=
  let partial_factor := 0.5 in
  let multiplier := ATTACK_MULTIPLIERS (Dispute.attack_type dispute) in
  let challenger_reward :=
    Dispute.challenger_stake dispute * multiplier * partial_factor * confidence in
  let proposer_slash :=
    Dispute.proposer_stake dispute * PROPOSER_SLASH_RATE * partial_factor * confidence in
  let dispute :=
    Dispute.set_challenger_payout
      (challenger_reward + proposer_slash - (Dispute.challenger_stake dispute * 0.2))
      dispute in
  let dispute := Dispute.set_proposer_payout (- proposer_slash) dispute in
  let dispute := Dispute.set_proposer_reputation_delta (- 0.03 * confidence) dispute in
  Dispute.set_challenger_reputation_delta (0.01 * confidence) dispute.

(** The dictionary returned by [resolve_dispute]. *)
Module Summary.
Record t := {
  dispute_id : string;
  verdict : Verdict;
  proposer_payout : Q;
  challenger_payout : Q;
  proposer_reputation_delta : Q;
  challenger_reputation_delta : Q
}.
End Summary.

Definition resolve_dispute (self : ChallengeManager) (now : datetime)
    (dispute_id : string) (verdict : Verdict) (confidence : Q)
    : ChallengeManager * (Message + Summary.t) :=
  match PyDict.get dispute_id (disputes self) with
  | None => (self, inl (DisputeNotFound dispute_id))
  | Some dispute =>
      let dispute := Dispute.set_status RESOLVED dispute in
      let dispute := Dispute.set_verdict (Some verdict) dispute in
      let dispute := Dispute.set_resolved_at (Some now) dispute in
      let dispute :=
        match verdict with
        | CHALLENGE_UPHELD => _resolve_challenger_wins dispute confidence
        | CHALLENGE_REJECTED => _resolve_proposer_wins dispute confidence
        | PARTIAL => _resolve_partial dispute confidence
        | ABSTAIN => dispute
        end in
      ({| disputes := PyDict.set dispute_id dispute (disputes self);
          tree_challenges := tree_challenges self;
          dispute_counter := dispute_counter self |},
       inr {| Summary.dispute_id := dispute_id;
              Summary.verdict := verdict;
              Summary.proposer_payout := Dispute.proposer_payout dispute;
              Summary.challenger_payout := Dispute.challenger_payout dispute;
              Summary.proposer_reputation_delta := Dispute.proposer_reputation_delta dispute;
              Summary.challenger_reputation_delta := Dispute.challenger_reputation_delta dispute |})
  end.

Definition get_dispute (self : ChallengeManager) (dispute_id : string)
    : option Dispute.t :=
  PyDict.get dispute_id (disputes self).

Definition get_pending_adjudication (self : ChallengeManager) : list Dispute.t :=
  filter (fun d => Dispute.status d = PENDING_ADJUDICATION) (map snd (disputes self)).

(** The comprehension of [get_active_disputes_for_tree]: the listed
    identifiers that are in the table with a status other than resolved. *)
Fixpoint active_of (ds : list (string * Dispute.t)) (dispute_ids : list string)
    : list Dispute.t :=
  match dispute_ids with
  | [] => []
  | did :: rest =>
      match PyDict.get did ds with
      | Some d =>
          if negb (bool_decide (Dispute.status d = RESOLVED))
          then d :: active_of ds rest
          else active_of ds rest
      | None => active_of ds rest
      end
  end.

Definition get_active_disputes_for_tree (self : ChallengeManager) (task_id : string)
    : list Dispute.t :=
  let dispute_ids := default [] (tree_challenges self !! task_id) in
  active_of (disputes self) dispute_ids.

(** The dictionary returned by [analyze_challenge_quality] when the target
    node is found; [warning] is the optional key. *)
Module Analysis.
Record t := {
  target_node_type : NodeType;
  has_evidence : bool;
  num_children : nat;
  attack_multiplier : Q;
  estimated_reward : Q;
  max_slash_if_rejected : Q;
  warning : option string
}.
End Analysis.

(** [analyze_challenge_quality]; [inl] carries the text of the ["error"]
    entry. *)
Definition analyze_challenge_quality (challenge : ChallengeSubmission.t)
    (tree : ReasoningTree.t) : string + Analysis.t :=
  let target_node :=
    if bool_decide (ReasoningNode.id (ReasoningTree.root tree)
                    = ChallengeSubmission.target_node challenge)
    then Some (ReasoningTree.root tree)
    else List.find
           (fun node => bool_decide (ReasoningNode.id node
                                     = ChallengeSubmission.target_node challenge))
           (ReasoningTree.nodes tree) in
  match target_node with
  | None => inl "Target node not found"
  | Some target_node =>
      inr {| Analysis.target_node_type := ReasoningNode.node_type target_node;
             Analysis.has_evidence :=
               match ReasoningNode.evidence target_node with
               | Some _ => true
               | None => false
               end;
             Analysis.num_children := length (ReasoningNode.children target_node);
             Analysis.attack_multiplier :=
               ATTACK_MULTIPLIERS (ChallengeSubmission.attack_type challenge);
             Analysis.estimated_reward :=
               ChallengeSubmission.stake challenge
               * ATTACK_MULTIPLIERS (ChallengeSubmission.attack_type challenge);
             Analysis.max_slash_if_rejected :=
               ChallengeSubmission.stake challenge * CHALLENGER_SLASH_RATE;
             Analysis.warning :=
               match ChallengeSubmission.evidence challenge with
               | Some _ => None
               | None =>
                   Some "Challenge has no supporting evidence - higher rejection risk"
               end |}
  end.

Definition calculate_challenge_ev (challenge_stake : Q) (attack_type : AttackType)
    (proposer_stake : Q) (win_probability : Q) : Q :=
  let multiplier := ATTACK_MULTIPLIERS attack_type in
  let reward := (challenge_stake * multiplier) + (proposer_stake * PROPOSER_SLASH_RATE) in
  let penalty := challenge_stake * CHALLENGER_SLASH_RATE in
  let ev := (win_probability * reward) - ((1 - win_probability) * penalty) in
  ev.

(** *** The outcome table of the specification (section 4.2)

    Written from the table's words, to be compared with the code: [m] is
    the attack multiplier, [P] the proposer stake, [C] the challenger stake,
    [c] the confidence. *)
Module Table.

Definition m (a : AttackType) : Q :=
  match a with
  | FACTUAL_ERROR => 2.0
  | LOGICAL_FALLACY => 2.5
  | MISSING_CONTEXT => 1.5
  | CONTRADICTION => 3.0
  | OUTDATED => 1.5
  end.

Record row := {
  challenger : Q;
  proposer : Q;
  rep_proposer : Q;
  rep_challenger : Q
}.

Definition upheld (m P C c : Q) : row :=
  {| challenger := C * m * c + P * 0.30 * c;
     proposer := - (P * 0.30 * c);
     rep_proposer := - (0.10 * c);
     rep_challenger := 0.05 * c |}.

Definition rejected (m P C c : Q) : row :=
  {| challenger := - (C * 0.50 * c);
     proposer := C * 0.50 * c * 0.60;
     rep_proposer := 0.02 * c;
     rep_challenger := - (0.05 * c) |}.

Definition partial (m P C c : Q) : row :=
  {| challenger := C * m * 0.5 * c + P * 0.30 * 0.5 * c - 0.20 * C;
     proposer := - (P * 0.30 * 0.5 * c);
     rep_proposer := - (0.03 * c);
     rep_challenger := 0.01 * c |}.

Definition no_defense (m P C : Q) : row :=
  {| challenger := C * m + Qmin P (P * 0.45);
     proposer := - Qmin P (P * 0.45);
     rep_proposer := - 0.15;
     rep_challenger := 0.05 |}.

(** The row of a verdict; abstain has none. *)
Definition row_of (v : Verdict) (m P C c : Q) : option row :=
  match v with
  | CHALLENGE_UPHELD => Some (upheld m P C c)
  | CHALLENGE_REJECTED => Some (rejected m P C c)
  | PARTIAL => Some (partial m P C c)
  | ABSTAIN => None
  end.

(** The stored outcome of a dispute agrees with a row. *)
Definition settled (d : Dispute.t) (r : row) : Prop :=
  Dispute.challenger_payout d == challenger r
  /\ Dispute.proposer_payout d == proposer r
  /\ Dispute.proposer_reputation_delta d == rep_proposer r
  /\ Dispute.challenger_reputation_delta d == rep_challenger r.

(** The summary returned by [resolve_dispute] agrees with a row. *)
Definition reported (s : Summary.t) (r : row) : Prop :=
  Summary.challenger_payout s == challenger r
  /\ Summary.proposer_payout s == proposer r
  /\ Summary.proposer_reputation_delta s == rep_proposer r
  /\ Summary.challenger_reputation_delta s == rep_challenger r.

End Table.

(** *** The sweep and the duplicate check in the specification's words *)

(** The sweep's criterion: pending defense and
    a deadline strictly before [now]. *)
Definition deadline_passed (now : datetime) (d : Dispute.t) : Prop :=
  Dispute.status d = PENDING_DEFENSE
  /\ match Dispute.defense_deadline d with
     | Some deadline => (deadline < now)%Z
     | None => False
     end.

Global Instance deadline_passed_dec now d : Decision (deadline_passed now d).
Proof.
  unfold deadline_passed. destruct (Dispute.defense_deadline d); apply _.
Defined.

(** *** Shorthands of the statements *)

(** The dispute that [resolve_dispute] stores for a known dispute. *)
Definition resolved_with (now : datetime) (verdict : Verdict) (c : Q)
    (d : Dispute.t) : Dispute.t :=
  let d := Dispute.set_resolved_at (Some now)
             (Dispute.set_verdict (Some verdict) (Dispute.set_status RESOLVED d)) in
  match verdict with
  | CHALLENGE_UPHELD => _resolve_challenger_wins d c
  | CHALLENGE_REJECTED => _resolve_proposer_wins d c
  | PARTIAL => _resolve_partial d c
  | ABSTAIN => d
  end.

(** The four settled fields of two disputes coincide. *)
Definition same_outcome (d d' : Dispute.t) : Prop :=
  Dispute.proposer_payout d' = Dispute.proposer_payout d
  /\ Dispute.challenger_payout d' = Dispute.challenger_payout d
  /\ Dispute.proposer_reputation_delta d' = Dispute.proposer_reputation_delta d
  /\ Dispute.challenger_reputation_delta d' = Dispute.challenger_reputation_delta d.

(** The window test of [validate_challenge] read as a proposition. *)
Definition window_open (now : datetime) (tree : ReasoningTree.t) : Prop :=
  match ReasoningTree.submitted_at tree with
  | Some submitted => (now <= submitted + timedelta_hours CHALLENGE_WINDOW_HOURS)%Z
  | None => True
  end.

(** What the fields of a dispute record for each status the operations
    produce. *)
Definition consistent (d : Dispute.t) : Prop :=
  match Dispute.status d with
  | PENDING_DEFENSE =>
      Dispute.defense d = None /\ Dispute.verdict d = None
      /\ Dispute.resolved_at d = None /\ is_Some (Dispute.defense_deadline d)
  | PENDING_ADJUDICATION =>
      is_Some (Dispute.defense d) /\ Dispute.verdict d = None
      /\ Dispute.resolved_at d = None
  | RESOLVED => is_Some (Dispute.verdict d) /\ is_Some (Dispute.resolved_at d)
  | EXPIRED => False
  end.

Definition all_consistent (self : ChallengeManager) : Prop :=
  Forall (fun x => consistent x.2) (disputes self).

(** The duplicate check in the specification's words: no unresolved dispute
    listed for the task targets the node. *)
Definition no_active_challenge (self : ChallengeManager) (task_id target_node : string)
    : Prop :=
  forall dispute_id d,
    dispute_id ∈ default [] (tree_challenges self !! task_id) ->
    PyDict.get dispute_id (disputes self) = Some d ->
    Dispute.target_node_id d = target_node ->
    Dispute.status d = RESOLVED.

End Challenge.

(* ===================================================================== *)
(** ** consensus.py *)
(* ===================================================================== *)

Module Consensus.

Local Open Scope Q_scope.

Definition ADJUDICATION_WINDOW_HOURS : Z := 4.
Definition ESCALATION_WINDOW_HOURS : Z := 6.
Definition CONSENSUS_THRESHOLD : Q := 0.6.
Definition CALIBRATION_DECAY_PER_EPOCH : Q := 0.02.

Inductive ValidatorTier := SCOUT | AUDITOR | ARBITER.

Global Instance ValidatorTier_eq_dec : EqDecision ValidatorTier.
Proof. solve_decision. Defined.

(** One entry of [TIER_CONFIG]; [max_cases_per_epoch = None] is
    [float('inf')]. *)
Module TierConfig.
Record t := {
  stake_required : Q;
  max_cases_per_epoch : option Z;
  weight_multiplier : Q;
  min_calibration : Q
}.
End TierConfig.

Definition TIER_CONFIG (tier : ValidatorTier) : TierConfig.t :=
  match tier with
  | SCOUT =>
      {| TierConfig.stake_required := 100;
         TierConfig.max_cases_per_epoch := Some 10%Z;
         TierConfig.weight_multiplier := 1.0;
         TierConfig.min_calibration := 0.5 |}
  | AUDITOR =>
      {| TierConfig.stake_required := 500;
         TierConfig.max_cases_per_epoch := Some 50%Z;
         TierConfig.weight_multiplier := 2.0;
         TierConfig.min_calibration := 0.7 |}
  | ARBITER =>
      {| TierConfig.stake_required := 2000;
         TierConfig.max_cases_per_epoch := None;
         TierConfig.weight_multiplier := 5.0;
         TierConfig.min_calibration := 0.85 |}
  end.

(** An entry of [verdict_history]. *)
Module HistoryEntry.
Record t := {
  timestamp : datetime;
  correct : bool;
  confidence : Q;
  alignment : Q
}.
End HistoryEntry.

Module ValidatorState.
Record t := {
  hotkey : string;
  tier : ValidatorTier;
  stake : Q;
  calibration_score : Q;
  verdicts_submitted : Z;
  correct_verdicts : Z;
  cases_this_epoch : Z;
  last_active : datetime;
  tier_start_date : datetime;
  slashing_events : list datetime;
  verdict_history : list HistoryEntry.t
}.

Definition set_calibration_score (x : Q) (v : t) : t :=
  let '(Build_t a1 a2 a3 _ a5 a6 a7 a8 a9 a10 a11) := v in
  Build_t a1 a2 a3 x a5 a6 a7 a8 a9 a10 a11.
Definition set_cases_this_epoch (x : Z) (v : t) : t :=
  let '(Build_t a1 a2 a3 a4 a5 a6 _ a8 a9 a10 a11) := v in
  Build_t a1 a2 a3 a4 a5 a6 x a8 a9 a10 a11.
Definition set_tier (x : ValidatorTier) (v : t) : t :=
  let '(Build_t a1 _ a3 a4 a5 a6 a7 a8 a9 a10 a11) := v in
  Build_t a1 x a3 a4 a5 a6 a7 a8 a9 a10 a11.
Definition set_verdicts_submitted (x : Z) (v : t) : t :=
  let '(Build_t a1 a2 a3 a4 _ a6 a7 a8 a9 a10 a11) := v in
  Build_t a1 a2 a3 a4 x a6 a7 a8 a9 a10 a11.
Definition set_correct_verdicts (x : Z) (v : t) : t :=
  let '(Build_t a1 a2 a3 a4 a5 _ a7 a8 a9 a10 a11) := v in
  Build_t a1 a2 a3 a4 a5 x a7 a8 a9 a10 a11.
Definition set_last_active (x : datetime) (v : t) : t :=
  let '(Build_t a1 a2 a3 a4 a5 a6 a7 _ a9 a10 a11) := v in
  Build_t a1 a2 a3 a4 a5 a6 a7 x a9 a10 a11.
Definition set_tier_start_date (x : datetime) (v : t) : t :=
  let '(Build_t a1 a2 a3 a4 a5 a6 a7 a8 _ a10 a11) := v in
  Build_t a1 a2 a3 a4 a5 a6 a7 a8 x a10 a11.
Definition set_verdict_history (x : list HistoryEntry.t) (v : t) : t :=
  let '(Build_t a1 a2 a3 a4 a5 a6 a7 a8 a9 a10 _) := v in
  Build_t a1 a2 a3 a4 a5 a6 a7 a8 a9 a10 x.

(** The properties [effective_weight] and [can_take_case]. *)
Definition effective_weight (self : t) : Q :=
  let tier_mult := TierConfig.weight_multiplier (TIER_CONFIG (tier self)) in
  stake self * calibration_score self * tier_mult.

Definition can_take_case (self : t) : bool :=
  match TierConfig.max_cases_per_epoch (TIER_CONFIG (tier self)) with
  | Some max_cases => bool_decide (cases_this_epoch self < max_cases)%Z
  | None => true
  end.
End ValidatorState.

Module Vote.
Record t := {
  validator_hotkey : string;
  verdict : Verdict;
  confidence : Q;
  reasoning : string;
  submitted_at : datetime
}.
End Vote.

(** [vote_breakdown] is a [dict] keyed by verdict; its items are kept in
    insertion order, which [max] observes. *)
Module ConsensusResult.
Record t := {
  dispute_id : string;
  final_verdict : Verdict;
  weighted_score : Q;
  total_weight : Q;
  vote_breakdown : list (Verdict * Q);
  participating_validators : list string;
  escalated : bool
}.

Definition consensus_reached (self : t) : bool :=
  Qle_bool CONSENSUS_THRESHOLD (weighted_score self).

Definition set_escalated (x : bool) (r : t) : t :=
  let '(Build_t a1 a2 a3 a4 a5 a6 _) := r in Build_t a1 a2 a3 a4 a5 a6 x.
End ConsensusResult.

(** A value of [active_disputes]. *)
Module DisputeState.
Record t := {
  dispute : DisputeForAdjudication.t;
  assigned_validators : list string;
  deadline : datetime;
  escalated : bool
}.
End DisputeState.

Record ValidatorConsensus := {
  validators : gmap string ValidatorState.t;
  active_disputes : gmap string DisputeState.t;
  dispute_votes : gmap string (list Vote.t);
  epoch_start : datetime
}.

Definition init (now : datetime) : ValidatorConsensus :=
  {| validators := ∅; active_disputes := ∅; dispute_votes := ∅; epoch_start := now |}.

(** [register_validator]; [ValueError] below the scout minimum. *)
Definition register_validator (self : ValidatorConsensus) (now : datetime)
    (hotkey : string) (stake : Q) (tier : ValidatorTier)
    : Outcome (ValidatorConsensus * ValidatorState.t) :=
  let register (tier : ValidatorTier) :=
    let validator := {|
      ValidatorState.hotkey := hotkey;
      ValidatorState.tier := tier;
      ValidatorState.stake := stake;
      ValidatorState.calibration_score := 1.0;
      ValidatorState.verdicts_submitted := 0;
      ValidatorState.correct_verdicts := 0;
      ValidatorState.cases_this_epoch := 0;
      ValidatorState.last_active := now;
      ValidatorState.tier_start_date := now;
      ValidatorState.slashing_events := [];
      ValidatorState.verdict_history := []
    |} in
    Return ({| validators := <[hotkey := validator]> (validators self);
               active_disputes := active_disputes self;
               dispute_votes := dispute_votes self;
               epoch_start := epoch_start self |},
            validator) in
  if Qltb stake (TierConfig.stake_required (TIER_CONFIG tier)) then
    let tier := SCOUT in
    if Qltb stake (TierConfig.stake_required (TIER_CONFIG SCOUT)) then
      Raise ValueError
    else register tier
  else register tier.

Definition get_validator (self : ValidatorConsensus) (hotkey : string)
    : option ValidatorState.t :=
  validators self !! hotkey.

(** The body of the loop of [apply_calibration_decay] for one validator. *)
Definition decay_validator (now : datetime) (validator : ValidatorState.t)
    : ValidatorState.t :=
  let days_inactive := timedelta_days now (ValidatorState.last_active validator) in
  if bool_decide (days_inactive > 7)%Z then
    let decay := CALIBRATION_DECAY_PER_EPOCH * inject_Z (days_inactive / 7) in
    ValidatorState.set_calibration_score
      (py_max 0.5 (ValidatorState.calibration_score validator - decay)) validator
  else validator.

Definition apply_calibration_decay (self : ValidatorConsensus) (now : datetime)
    : ValidatorConsensus :=
  {| validators := decay_validator now <$> validators self;
     active_disputes := active_disputes self;
     dispute_votes := dispute_votes self;
     epoch_start := epoch_start self |}.

Definition new_epoch (self : ValidatorConsensus) (now : datetime) : ValidatorConsensus :=
  let self1 :=
    {| validators := ValidatorState.set_cases_this_epoch 0 <$> validators self;
       active_disputes := active_disputes self;
       dispute_votes := dispute_votes self;
       epoch_start := now |} in
  apply_calibration_decay self1 now.

(** [{v: 0.0 for v in Verdict}] *)
Definition zero_weights : list (Verdict * Q) :=
  [(CHALLENGE_UPHELD, 0.0); (CHALLENGE_REJECTED, 0.0); (PARTIAL, 0.0); (ABSTAIN, 0.0)].

(** [verdict_weights[k] += w] on a dictionary that has the key. *)
Fixpoint add_weight (k : Verdict) (w : Q) (d : list (Verdict * Q)) : list (Verdict * Q) :=
  match d with
  | [] => []
  | (k', x) :: rest =>
      if bool_decide (k' = k) then (k', x + w) :: rest else (k', x) :: add_weight k w rest
  end.

(** The loop over [votes]: the per-verdict weights and the running total.
    A vote whose validator is not registered is skipped. *)
Definition tally_vote (vs : gmap string ValidatorState.t)
    (acc : list (Verdict * Q) * Q) (vote : Vote.t) : list (Verdict * Q) * Q :=
  let '(verdict_weights, total_weight) := acc in
  match vs !! Vote.validator_hotkey vote with
  | None => acc
  | Some validator =>
      let weight := ValidatorState.effective_weight validator * Vote.confidence vote in
      (add_weight (Vote.verdict vote) weight verdict_weights, total_weight + weight)
  end.

(** [max(items, key=lambda x: x[1])]: the first item with the largest key;
    [None] stands for the [ValueError] on an empty sequence. *)
Fixpoint max_from (best : Verdict * Q) (items : list (Verdict * Q)) : Verdict * Q :=
  match items with
  | [] => best
  | x :: rest => max_from (if Qltb (snd best) (snd x) then x else best) rest
  end.

Definition max_by_weight (items : list (Verdict * Q)) : option (Verdict * Q) :=
  match items with
  | [] => None
  | x :: rest => Some (max_from x rest)
  end.

Definition calculate_consensus (self : ValidatorConsensus) (dispute_id : string)
    : option ConsensusResult.t :=
  match active_disputes self !! dispute_id with
  | None => None
  | Some _ =>
      let votes := default [] (dispute_votes self !! dispute_id) in
      match votes with
      | [] =>
          Some {| ConsensusResult.dispute_id := dispute_id;
                  ConsensusResult.final_verdict := ABSTAIN;
                  ConsensusResult.weighted_score := 0.0;
                  ConsensusResult.total_weight := 0.0;
                  ConsensusResult.vote_breakdown := [];
                  ConsensusResult.participating_validators := [];
                  ConsensusResult.escalated := false |}
      | _ =>
          let '(verdict_weights, total_weight) :=
            foldl (tally_vote (validators self)) (zero_weights, 0.0) votes in
          if Qeq_bool total_weight 0 then
            Some {| ConsensusResult.dispute_id := dispute_id;
                    ConsensusResult.final_verdict := ABSTAIN;
                    ConsensusResult.weighted_score := 0.0;
                    ConsensusResult.total_weight := 0.0;
                    ConsensusResult.vote_breakdown := verdict_weights;
                    ConsensusResult.participating_validators :=
                      map Vote.validator_hotkey votes;
                    ConsensusResult.escalated := false |}
          else
            let vote_breakdown :=
              map (fun '(k, v) => (k, v / total_weight)) verdict_weights in
            match max_by_weight vote_breakdown with
            | None => None
            | Some winner =>
                Some {| ConsensusResult.dispute_id := dispute_id;
                        ConsensusResult.final_verdict := fst winner;
                        ConsensusResult.weighted_score := snd winner;
                        ConsensusResult.total_weight := total_weight;
                        ConsensusResult.vote_breakdown := vote_breakdown;
                        ConsensusResult.participating_validators :=
                          map Vote.validator_hotkey votes;
                        ConsensusResult.escalated := false |}
            end
      end
  end.

(** *** Voting *)

(** The messages of [submit_vote]. *)
Inductive VoteMessage :=
  | VoteDisputeNotFound (dispute_id : string)
  | ValidatorNotAssigned
  | AdjudicationWindowClosed
  | AlreadyVoted.

(** [submit_vote].  [None] stands for the [KeyError] of
    [self.dispute_votes[dispute_id]] on a dispute that is in flight without a
    vote list. *)
Definition submit_vote (self : ValidatorConsensus) (now : datetime)
    (dispute_id validator_hotkey : string) (verdict : Verdict) (confidence : Q)
    (reasoning : string)
    : option (ValidatorConsensus * (bool * option VoteMessage)) :=
  match active_disputes self !! dispute_id with
  | None => Some (self, (false, Some (VoteDisputeNotFound dispute_id)))
  | Some dispute_state =>
      if negb (bool_decide
                 (validator_hotkey ∈ DisputeState.assigned_validators dispute_state))
      then Some (self, (false, Some ValidatorNotAssigned))
      else if bool_decide (now > DisputeState.deadline dispute_state)%Z
      then Some (self, (false, Some AdjudicationWindowClosed))
      else
        match dispute_votes self !! dispute_id with
        | None => None
        | Some votes =>
            let existing :=
              List.filter
                (fun v => bool_decide (Vote.validator_hotkey v = validator_hotkey))
                votes in
            match existing with
            | _ :: _ => Some (self, (false, Some AlreadyVoted))
            | [] =>
                let vote := {|
                  Vote.validator_hotkey := validator_hotkey;
                  Vote.verdict := verdict;
                  Vote.confidence := py_min 1.0 (py_max 0.0 confidence);
                  Vote.reasoning := reasoning;
                  Vote.submitted_at := now
                |} in
                let validators1 :=
                  match validators self !! validator_hotkey with
                  | Some validator =>
                      <[validator_hotkey :=
                          ValidatorState.set_last_active now validator]>
                        (validators self)
                  | None => validators self
                  end in
                Some ({| validators := validators1;
                         active_disputes := active_disputes self;
                         dispute_votes :=
                           <[dispute_id := votes ++ [vote]]> (dispute_votes self);
                         epoch_start := epoch_start self |},
                      (true, None))
            end
        end
  end.

(** *** Tier promotion *)

Definition check_tier_promotion (self : ValidatorConsensus) (now : datetime)
    (hotkey : string) : ValidatorConsensus * option ValidatorTier :=
  match validators self !! hotkey with
  | None => (self, None)
  | Some validator =>
      let promote (tier : ValidatorTier) :=
        let validator1 := ValidatorState.set_tier tier validator in
        let validator2 := ValidatorState.set_tier_start_date now validator1 in
        ({| validators := <[hotkey := validator2]> (validators self);
            active_disputes := active_disputes self;
            dispute_votes := dispute_votes self;
            epoch_start := epoch_start self |},
         Some tier) in
      match ValidatorState.tier validator with
      | SCOUT =>
          let days_active :=
            timedelta_days now (ValidatorState.tier_start_date validator) in
          if bool_decide (days_active >= 30)%Z
             && Qle_bool 0.7 (ValidatorState.calibration_score validator)
             && bool_decide (ValidatorState.verdicts_submitted validator >= 50)%Z
             && Qle_bool (TierConfig.stake_required (TIER_CONFIG AUDITOR))
                  (ValidatorState.stake validator)
          then promote AUDITOR
          else (self, None)
      | AUDITOR =>
          let days_active :=
            timedelta_days now (ValidatorState.tier_start_date validator) in
          let recent_slashes :=
            List.filter (fun s => bool_decide (timedelta_days now s < 60)%Z)
              (ValidatorState.slashing_events validator) in
          if bool_decide (days_active >= 90)%Z
             && Qle_bool 0.85 (ValidatorState.calibration_score validator)
             && bool_decide (ValidatorState.verdicts_submitted validator >= 200)%Z
             && bool_decide (length recent_slashes = 0%nat)
             && Qle_bool (TierConfig.stake_required (TIER_CONFIG ARBITER))
                  (ValidatorState.stake validator)
          then promote ARBITER
          else (self, None)
      | ARBITER => (self, None)
      end
  end.

(** *** Calibration updates *)

Definition CALIBRATION_TIME_CONSTANT_DAYS : Q := 30.

Section WithExp.

(** [math.exp] is a library function; the development holds for every
    choice of it. *)
Variable exp : Q -> Q.

(** The loop of [_recalculate_calibration]: the weighted sum and the total
    weight. *)
Definition history_step (now : datetime) (acc : Q * Q) (entry : HistoryEntry.t)
    : Q * Q :=
  let '(weighted_sum, weight_total) := acc in
  let age_days := timedelta_days now (HistoryEntry.timestamp entry) in
  let weight := exp (inject_Z (- age_days) / CALIBRATION_TIME_CONSTANT_DAYS) in
  let score :=
    if HistoryEntry.correct entry then HistoryEntry.alignment entry
    else HistoryEntry.alignment entry * 0.5 in
  (weighted_sum + score * weight, weight_total + weight).

Definition _recalculate_calibration (now : datetime) (validator : ValidatorState.t)
    : ValidatorState.t :=
  match ValidatorState.verdict_history validator with
  | [] => validator
  | _ =>
      let '(weighted_sum, weight_total) :=
        foldl (history_step now) (0.0, 0.0) (ValidatorState.verdict_history validator) in
      if Qltb 0 weight_total then
        ValidatorState.set_calibration_score
          (py_min 1.5 (py_max 0.3 (weighted_sum / weight_total))) validator
      else validator
  end.

Definition _check_tier_status (now : datetime) (validator : ValidatorState.t)
    : ValidatorState.t :=
  let min_cal := TierConfig.min_calibration (TIER_CONFIG (ValidatorState.tier validator)) in
  if Qltb (ValidatorState.calibration_score validator) min_cal then
    let validator1 :=
      match ValidatorState.tier validator with
      | ARBITER => ValidatorState.set_tier AUDITOR validator
      | AUDITOR => ValidatorState.set_tier SCOUT validator
      | SCOUT => validator
      end in
    ValidatorState.set_tier_start_date now validator1
  else validator.

(** What [update_calibration] does to the validator it finds. *)
Definition updated_validator (now : datetime) (was_correct : bool) (confidence : Q)
    (validator : ValidatorState.t) : ValidatorState.t :=
  let validator :=
    ValidatorState.set_verdicts_submitted
      (ValidatorState.verdicts_submitted validator + 1)%Z validator in
  let validator :=
    if was_correct then
      ValidatorState.set_correct_verdicts
        (ValidatorState.correct_verdicts validator + 1)%Z validator
    else validator in
  let alignment :=
    if was_correct then 1 - Qabs (1.0 - confidence) else 1 - confidence in
  let validator :=
    ValidatorState.set_verdict_history
      (ValidatorState.verdict_history validator
         ++ [{| HistoryEntry.timestamp := now;
                HistoryEntry.correct := was_correct;
                HistoryEntry.confidence := confidence;
                HistoryEntry.alignment := alignment |}])
      validator in
  let validator := _recalculate_calibration now validator in
  _check_tier_status now validator.

Definition update_calibration (self : ValidatorConsensus) (now : datetime)
    (hotkey : string) (was_correct : bool) (confidence : Q) : ValidatorConsensus :=
  match validators self !! hotkey with
  | None => self
  | Some validator =>
      {| validators :=
           <[hotkey := updated_validator now was_correct confidence validator]>
             (validators self);
         active_disputes := active_disputes self;
         dispute_votes := dispute_votes self;
         epoch_start := epoch_start self |}
  end.

(** *** Escalation and finalization *)

(** [self.validators.values()]: the engine reads the resulting lists only
    through membership tests, so the order of enumeration is that of the
    map. *)
Definition validator_values (self : ValidatorConsensus) : list ValidatorState.t :=
  (map_to_list (validators self)).*2.

Definition available_arbiters (self : ValidatorConsensus) : list ValidatorState.t :=
  List.filter
    (fun v => bool_decide (ValidatorState.tier v = ARBITER)
              && ValidatorState.can_take_case v)
    (validator_values self).

(** [escalate_to_arbiters]; [list(arbiter_hotkeys)] enumerates a set. *)
Definition escalate_to_arbiters (self : ValidatorConsensus) (now : datetime)
    (dispute_id : string) : ValidatorConsensus * option ConsensusResult.t :=
  match active_disputes self !! dispute_id with
  | None => (self, None)
  | Some dispute_state =>
      let arbiters := available_arbiters self in
      match arbiters with
      | [] =>
          (self,
           ConsensusResult.set_escalated true <$> calculate_consensus self dispute_id)
      | _ =>
          let dispute_state1 := {|
            DisputeState.dispute := DisputeState.dispute dispute_state;
            DisputeState.assigned_validators := map ValidatorState.hotkey arbiters;
            DisputeState.deadline := (now + timedelta_hours ESCALATION_WINDOW_HOURS)%Z;
            DisputeState.escalated := true
          |} in
          let arbiter_hotkeys : gset string :=
            list_to_set (map ValidatorState.hotkey arbiters) in
          let kept :=
            List.filter
              (fun v => bool_decide (Vote.validator_hotkey v ∈ arbiter_hotkeys))
              (default [] (dispute_votes self !! dispute_id)) in
          ({| validators := validators self;
              active_disputes := <[dispute_id := dispute_state1]> (active_disputes self);
              dispute_votes := <[dispute_id := kept]> (dispute_votes self);
              epoch_start := epoch_start self |},
           Some {| ConsensusResult.dispute_id := dispute_id;
                   ConsensusResult.final_verdict := ABSTAIN;
                   ConsensusResult.weighted_score := 0.0;
                   ConsensusResult.total_weight := 0.0;
                   ConsensusResult.vote_breakdown := [];
                   ConsensusResult.participating_validators := elements arbiter_hotkeys;
                   ConsensusResult.escalated := true |})
      end
  end.

(** The loop of [finalize_dispute] over the votes. *)
Definition apply_calibration_updates (self : ValidatorConsensus) (now : datetime)
    (final_verdict : Verdict) (votes : list Vote.t) : ValidatorConsensus :=
  foldl (fun st vote =>
           let was_correct := bool_decide (Vote.verdict vote = final_verdict) in
           update_calibration st now (Vote.validator_hotkey vote) was_correct
             (Vote.confidence vote))
        self votes.

(** [finalize_dispute].  A tally that is not [None] means the dispute is in
    flight, so the lookup of its state succeeds. *)
Definition finalize_dispute (self : ValidatorConsensus) (now : datetime)
    (dispute_id : string) : ValidatorConsensus * option ConsensusResult.t :=
  match calculate_consensus self dispute_id with
  | None => (self, None)
  | Some result =>
      match active_disputes self !! dispute_id with
      | None => (self, None)
      | Some dispute_state =>
          if negb (ConsensusResult.consensus_reached result)
             && negb (DisputeState.escalated dispute_state)
          then escalate_to_arbiters self now dispute_id
          else
            let self1 :=
              apply_calibration_updates self now
                (ConsensusResult.final_verdict result)
                (default [] (dispute_votes self !! dispute_id)) in
            ({| validators := validators self1;
                active_disputes := delete dispute_id (active_disputes self1);
                dispute_votes := dispute_votes self1;
                epoch_start := epoch_start self1 |},
             Some result)
      end
  end.

End WithExp.

(** *** Dispute assignment *)

(** The exceptions [assign_dispute] can raise: a division by a zero sum, an
    index past the end of [available], and a selected identity that is not a
    key of the registry. *)
Inductive AssignError :=
  | ZeroDivisionError
  | IndexError
  | KeyError (hotkey : string).

(** [sum(xs)] *)
Definition py_sum (xs : list Q) : Q := foldl Qplus 0 xs.

(** The inner loop over [enumerate(normalized)]: the first position whose
    running sum reaches the draw [r]. *)
Fixpoint first_reached (r cumsum : Q) (i : nat) (normalized : list Q) : option nat :=
  match normalized with
  | [] => None
  | p :: rest =>
      let cumsum := cumsum + p in
      if Qle_bool r cumsum then Some i else first_reached r cumsum (S i) rest
  end.

(** One round of the selection loop on [(selected, available,
    available_probs)] with the draw [r] of [random.random()].  After the
    [break] on an empty [available] every later round breaks as well. *)
Definition select_round (r : Q)
    (st : list string * list ValidatorState.t * list Q)
    : AssignError + (list string * list ValidatorState.t * list Q) :=
  let '(selected, available, available_probs) := st in
  match available with
  | [] => inr st
  | _ =>
      let prob_sum := py_sum available_probs in
      match available_probs with
      | [] => inr st
      | _ =>
          if Qeq_bool prob_sum 0 then inl ZeroDivisionError
          else
            let normalized := map (fun p => p / prob_sum) available_probs in
            match first_reached r 0 0 normalized with
            | None => inr st
            | Some i =>
                match available !! i with
                | None => inl IndexError
                | Some v =>
                    inr (selected ++ [ValidatorState.hotkey v],
                         delete i available, delete i available_probs)
                end
            end
      end
  end.

(** The selection loop: [count] rounds, round [k] using the draw
    [draws k]. *)
Fixpoint select_loop (draws : nat -> Q) (k count : nat)
    (st : list string * list ValidatorState.t * list Q)
    : AssignError + (list string * list ValidatorState.t * list Q) :=
  match count with
  | O => inr st
  | S count' =>
      match select_round (draws k) st with
      | inl e => inl e
      | inr st' => select_loop draws (S k) count' st'
      end
  end.

(** The loop [self.validators[hotkey].cases_this_epoch += 1]. *)
Fixpoint count_cases (vs : gmap string ValidatorState.t) (selected : list string)
    : AssignError + gmap string ValidatorState.t :=
  match selected with
  | [] => inr vs
  | hotkey :: rest =>
      match vs !! hotkey with
      | None => inl (KeyError hotkey)
      | Some v =>
          count_cases
            (<[hotkey := ValidatorState.set_cases_this_epoch
                           (ValidatorState.cases_this_epoch v + 1)%Z v]> vs)
            rest
      end
  end.

Definition eligible_validators (self : ValidatorConsensus) : list ValidatorState.t :=
  List.filter
    (fun v => ValidatorState.can_take_case v
              && Qle_bool 0.5 (ValidatorState.calibration_score v))
    (validator_values self).

(** [assign_dispute]; the draws of [random.random()] are the argument
    [draws]. *)
Definition assign_dispute (self : ValidatorConsensus) (now : datetime)
    (draws : nat -> Q) (dispute_id : string) (dispute : DisputeForAdjudication.t)
    (num_validators : Z) : AssignError + (ValidatorConsensus * list string) :=
  let eligible := eligible_validators self in
  match eligible with
  | [] => inr (self, [])
  | _ =>
      let weights := map ValidatorState.effective_weight eligible in
      let total_weight := py_sum weights in
      if Qeq_bool total_weight 0 then inl ZeroDivisionError
      else
        let probabilities := map (fun w => w / total_weight) weights in
        let count :=
          Z.to_nat (Z.min num_validators (Z.of_nat (length eligible))) in
        match select_loop draws 0 count ([], eligible, probabilities) with
        | inl e => inl e
        | inr (selected, _, _) =>
            match count_cases (validators self) selected with
            | inl e => inl e
            | inr validators1 =>
                inr ({| validators := validators1;
                        active_disputes :=
                          <[dispute_id :=
                              {| DisputeState.dispute := dispute;
                                 DisputeState.assigned_validators := selected;
                                 DisputeState.deadline :=
                                   (now + timedelta_hours ADJUDICATION_WINDOW_HOURS)%Z;
                                 DisputeState.escalated := false |}]>
                            (active_disputes self);
                        dispute_votes := <[dispute_id := []]> (dispute_votes self);
                        epoch_start := epoch_start self |},
                     selected)
            end
        end
  end.

(** *** The tally in the specification's words *)

(** The weight a vote carries: the voter's effective weight times the
    vote's confidence; a vote of an unregistered voter carries none. *)
Definition vote_weight (vs : gmap string ValidatorState.t) (vote : Vote.t) : Q :=
  match vs !! Vote.validator_hotkey vote with
  | Some validator => ValidatorState.effective_weight validator * Vote.confidence vote
  | None => 0
  end.

(** The sum of the weights of the votes for verdict [v]. *)
Fixpoint tally (vs : gmap string ValidatorState.t) (votes : list Vote.t)
    (v : Verdict) : Q :=
  match votes with
  | [] => 0
  | vote :: rest =>
      (if bool_decide (Vote.verdict vote = v) then vote_weight vs vote else 0)
      + tally vs rest v
  end.

Definition total (vs : gmap string ValidatorState.t) (votes : list Vote.t) : Q :=
  tally vs votes CHALLENGE_UPHELD + tally vs votes CHALLENGE_REJECTED
  + tally vs votes PARTIAL + tally vs votes ABSTAIN.

Definition share (vs : gmap string ValidatorState.t) (votes : list Vote.t)
    (v : Verdict) : Q :=
  tally vs votes v / total vs votes.

(** *** Shorthands of the statements *)

(** Position of a tier, scout lowest. *)
Definition tier_rank (tier : ValidatorTier) : nat :=
  match tier with SCOUT => 0 | AUDITOR => 1 | ARBITER => 2 end.

(** What the registry keeps true of the validator stored under [key]: it
    carries its own key, its stake reaches the minimum of its tier, its score
    is within [0.3, 1.5], and it has no more correct verdicts than
    verdicts. *)
Definition sound_validator (key : string) (v : ValidatorState.t) : Prop :=
  ValidatorState.hotkey v = key
  /\ TierConfig.stake_required (TIER_CONFIG (ValidatorState.tier v))
     <= ValidatorState.stake v
  /\ 0.3 <= ValidatorState.calibration_score v <= 1.5
  /\ (0 <= ValidatorState.correct_verdicts v <= ValidatorState.verdicts_submitted v)%Z.

Definition sound_registry (vs : gmap string ValidatorState.t) : Prop :=
  forall key v, vs !! key = Some v -> sound_validator key v.

(** What the engine keeps true of the votes of a dispute in flight: they
    are cast by assigned validators, one per validator, with a confidence
    within [0, 1]. *)
Definition sound_votes (self : ValidatorConsensus) : Prop :=
  forall dispute_id dispute_state votes,
    active_disputes self !! dispute_id = Some dispute_state ->
    dispute_votes self !! dispute_id = Some votes ->
    NoDup (map Vote.validator_hotkey votes)
    /\ forall vote, vote ∈ votes ->
         Vote.validator_hotkey vote ∈ DisputeState.assigned_validators dispute_state
         /\ 0 <= Vote.confidence vote <= 1.

(** A validator with one more case in the epoch. *)
Definition bump_cases (v : ValidatorState.t) : ValidatorState.t :=
  ValidatorState.set_cases_this_epoch (ValidatorState.cases_this_epoch v + 1)%Z v.

(** A history entry whose alignment is within [0, 1]. *)
Definition aligned (entry : HistoryEntry.t) : Prop :=
  0 <= HistoryEntry.alignment entry <= 1.

(** The amount one sweep subtracts from a validator inactive for [days]. *)
Definition decay_of (days : Z) : Q :=
  CALIBRATION_DECAY_PER_EPOCH * inject_Z (days / 7).

(** The dictionary of per-verdict weights always has the four verdicts as
    keys, in declaration order. *)
Definition weights_of (a b c d : Q) : list (Verdict * Q) :=
  [(CHALLENGE_UPHELD, a); (CHALLENGE_REJECTED, b); (PARTIAL, c); (ABSTAIN, d)].

(** What a vote for [k] of weight [w] adds to the entry of [v]. *)
Definition contribution (k v : Verdict) (w : Q) : Q :=
  if bool_decide (k = v) then w else 0.

(** The entry of a four-verdict dictionary. *)
Definition entry (a b c d : Q) (v : Verdict) : Q :=
  match v with
  | CHALLENGE_UPHELD => a
  | CHALLENGE_REJECTED => b
  | PARTIAL => c
  | ABSTAIN => d
  end.

(** Position in the declaration of [Verdict]. *)
Definition declaration_order (v : Verdict) : nat :=
  match v with
  | CHALLENGE_UPHELD => 0
  | CHALLENGE_REJECTED => 1
  | PARTIAL => 2
  | ABSTAIN => 3
  end.

End Consensus.

(* ===================================================================== *)
(** ** neurons/validator.py and neurons/proposer.py: the pure helpers *)
(* ===================================================================== *)

Module Neurons.

Local Open Scope Q_scope.

(** The messages of [_validate_tree]. *)
Inductive TreeMessage :=
  | NoMerkleCommitment
  | StakeBelowTen (stake : Q)
  | InvalidChildReference (child_id : string).

(** The nested loops of [_validate_tree]: the first child identifier that
    is not a node identifier. *)
Fixpoint first_invalid_child (node_ids : list string) (children : list string)
    : option string :=
  match children with
  | [] => None
  | child_id :: rest =>
      if bool_decide (child_id ∈ node_ids) then first_invalid_child node_ids rest
      else Some child_id
  end.

Fixpoint first_invalid_reference (node_ids : list string)
    (all_nodes : list ReasoningNode.t) : option string :=
  match all_nodes with
  | [] => None
  | node :: rest =>
      match first_invalid_child node_ids (ReasoningNode.children node) with
      | Some child_id => Some child_id
      | None => first_invalid_reference node_ids rest
      end
  end.

(** [ValidatorNeuron._validate_tree].  The root is a required field, so the
    test [not tree.root] never fires; the set [node_ids] is only tested for
    membership. *)
Definition _validate_tree (tree : ReasoningTree.t) : bool * option TreeMessage :=
  if bool_decide (ReasoningTree.merkle_root tree = "") then
    (false, Some NoMerkleCommitment)
  else if Qltb (ReasoningTree.stake tree) 10 then
    (false, Some (StakeBelowTen (ReasoningTree.stake tree)))
  else
    let node_ids :=
      ReasoningNode.id (ReasoningTree.root tree)
        :: map ReasoningNode.id (ReasoningTree.nodes tree) in
    match first_invalid_reference node_ids
            (ReasoningTree.root tree :: ReasoningTree.nodes tree) with
    | Some child_id => (false, Some (InvalidChildReference child_id))
    | None => (true, None)
    end.

(** [ProposerNeuron._find_node]. *)
Definition _find_node (tree : ReasoningTree.t) (node_id : string)
    : option ReasoningNode.t :=
  if bool_decide (ReasoningNode.id (ReasoningTree.root tree) = node_id) then
    Some (ReasoningTree.root tree)
  else
    List.find (fun node => bool_decide (ReasoningNode.id node = node_id))
      (ReasoningTree.nodes tree).

Section WithHash.

Variable sha256_hexdigest : string -> string.
Variable json_dumps : ReasoningNode.t -> string.

(** [ValidatorNeuron._verify_merkle]: rebuild on a fresh tree and compare.
    [None] only if the build does not return. *)
Definition _verify_merkle (tree : ReasoningTree.t) : option bool :=
  let merkle_tree := Merkle.init in
  let all_nodes := ReasoningTree.root tree :: ReasoningTree.nodes tree in
  match Merkle.build_from_reasoning_tree sha256_hexdigest json_dumps
          merkle_tree all_nodes with
  | Some (_, computed_root) =>
      Some (bool_decide (computed_root = ReasoningTree.merkle_root tree))
  | None => None
  end.

End WithHash.

Section WithExp.

Variable exp : Q -> Q.

(** The body of the second loop of [ValidatorNeuron.finalize_disputes] for
    one pending dispute, on the challenge manager and the consensus engine of
    the neuron.  Logging and the announcement change neither. *)
Definition finalize_step (now : datetime)
    (st : Challenge.ChallengeManager * Consensus.ValidatorConsensus)
    (dispute : Challenge.Dispute.t)
    : Challenge.ChallengeManager * Consensus.ValidatorConsensus :=
  let '(challenge_manager, consensus) := st in
  let dispute_id := Challenge.Dispute.dispute_id dispute in
  let '(consensus1, result) :=
    Consensus.finalize_dispute exp consensus now dispute_id in
  match result with
  | Some result =>
      if Consensus.ConsensusResult.consensus_reached result then
        ((Challenge.resolve_dispute challenge_manager now dispute_id
            (Consensus.ConsensusResult.final_verdict result)
            (Consensus.ConsensusResult.weighted_score result)).1,
         consensus1)
      else (challenge_manager, consensus1)
  | None => (challenge_manager, consensus1)
  end.

(** [ValidatorNeuron.finalize_disputes]: the sweep of expired defenses, then
    the loop over the disputes pending adjudication after the sweep. *)
Definition finalize_disputes (now : datetime)
    (st : Challenge.ChallengeManager * Consensus.ValidatorConsensus)
    : Challenge.ChallengeManager * Consensus.ValidatorConsensus :=
  let '(challenge_manager, consensus) := st in
  let '(challenge_manager1, expired) :=
    Challenge.check_expired_defenses challenge_manager now in
  let pending := Challenge.get_pending_adjudication challenge_manager1 in
  foldl (finalize_step now) (challenge_manager1, consensus) pending.

(** What one step and one round keep true, relative to the table [table0]
    the loop started from. *)
Definition round_invariant (now : datetime) (table0 : list (string * Challenge.Dispute.t))
    (self0 self : Challenge.ChallengeManager) : Prop :=
  Challenge.tree_challenges self = Challenge.tree_challenges self0
  /\ Challenge.dispute_counter self = Challenge.dispute_counter self0
  /\ PyDict.keys (Challenge.disputes self) = PyDict.keys table0.

(** The state of the loop of [finalize_disputes] when it reaches the [k]-th
    pending dispute. *)
Definition state_at (now : datetime)
    (st : Challenge.ChallengeManager * Consensus.ValidatorConsensus)
    (pending : list Challenge.Dispute.t) (k : nat)
    : Challenge.ChallengeManager * Consensus.ValidatorConsensus :=
  foldl (finalize_step now) st (take k pending).

(** The table entry under [dispute_id] is what the [k]-th iteration of the
    loop stored: the tally of the engine as it then was reached consensus,
    and the entry then in the table was resolved with the verdict and the
    score of that tally. *)
Definition resolved_by_iteration (now : datetime)
    (st : Challenge.ChallengeManager * Consensus.ValidatorConsensus)
    (pending : list Challenge.Dispute.t) (dispute_id : string)
    (entry : option Challenge.Dispute.t) (k : nat) : Prop :=
  exists dispute r d,
    pending !! k = Some dispute
    /\ Challenge.Dispute.dispute_id dispute = dispute_id
    /\ Consensus.calculate_consensus (state_at now st pending k).2 dispute_id = Some r
    /\ Consensus.ConsensusResult.consensus_reached r = true
    /\ PyDict.get dispute_id (Challenge.disputes (state_at now st pending k).1) = Some d
    /\ entry
       = Some (Challenge.resolved_with now
                 (Consensus.ConsensusResult.final_verdict r)
                 (Consensus.ConsensusResult.weighted_score r) d).

(** Successive rounds of the main loop, one per instant. *)
Definition finalize_rounds (instants : list datetime)
    (st : Challenge.ChallengeManager * Consensus.ValidatorConsensus)
    : Challenge.ChallengeManager * Consensus.ValidatorConsensus :=
  foldl (fun st now => finalize_disputes now st) st instants.

End WithExp.

End Neurons.

(* ===================================================================== *)
(** ** challenge.py and consensus.py over binary64 *)
(* ===================================================================== *)

(** The sweep of expired defenses, challenge validation and the tally, with
    every [float] a binary64 number and every operation the correctly rounded one, in the
    order the source evaluates them.  A decimal literal stands for the
    double nearest to it, as in Python. *)
Module Binary64.
Import PrimFloat.

Local Open Scope float_scope.

(** [max(a, b)] and [min(a, b)]: the second argument is taken only when the
    comparison [b > a], [b < a] holds. *)
Definition py_max (a b : float) : float := if a <? b then b else a.
Definition py_min (a b : float) : float := if b <? a then b else a.

(** The rational a finite double stands for; [0] for the others. *)
Definition exact (x : float) : Q :=
  match FloatOps.Prim2SF x with
  | SpecFloat.S754_finite s m e =>
      ((if s then -1 else 1) * inject_Z (Z.pos m) * Qpower 2 e)%Q
  | _ => 0%Q
  end.

(** *** challenge.py *)

Definition PROPOSER_SLASH_RATE : float := 0.30.

Definition ATTACK_MULTIPLIERS (a : AttackType) : float :=
  match a with
  | FACTUAL_ERROR => 2.0
  | LOGICAL_FALLACY => 2.5
  | MISSING_CONTEXT => 1.5
  | CONTRADICTION => 3.0
  | OUTDATED => 1.5
  end.

Module Dispute.
Record t := {
  dispute_id : string;
  task_id : string;
  target_node_id : string;
  proposer_hotkey : string;
  challenger_hotkey : string;
  proposer_stake : float;
  challenger_stake : float;
  attack_type : AttackType;
  challenge_argument : string;
  challenge_evidence : option Evidence.t;
  defense : option DefenseSubmission.t;
  defense_deadline : option datetime;
  status : Challenge.DisputeStatus;
  verdict : option Verdict;
  created_at : datetime;
  resolved_at : option datetime;
  proposer_payout : float;
  challenger_payout : float;
  proposer_reputation_delta : float;
  challenger_reputation_delta : float
}.

Definition set_status (x : Challenge.DisputeStatus) (d : t) : t :=
  let '(Build_t a1 a2 a3 a4 a5 a6 a7 a8 a9 a10 a11 a12 _ a14 a15 a16 a17 a18 a19 a20) := d in
  Build_t a1 a2 a3 a4 a5 a6 a7 a8 a9 a10 a11 a12 x a14 a15 a16 a17 a18 a19 a20.
Definition set_verdict (x : option Verdict) (d : t) : t :=
  let '(Build_t a1 a2 a3 a4 a5 a6 a7 a8 a9 a10 a11 a12 a13 _ a15 a16 a17 a18 a19 a20) := d in
  Build_t a1 a2 a3 a4 a5 a6 a7 a8 a9 a10 a11 a12 a13 x a15 a16 a17 a18 a19 a20.
Definition set_resolved_at (x : option datetime) (d : t) : t :=
  let '(Build_t a1 a2 a3 a4 a5 a6 a7 a8 a9 a10 a11 a12 a13 a14 a15 _ a17 a18 a19 a20) := d in
  Build_t a1 a2 a3 a4 a5 a6 a7 a8 a9 a10 a11 a12 a13 a14 a15 x a17 a18 a19 a20.
Definition set_proposer_payout (x : float) (d : t) : t :=
  let '(Build_t a1 a2 a3 a4 a5 a6 a7 a8 a9 a10 a11 a12 a13 a14 a15 a16 _ a18 a19 a20) := d in
  Build_t a1 a2 a3 a4 a5 a6 a7 a8 a9 a10 a11 a12 a13 a14 a15 a16 x a18 a19 a20.
Definition set_challenger_payout (x : float) (d : t) : t :=
  let '(Build_t a1 a2 a3 a4 a5 a6 a7 a8 a9 a10 a11 a12 a13 a14 a15 a16 a17 _ a19 a20) := d in
  Build_t a1 a2 a3 a4 a5 a6 a7 a8 a9 a10 a11 a12 a13 a14 a15 a16 a17 x a19 a20.
Definition set_proposer_reputation_delta (x : float) (d : t) : t :=
  let '(Build_t a1 a2 a3 a4 a5 a6 a7 a8 a9 a10 a11 a12 a13 a14 a15 a16 a17 a18 _ a20) := d in
  Build_t a1 a2 a3 a4 a5 a6 a7 a8 a9 a10 a11 a12 a13 a14 a15 a16 a17 a18 x a20.
Definition set_challenger_reputation_delta (x : float) (d : t) : t :=
  let '(Build_t a1 a2 a3 a4 a5 a6 a7 a8 a9 a10 a11 a12 a13 a14 a15 a16 a17 a18 a19 _) := d in
  Build_t a1 a2 a3 a4 a5 a6 a7 a8 a9 a10 a11 a12 a13 a14 a15 a16 a17 a18 a19 x.
End Dispute.

Record ChallengeManager := {
  disputes : list (string * Dispute.t);
  tree_challenges : gmap string (list string);
  dispute_counter : Z
}.

(** [_resolve_no_defense]; [resolved_at] takes the clock reading of the
    sweep that calls it. *)
Definition _resolve_no_defense (now : datetime) (dispute : Dispute.t) : Dispute.t :=
  let dispute := Dispute.set_status Challenge.RESOLVED dispute in
  let dispute := Dispute.set_verdict (Some CHALLENGE_UPHELD) dispute in
  let dispute := Dispute.set_resolved_at (Some now) dispute in
  let multiplier := ATTACK_MULTIPLIERS (Dispute.attack_type dispute) in
  let base_reward := Dispute.challenger_stake dispute * multiplier in
  let proposer_slash :=
    py_min (Dispute.proposer_stake dispute * (PROPOSER_SLASH_RATE * 1.5))
           (Dispute.proposer_stake dispute) in
  let dispute := Dispute.set_challenger_payout (base_reward + proposer_slash) dispute in
  let dispute := Dispute.set_proposer_payout (- proposer_slash) dispute in
  let dispute := Dispute.set_proposer_reputation_delta (- 0.15) dispute in
  Dispute.set_challenger_reputation_delta 0.05 dispute.

(** The test of the sweep: pending defense, a deadline, and [now] past it. *)
Definition defense_expired (now : datetime) (dispute : Dispute.t) : bool :=
  bool_decide (Dispute.status dispute = Challenge.PENDING_DEFENSE)
  && match Dispute.defense_deadline dispute with
     | Some deadline => bool_decide (now > deadline)%Z
     | None => false
     end.

(** The loop of [check_expired_defenses] over [self.disputes.items()]. *)
Fixpoint expire_items (now : datetime) (items : list (string * Dispute.t))
    : list (string * Dispute.t) * list string :=
  match items with
  | [] => ([], [])
  | (dispute_id, dispute) :: rest =>
      let '(rest', expired) := expire_items now rest in
      if defense_expired now dispute
      then ((dispute_id, _resolve_no_defense now dispute) :: rest', dispute_id :: expired)
      else ((dispute_id, dispute) :: rest', expired)
  end.

Definition check_expired_defenses (self : ChallengeManager) (now : datetime)
    : ChallengeManager * list string :=
  let '(disputes', expired) := expire_items now (disputes self) in
  ({| disputes := disputes';
      tree_challenges := tree_challenges self;
      dispute_counter := dispute_counter self |},
   expired).

(** The sweep's criterion in the specification's words: pending defense and
    a deadline strictly before [now]. *)
Definition deadline_passed (now : datetime) (d : Dispute.t) : Prop :=
  Dispute.status d = Challenge.PENDING_DEFENSE
  /\ match Dispute.defense_deadline d with
     | Some deadline => (deadline < now)%Z
     | None => False
     end.

Global Instance deadline_passed_dec now d : Decision (deadline_passed now d).
Proof.
  unfold deadline_passed. destruct (Dispute.defense_deadline d); apply _.
Defined.



(** *** challenge.py: [validate_challenge] *)

Definition MIN_CHALLENGE_STAKE_RATIO : float := 0.1.

(** [submitted_at] is the optional ISO string of the source. *)
Module ReasoningTree.
Record t := {
  task_id : string;
  root : ReasoningNode.t;
  nodes : list ReasoningNode.t;
  merkle_root : string;
  stake : float;
  proposer_hotkey : string;
  submitted_at : option string
}.
End ReasoningTree.

Module ChallengeSubmission.
Record t := {
  task_id : string;
  target_node : string;
  attack_type : AttackType;
  argument : string;
  evidence : option Evidence.t;
  stake : float;
  challenger_hotkey : string;
  accepted : option bool;
  dispute_id : option string
}.
End ChallengeSubmission.

(** The messages of [validate_challenge], with the values their f-strings
    interpolate. *)
Inductive Message :=
  | TargetNodeNotFound (target_node : string)
  | StakeBelowMinimum (stake min_stake : float)
  | ChallengeWindowClosed
  | AlreadyActiveChallenge (target_node : string).

(** What [datetime.fromisoformat] makes of a string: a [ValueError], an
    instant without offset, or an instant with one. *)
Inductive Parsed :=
  | Invalid
  | Naive (d : datetime)
  | Aware (d : datetime).

(** The loop over [task_disputes]: some listed dispute that is in the table
    targets the node and is not resolved. *)
Fixpoint has_active_challenge (ds : list (string * Dispute.t)) (target_node : string)
    (task_disputes : list string) : bool :=
  match task_disputes with
  | [] => false
  | dispute_id :: rest =>
      match PyDict.get dispute_id ds with
      | Some dispute =>
          if bool_decide (Dispute.target_node_id dispute = target_node)
             && negb (bool_decide (Dispute.status dispute = Challenge.RESOLVED))
          then true
          else has_active_challenge ds target_node rest
      | None => has_active_challenge ds target_node rest
      end
  end.

Section WithClock.

(** [datetime.fromisoformat] and [datetime.max] are the library's. *)
Variable fromisoformat : string -> Parsed.
Variable datetime_max : datetime.

(** The window check of [validate_challenge]: whether the window has closed.
    A [submitted_at] that is [None] or empty is falsy and skips the check;
    the sum [submitted + timedelta(hours=6)] raises [OverflowError] past
    [datetime.max]; comparing [datetime.utcnow()], which has no offset, with
    an instant that has one raises [TypeError]. *)
Definition window_closed (now : datetime) (tree : ReasoningTree.t) : Outcome bool :=
  match ReasoningTree.submitted_at tree with
  | None => Return false
  | Some s =>
      if bool_decide (s = "") then Return false
      else
        match fromisoformat s with
        | Invalid => Raise ValueError
        | Naive submitted =>
            let window_end :=
              (submitted + timedelta_hours Challenge.CHALLENGE_WINDOW_HOURS)%Z in
            if bool_decide (window_end > datetime_max)%Z then Raise OverflowError
            else Return (bool_decide (now > window_end)%Z)
        | Aware submitted =>
            let window_end :=
              (submitted + timedelta_hours Challenge.CHALLENGE_WINDOW_HOURS)%Z in
            if bool_decide (window_end > datetime_max)%Z then Raise OverflowError
            else Raise TypeError
        end
  end.

Definition validate_challenge (self : ChallengeManager) (now : datetime)
    (challenge : ChallengeSubmission.t) (tree : ReasoningTree.t)
    : Outcome (bool * option Message) :=
  let node_ids :=
    ReasoningNode.id (ReasoningTree.root tree)
      :: map ReasoningNode.id (ReasoningTree.nodes tree) in
  if negb (bool_decide (ChallengeSubmission.target_node challenge ∈ node_ids)) then
    Return (false, Some (TargetNodeNotFound (ChallengeSubmission.target_node challenge)))
  else
    let min_stake := ReasoningTree.stake tree * MIN_CHALLENGE_STAKE_RATIO in
    if ChallengeSubmission.stake challenge <? min_stake then
      Return (false,
              Some (StakeBelowMinimum (ChallengeSubmission.stake challenge) min_stake))
    else
      match window_closed now tree with
      | Raise e => Raise e
      | Return true => Return (false, Some ChallengeWindowClosed)
      | Return false =>
          let task_disputes :=
            default [] (tree_challenges self !! ReasoningTree.task_id tree) in
          if has_active_challenge (disputes self)
               (ChallengeSubmission.target_node challenge) task_disputes
          then Return (false,
                       Some (AlreadyActiveChallenge
                               (ChallengeSubmission.target_node challenge)))
          else Return (true, None)
      end.

End WithClock.

(** No listed dispute of the task targets the node and is unresolved. *)
Definition no_active_challenge (self : ChallengeManager) (task_id target_node : string)
    : Prop :=
  forall dispute_id d,
    dispute_id ∈ default [] (tree_challenges self !! task_id) ->
    PyDict.get dispute_id (disputes self) = Some d ->
    Dispute.target_node_id d = target_node ->
    Dispute.status d = Challenge.RESOLVED.

(** *** consensus.py *)

Definition CONSENSUS_THRESHOLD : float := 0.6.

(** [TIER_CONFIG[tier]["weight_multiplier"]] *)
Definition weight_multiplier (tier : Consensus.ValidatorTier) : float :=
  match tier with
  | Consensus.SCOUT => 1.0
  | Consensus.AUDITOR => 2.0
  | Consensus.ARBITER => 5.0
  end.

Module HistoryEntry.
Record t := {
  timestamp : datetime;
  correct : bool;
  confidence : float;
  alignment : float
}.
End HistoryEntry.

Module ValidatorState.
Record t := {
  hotkey : string;
  tier : Consensus.ValidatorTier;
  stake : float;
  calibration_score : float;
  verdicts_submitted : Z;
  correct_verdicts : Z;
  cases_this_epoch : Z;
  last_active : datetime;
  tier_start_date : datetime;
  slashing_events : list datetime;
  verdict_history : list HistoryEntry.t
}.

Definition effective_weight (self : t) : float :=
  let tier_mult := weight_multiplier (tier self) in
  stake self * calibration_score self * tier_mult.
End ValidatorState.

Module Vote.
Record t := {
  validator_hotkey : string;
  verdict : Verdict;
  confidence : float;
  reasoning : string;
  submitted_at : datetime
}.
End Vote.

Module ConsensusResult.
Record t := {
  dispute_id : string;
  final_verdict : Verdict;
  weighted_score : float;
  total_weight : float;
  vote_breakdown : list (Verdict * float);
  participating_validators : list string;
  escalated : bool
}.

(** [self.weighted_score >= CONSENSUS_THRESHOLD] *)
Definition consensus_reached (self : t) : bool :=
  CONSENSUS_THRESHOLD <=? weighted_score self.
End ConsensusResult.

Record ValidatorConsensus := {
  validators : gmap string ValidatorState.t;
  active_disputes : gmap string Consensus.DisputeState.t;
  dispute_votes : gmap string (list Vote.t);
  epoch_start : datetime
}.

(** [{v: 0.0 for v in Verdict}] *)
Definition zero_weights : list (Verdict * float) :=
  [(CHALLENGE_UPHELD, 0.0); (CHALLENGE_REJECTED, 0.0); (PARTIAL, 0.0); (ABSTAIN, 0.0)].

(** [verdict_weights[k] += w] on a dictionary that has the key. *)
Fixpoint add_weight (k : Verdict) (w : float) (d : list (Verdict * float))
    : list (Verdict * float) :=
  match d with
  | [] => []
  | (k', x) :: rest =>
      if bool_decide (k' = k) then (k', x + w) :: rest else (k', x) :: add_weight k w rest
  end.

(** The loop over [votes]; a vote whose validator is not registered is
    skipped. *)
Definition tally_vote (vs : gmap string ValidatorState.t)
    (acc : list (Verdict * float) * float) (vote : Vote.t)
    : list (Verdict * float) * float :=
  let '(verdict_weights, total_weight) := acc in
  match vs !! Vote.validator_hotkey vote with
  | None => acc
  | Some validator =>
      let weight := ValidatorState.effective_weight validator * Vote.confidence vote in
      (add_weight (Vote.verdict vote) weight verdict_weights, total_weight + weight)
  end.

(** [max(items, key=lambda x: x[1])]: an item replaces the running maximum
    only when its key compares greater. *)
Fixpoint max_from (best : Verdict * float) (items : list (Verdict * float))
    : Verdict * float :=
  match items with
  | [] => best
  | x :: rest => max_from (if snd best <? snd x then x else best) rest
  end.

Definition max_by_weight (items : list (Verdict * float)) : option (Verdict * float) :=
  match items with
  | [] => None
  | x :: rest => Some (max_from x rest)
  end.

Definition calculate_consensus (self : ValidatorConsensus) (dispute_id : string)
    : option ConsensusResult.t :=
  match active_disputes self !! dispute_id with
  | None => None
  | Some _ =>
      let votes := default [] (dispute_votes self !! dispute_id) in
      match votes with
      | [] =>
          Some {| ConsensusResult.dispute_id := dispute_id;
                  ConsensusResult.final_verdict := ABSTAIN;
                  ConsensusResult.weighted_score := 0.0;
                  ConsensusResult.total_weight := 0.0;
                  ConsensusResult.vote_breakdown := [];
                  ConsensusResult.participating_validators := [];
                  ConsensusResult.escalated := false |}
      | _ =>
          let '(verdict_weights, total_weight) :=
            foldl (tally_vote (validators self)) (zero_weights, 0.0) votes in
          if total_weight =? 0 then
            Some {| ConsensusResult.dispute_id := dispute_id;
                    ConsensusResult.final_verdict := ABSTAIN;
                    ConsensusResult.weighted_score := 0.0;
                    ConsensusResult.total_weight := 0.0;
                    ConsensusResult.vote_breakdown := verdict_weights;
                    ConsensusResult.participating_validators :=
                      map Vote.validator_hotkey votes;
                    ConsensusResult.escalated := false |}
          else
            let vote_breakdown :=
              map (fun '(k, v) => (k, v / total_weight)) verdict_weights in
            match max_by_weight vote_breakdown with
            | None => None
            | Some winner =>
                Some {| ConsensusResult.dispute_id := dispute_id;
                        ConsensusResult.final_verdict := fst winner;
                        ConsensusResult.weighted_score := snd winner;
                        ConsensusResult.total_weight := total_weight;
                        ConsensusResult.vote_breakdown := vote_breakdown;
                        ConsensusResult.participating_validators :=
                          map Vote.validator_hotkey votes;
                        ConsensusResult.escalated := false |}
            end
      end
  end.

(** *** The tally in the specification's words, in binary64 *)

(** The weight a vote carries; none for an unregistered voter. *)
Definition vote_weight (vs : gmap string ValidatorState.t) (vote : Vote.t)
    : option float :=
  match vs !! Vote.validator_hotkey vote with
  | Some validator =>
      Some (ValidatorState.effective_weight validator * Vote.confidence vote)
  | None => None
  end.

(** The weights of the votes for verdict [v], added to [acc] one after the
    other in vote order. *)
Definition tally_from (vs : gmap string ValidatorState.t) (v : Verdict) (acc : float)
    (votes : list Vote.t) : float :=
  foldl (fun acc vote =>
           match vote_weight vs vote with
           | Some w => if bool_decide (Vote.verdict vote = v) then acc + w else acc
           | None => acc
           end) acc votes.

Definition tally (vs : gmap string ValidatorState.t) (votes : list Vote.t)
    (v : Verdict) : float :=
  tally_from vs v 0.0 votes.

(** The weights of all votes, added in vote order. *)
Definition total_from (vs : gmap string ValidatorState.t) (acc : float)
    (votes : list Vote.t) : float :=
  foldl (fun acc vote =>
           match vote_weight vs vote with
           | Some w => acc + w
           | None => acc
           end) acc votes.

Definition total (vs : gmap string ValidatorState.t) (votes : list Vote.t) : float :=
  total_from vs 0.0 votes.

(** The computed share: the quotient of two doubles, rounded. *)
Definition share (vs : gmap string ValidatorState.t) (votes : list Vote.t)
    (v : Verdict) : float :=
  tally vs votes v / total vs votes.

(** The share in exact arithmetic, on the rationals the doubles stand
    for. *)
Definition exact_weight (vs : gmap string ValidatorState.t) (vote : Vote.t) : Q :=
  match vs !! Vote.validator_hotkey vote with
  | Some validator =>
      (exact (ValidatorState.stake validator)
       * exact (ValidatorState.calibration_score validator)
       * exact (weight_multiplier (ValidatorState.tier validator))
       * exact (Vote.confidence vote))%Q
  | None => 0%Q
  end.

Fixpoint exact_tally (vs : gmap string ValidatorState.t) (votes : list Vote.t)
    (v : Verdict) : Q :=
  match votes with
  | [] => 0%Q
  | vote :: rest =>
      ((if bool_decide (Vote.verdict vote = v) then exact_weight vs vote else 0)
       + exact_tally vs rest v)%Q
  end.

Definition exact_total (vs : gmap string ValidatorState.t) (votes : list Vote.t) : Q :=
  (exact_tally vs votes CHALLENGE_UPHELD + exact_tally vs votes CHALLENGE_REJECTED
   + exact_tally vs votes PARTIAL + exact_tally vs votes ABSTAIN)%Q.

Definition exact_share (vs : gmap string ValidatorState.t) (votes : list Vote.t)
    (v : Verdict) : Q :=
  (exact_tally vs votes v / exact_total vs votes)%Q.

(** *** Shorthands of the statements *)

Definition weights_of (a b c d : float) : list (Verdict * float) :=
  [(CHALLENGE_UPHELD, a); (CHALLENGE_REJECTED, b); (PARTIAL, c); (ABSTAIN, d)].

(** The order of the non-NaN doubles, read off their sign, exponent and
    mantissa: negative infinity, the negative numbers, the zeros, the
    positive numbers, positive infinity. *)
Definition key (x : SpecFloat.spec_float) : Z * Z * Z :=
  match x with
  | SpecFloat.S754_zero _ => (0, 0, 0)%Z
  | SpecFloat.S754_infinity false => (2, 0, 0)%Z
  | SpecFloat.S754_infinity true => (-2, 0, 0)%Z
  | SpecFloat.S754_nan => (0, 0, 0)%Z
  | SpecFloat.S754_finite false m e => (1, e, Z.pos m)%Z
  | SpecFloat.S754_finite true m e => (-1, - e, - Z.pos m)%Z
  end.

Definition lex_lt (k1 k2 : Z * Z * Z) : Prop :=
  (k1.1.1 < k2.1.1
   \/ (k1.1.1 = k2.1.1
       /\ (k1.1.2 < k2.1.2 \/ (k1.1.2 = k2.1.2 /\ k1.2 < k2.2))))%Z.

End Binary64.

(* ===================================================================== *)
(** * Concrete inputs *)
(* ===================================================================== *)

Module MerkleSamples.
Import Merkle.

(** Stand-ins for the library functions, used only to run the code on
    concrete inputs: the identity as digest and a serialisation that keeps
    the identifier and the claim. *)
Definition toy_digest (s : string) : string := s.
Definition toy_dumps (node : ReasoningNode.t) : string :=
  ReasoningNode.id node +:+ ":" +:+ ReasoningNode.claim node +:+ ";".


(** A digest of one character, under which strings collide. *)
Definition first_char_digest (s : string) : string :=
  match s with
  | String c _ => String c EmptyString
  | EmptyString => EmptyString
  end.

Definition mk_node (i c : string) : ReasoningNode.t :=
  {| ReasoningNode.id := i; ReasoningNode.claim := c;
     ReasoningNode.node_type := PREMISE; ReasoningNode.evidence := None;
     ReasoningNode.children := []; ReasoningNode.merkle_hash := None |}.

Definition n0 := mk_node "n0" "a".
Definition n1 := mk_node "n1" "b".
Definition n2 := mk_node "n2" "c".

(** The tree object after a build over [n0] alone. *)
Definition built_once : ReasoningMerkleTree :=
  Eval vm_compute in
    match Merkle.build_from_reasoning_tree toy_digest toy_dumps init [n0] with
    | Some (self, _) => self
    | None => init
    end.

(** A reasoning tree with root [n0] and listed nodes [n1], [n2]. *)
Definition three_node_tree : ReasoningTree.t :=
  {| ReasoningTree.task_id := "t1"; ReasoningTree.root := n0;
     ReasoningTree.nodes := [n1; n2]; ReasoningTree.merkle_root := "";
     ReasoningTree.stake := 100%Q; ReasoningTree.proposer_hotkey := "prop";
     ReasoningTree.submitted_at := None |}.

End MerkleSamples.

Module ChallengeSamples.
Import Challenge.

Local Open Scope Q_scope.

Definition sample_root : ReasoningNode.t :=
  {| ReasoningNode.id := "n0"; ReasoningNode.claim := "c";
     ReasoningNode.node_type := CONCLUSION; ReasoningNode.evidence := None;
     ReasoningNode.children := []; ReasoningNode.merkle_hash := None |}.

(** A tree with proposer stake 100, submitted at instant 0. *)
Definition sample_tree (submitted_at : option datetime) : ReasoningTree.t :=
  {| ReasoningTree.task_id := "t1"; ReasoningTree.root := sample_root;
     ReasoningTree.nodes := []; ReasoningTree.merkle_root := "";
     ReasoningTree.stake := 100; ReasoningTree.proposer_hotkey := "prop";
     ReasoningTree.submitted_at := submitted_at |}.

(** A contradiction challenge on the root with stake 20. *)
Definition sample_challenge : ChallengeSubmission.t :=
  {| ChallengeSubmission.task_id := "t1"; ChallengeSubmission.target_node := "n0";
     ChallengeSubmission.attack_type := CONTRADICTION;
     ChallengeSubmission.argument := ""; ChallengeSubmission.evidence := None;
     ChallengeSubmission.stake := 20; ChallengeSubmission.challenger_hotkey := "chal";
     ChallengeSubmission.accepted := None; ChallengeSubmission.dispute_id := None |}.

Definition sample_defense : DefenseSubmission.t :=
  {| DefenseSubmission.dispute_id := "disp_t1_1";
     DefenseSubmission.defense_type := REFUTE; DefenseSubmission.response := "";
     DefenseSubmission.evidence := None; DefenseSubmission.affected_nodes := [];
     DefenseSubmission.tree_still_valid := None; DefenseSubmission.accepted := None |}.

(** The manager after opening that dispute at instant 0. *)
Definition opened : ChallengeManager * Dispute.t :=
  Eval vm_compute in create_dispute init 0%Z sample_challenge (sample_tree (Some 0%Z)).

(** The manager after scenario 1 is resolved. *)
Definition settled_once : ChallengeManager :=
  Eval vm_compute in (resolve_dispute opened.1 7%Z "disp_t1_1" CHALLENGE_UPHELD 1).1.

(** The manager after the proposer defended that dispute at instant 5, and
    the dispute it then holds. *)
Definition defended : ChallengeManager :=
  Eval vm_compute in
    match submit_defense opened.1 5%Z "disp_t1_1" sample_defense with
    | Return (self, _) => self
    | Raise _ => opened.1
    end.

Definition defended_dispute : Dispute.t :=
  Eval vm_compute in default opened.2 (get_dispute defended "disp_t1_1").

End ChallengeSamples.

Module ConsensusSamples.
Import Consensus.

Local Open Scope Q_scope.

(** A registry with one scout, registered at instant 0 with score 1.0. *)
Definition one_scout : ValidatorConsensus :=
  Eval vm_compute in
    match register_validator (init 0%Z) 0%Z "v" 100 SCOUT with
    | Return (self, _) => self
    | Raise _ => init 0%Z
    end.

(** 21 days in microseconds. *)
Definition day21 : datetime := (21 * 86400000000)%Z.

Definition scout (hotkey : string) (stake : Q) : ValidatorState.t :=
  {| ValidatorState.hotkey := hotkey; ValidatorState.tier := SCOUT;
     ValidatorState.stake := stake; ValidatorState.calibration_score := 1.0;
     ValidatorState.verdicts_submitted := 0; ValidatorState.correct_verdicts := 0;
     ValidatorState.cases_this_epoch := 1; ValidatorState.last_active := 0%Z;
     ValidatorState.tier_start_date := 0%Z; ValidatorState.slashing_events := [];
     ValidatorState.verdict_history := [] |}.

Definition ballot (hotkey : string) (verdict : Verdict) : Vote.t :=
  {| Vote.validator_hotkey := hotkey; Vote.verdict := verdict;
     Vote.confidence := 1.0; Vote.reasoning := ""; Vote.submitted_at := 1%Z |}.

Definition sample_payload : DisputeForAdjudication.t :=
  {| DisputeForAdjudication.dispute_id := "d1";
     DisputeForAdjudication.task_id := "t1";
     DisputeForAdjudication.contested_node := ChallengeSamples.sample_root;
     DisputeForAdjudication.challenge := ChallengeSamples.sample_challenge;
     DisputeForAdjudication.defense := None;
     DisputeForAdjudication.proposer_reputation := 1.0;
     DisputeForAdjudication.challenger_reputation := 1.0;
     DisputeForAdjudication.verdict := None;
     DisputeForAdjudication.confidence := None;
     DisputeForAdjudication.reasoning := None;
     DisputeForAdjudication.validator_hotkey := None |}.

(** Three scouts of weight 400, 350 and 250 on dispute ["d1"], with the
    given votes. *)
Definition panel (votes : list Vote.t) : ValidatorConsensus :=
  {| validators := {[ "a" := scout "a" 400; "b" := scout "b" 350; "c" := scout "c" 250 ]};
     active_disputes :=
       {[ "d1" := {| DisputeState.dispute := sample_payload;
                     DisputeState.assigned_validators := ["a"; "b"; "c"];
                     DisputeState.deadline := 100%Z;
                     DisputeState.escalated := false |} ]};
     dispute_votes := {[ "d1" := votes ]};
     epoch_start := 0%Z |}.

Definition split_votes : list Vote.t :=
  [ballot "a" CHALLENGE_UPHELD; ballot "b" CHALLENGE_REJECTED; ballot "c" PARTIAL].

(** 30 days in microseconds. *)
Definition day30 : datetime := (30 * 86400000000)%Z.

(** A registry with one scout of stake 500 and score 0.9 that has
    submitted 50 verdicts since instant 0. *)
Definition seasoned_registry : ValidatorConsensus :=
  {| validators :=
       {[ "s" := {| ValidatorState.hotkey := "s"; ValidatorState.tier := SCOUT;
                    ValidatorState.stake := 500;
                    ValidatorState.calibration_score := 0.9;
                    ValidatorState.verdicts_submitted := 50;
                    ValidatorState.correct_verdicts := 45;
                    ValidatorState.cases_this_epoch := 0;
                    ValidatorState.last_active := 0%Z;
                    ValidatorState.tier_start_date := 0%Z;
                    ValidatorState.slashing_events := [];
                    ValidatorState.verdict_history := [] |} ]};
     active_disputes := ∅;
     dispute_votes := ∅;
     epoch_start := 0%Z |}.

(** The panel joined by an arbiter ["z"] of stake 2000. *)
Definition panel_with_arbiter (votes : list Vote.t) : ValidatorConsensus :=
  {| validators :=
       <[ "z" := {| ValidatorState.hotkey := "z"; ValidatorState.tier := ARBITER;
                    ValidatorState.stake := 2000;
                    ValidatorState.calibration_score := 1.0;
                    ValidatorState.verdicts_submitted := 0;
                    ValidatorState.correct_verdicts := 0;
                    ValidatorState.cases_this_epoch := 0;
                    ValidatorState.last_active := 0%Z;
                    ValidatorState.tier_start_date := 0%Z;
                    ValidatorState.slashing_events := [];
                    ValidatorState.verdict_history := [] |} ]>
         (validators (panel votes));
     active_disputes := active_disputes (panel votes);
     dispute_votes := dispute_votes (panel votes);
     epoch_start := 0%Z |}.

(** A weighting function that ignores the age of a verdict. *)
Definition flat_weight (x : Q) : Q := 1.

(** The three scouts on the sample dispute of the challenge manager, all
    voting that the challenge is upheld. *)
Definition unanimous_panel : ValidatorConsensus :=
  {| validators := validators (panel []);
     active_disputes :=
       {[ "disp_t1_1" := {| DisputeState.dispute := sample_payload;
                            DisputeState.assigned_validators := ["a"; "b"; "c"];
                            DisputeState.deadline := 100%Z;
                            DisputeState.escalated := false |} ]};
     dispute_votes :=
       {[ "disp_t1_1" := [ballot "a" CHALLENGE_UPHELD; ballot "b" CHALLENGE_UPHELD;
                          ballot "c" CHALLENGE_UPHELD] ]};
     epoch_start := 0%Z |}.

End ConsensusSamples.

Module Binary64Samples.
Import PrimFloat Binary64.

Local Open Scope float_scope.




Definition scout (hotkey : string) (stake : float) : ValidatorState.t :=
  {| ValidatorState.hotkey := hotkey; ValidatorState.tier := Consensus.SCOUT;
     ValidatorState.stake := stake; ValidatorState.calibration_score := 1.0;
     ValidatorState.verdicts_submitted := 0; ValidatorState.correct_verdicts := 0;
     ValidatorState.cases_this_epoch := 1; ValidatorState.last_active := 0%Z;
     ValidatorState.tier_start_date := 0%Z; ValidatorState.slashing_events := [];
     ValidatorState.verdict_history := [] |}.

Definition ballot (hotkey : string) (verdict : Verdict) (confidence : float) : Vote.t :=
  {| Vote.validator_hotkey := hotkey; Vote.verdict := verdict;
     Vote.confidence := confidence; Vote.reasoning := "r";
     Vote.submitted_at := 1%Z |}.

(** Two scouts with the given stakes on dispute ["d1"], with the given
    votes. *)
Definition pair_panel (stake_a stake_b : float) (votes : list Vote.t)
    : ValidatorConsensus :=
  {| validators := {[ "a" := scout "a" stake_a; "b" := scout "b" stake_b ]};
     active_disputes :=
       {[ "d1" := {| Consensus.DisputeState.dispute := ConsensusSamples.sample_payload;
                     Consensus.DisputeState.assigned_validators := ["a"; "b"];
                     Consensus.DisputeState.deadline := 100%Z;
                     Consensus.DisputeState.escalated := false |} ]};
     dispute_votes := {[ "d1" := votes ]};
     epoch_start := 0%Z |}.

(** Three scouts on dispute ["d1"]. *)
Definition trio_panel (stake_a stake_b stake_c : float) (votes : list Vote.t)
    : ValidatorConsensus :=
  {| validators :=
       {[ "a" := scout "a" stake_a; "b" := scout "b" stake_b;
          "c" := scout "c" stake_c ]};
     active_disputes := active_disputes (pair_panel 0 0 []);
     dispute_votes := {[ "d1" := votes ]};
     epoch_start := 0%Z |}.

(** Stakes [2^53], [2^53] and [1], all of them doubles, each voting with
    confidence 1: the two rejecting weights add up to [2^53 + 1], which is
    not a double and is rounded to [2^53]. *)
Definition rounded_tie : ValidatorConsensus :=
  trio_panel 9007199254740992 9007199254740992 1
    [ballot "a" CHALLENGE_UPHELD 1.0; ballot "b" CHALLENGE_REJECTED 1.0;
     ballot "c" CHALLENGE_REJECTED 1.0].

(** Stakes [1800000000000001] and [1200000000000001], both doubles, each
    voting with confidence 1: the sums are exact, the first share is
    [3/5 - 1/(5 * 3000000000000002)], and the quotient is rounded to the
    double nearest 0.6. *)
Definition rounded_threshold : ValidatorConsensus :=
  pair_panel 1800000000000001 1200000000000001
    [ballot "a" CHALLENGE_UPHELD 1.0; ballot "b" CHALLENGE_REJECTED 1.0].

(** Scenario 4 of the specification: shares 0.4, 0.35 and 0.25. *)
Definition split_panel : ValidatorConsensus :=
  {| validators :=
       {[ "a" := scout "a" 400; "b" := scout "b" 350; "c" := scout "c" 250 ]};
     active_disputes := active_disputes (pair_panel 0 0 []);
     dispute_votes :=
       {[ "d1" := [ballot "a" CHALLENGE_UPHELD 1.0; ballot "b" CHALLENGE_REJECTED 1.0;
                   ballot "c" PARTIAL 1.0] ]};
     epoch_start := 0%Z |}.

(** A tree of stake 43 without submission time, and a challenge of its root
    with the given stake. *)
Definition tree_43 : ReasoningTree.t :=
  {| ReasoningTree.task_id := "t1"; ReasoningTree.root := ChallengeSamples.sample_root;
     ReasoningTree.nodes := []; ReasoningTree.merkle_root := "";
     ReasoningTree.stake := 43; ReasoningTree.proposer_hotkey := "prop";
     ReasoningTree.submitted_at := None |}.

Definition challenge_with (stake : float) : ChallengeSubmission.t :=
  {| ChallengeSubmission.task_id := "t1"; ChallengeSubmission.target_node := "n0";
     ChallengeSubmission.attack_type := CONTRADICTION;
     ChallengeSubmission.argument := "arg"; ChallengeSubmission.evidence := None;
     ChallengeSubmission.stake := stake;
     ChallengeSubmission.challenger_hotkey := "chal";
     ChallengeSubmission.accepted := None; ChallengeSubmission.dispute_id := None |}.

Definition empty_manager : ChallengeManager :=
  {| disputes := []; tree_challenges := ∅; dispute_counter := 0 |}.

(** A parser that accepts no string. *)
Definition no_parse (s : string) : Parsed := Invalid.

End Binary64Samples.

(* ===================================================================== *)
(** * Properties of the commitment engine *)
(* ===================================================================== *)

Module MerkleProofs.
Import Merkle MerkleSamples.

Section Proofs.

Variable sha256_hexdigest : string -> string.
Variable json_dumps : ReasoningNode.t -> string.

Local Abbreviation hash_node := (Merkle.hash_node sha256_hexdigest json_dumps).
Local Abbreviation combine_hashes := (Merkle.combine_hashes sha256_hexdigest).
Local Abbreviation verify_step := (Merkle.verify_step sha256_hexdigest).
Local Abbreviation verify_proof := (Merkle.verify_proof sha256_hexdigest json_dumps).
Local Abbreviation parents := (Merkle.parents sha256_hexdigest).
Local Abbreviation build_tree_fuel := (Merkle.build_tree_fuel sha256_hexdigest).
Local Abbreviation _build_tree := (Merkle._build_tree sha256_hexdigest).
Local Abbreviation well_formed := (Merkle.well_formed sha256_hexdigest).
Local Abbreviation build_from_reasoning_tree :=
  (Merkle.build_from_reasoning_tree sha256_hexdigest json_dumps).
Local Abbreviation leaf_of := (Merkle.leaf_of sha256_hexdigest json_dumps).

(** *** The search *)

(** A failed search leaves the proof list as it was; a successful one
    extends it by a path that folds, from the target, to the node's hash. *)
Lemma find_and_prove_node_spec node_id target t :
  well_formed t ->
  forall p0,
    match find_and_prove_node node_id target t p0 with
    | (true, p) =>
        exists q, p = p0 ++ q /\ foldl verify_step target q = hash t
    | (false, p) => p = p0
    end.
Proof.
  induction t as [h d l r IHl IHr] using MerkleNode_rect'.
  intros Hwf p0. cbn [find_and_prove_node hash data_id left right].
  destruct (bool_decide (h = target) && bool_decide (d = Some node_id)) eqn:Hm.
  - apply andb_prop in Hm as [Hh _]. apply bool_decide_eq_true in Hh.
    exists []. by rewrite app_nil_r.
  - cbn [well_formed] in Hwf.
    destruct l as [ln|], r as [rn|]; try done.
    destruct Hwf as (Hh & Hwl & Hwr).
    specialize (IHl ln eq_refl Hwl p0).
    destruct (find_and_prove_node node_id target ln p0) as [[|] p1].
    + destruct IHl as (q & -> & Hq).
      exists (q ++ [(hash rn, "right")]). split; [by rewrite app_assoc|].
      rewrite foldl_app, Hq. cbn. by rewrite Hh.
    + subst p1. specialize (IHr rn eq_refl Hwr p0).
      destruct (find_and_prove_node node_id target rn p0) as [[|] p2]; [|done].
      destruct IHr as (q & -> & Hq).
      exists (q ++ [(hash ln, "left")]). split; [by rewrite app_assoc|].
      rewrite foldl_app, Hq. cbn. by rewrite Hh.
Qed.

(** The search succeeds whenever the wanted leaf is somewhere in the tree. *)
Lemma find_and_prove_node_complete node_id target t :
  occurs node_id target t ->
  forall p0, (find_and_prove_node node_id target t p0).1 = true.
Proof.
  induction t as [h d l r IHl IHr] using MerkleNode_rect'.
  intros Hocc p0. cbn [find_and_prove_node hash data_id left right].
  destruct (bool_decide (h = target) && bool_decide (d = Some node_id)) eqn:Hm; [done|].
  cbn [occurs] in Hocc. destruct Hocc as [[Hh Hd]|[Hl|Hr]].
  - rewrite !bool_decide_eq_true_2 in Hm by done. done.
  - destruct l as [ln|]; [|done].
    specialize (IHl ln eq_refl Hl p0).
    destruct (find_and_prove_node node_id target ln p0) as [[|] p1]; done.
  - destruct r as [rn|]; [|done].
    destruct (match l with
              | Some ln => find_and_prove_node node_id target ln p0
              | None => (false, p0)
              end) as [[|] p1]; [done|].
    specialize (IHr rn eq_refl Hr p1).
    destruct (find_and_prove_node node_id target rn p1) as [[|] p2]; done.
Qed.

(** *** Building the levels *)

Lemma pad_length ns : length (pad ns) = (length ns + length ns mod 2)%nat.
Proof.
  unfold pad. destruct (Nat.eqb_spec (length ns mod 2) 1) as [Hodd|Heven].
  - destruct (last ns) as [x|] eqn:Hlast.
    + rewrite length_app, Hodd. cbn [length]. lia.
    + apply last_None in Hlast. subst ns. cbn in Hodd. lia.
  - pose proof (Nat.mod_upper_bound (length ns) 2). lia.
Qed.

Lemma pad_elem ns x : x ∈ ns -> x ∈ pad ns.
Proof.
  intros Hx. unfold pad. destruct (length ns mod 2 =? 1)%nat; [|done].
  destruct (last ns); [|done]. apply elem_of_app. by left.
Qed.

Lemma pad_well_formed ns : Forall well_formed ns -> Forall well_formed (pad ns).
Proof.
  intros Hwf. unfold pad. destruct (length ns mod 2 =? 1)%nat; [|done].
  destruct (last ns) as [x|] eqn:Hlast; [|done].
  apply Forall_app. split; [done|]. apply Forall_singleton.
  apply last_Some in Hlast as [l' ->]. apply Forall_app in Hwf as [_ Hx].
  by inversion Hx.
Qed.

(** Induction over a list two elements at a time. *)
Lemma list_pair_ind {A} (P : list A -> Prop) :
  P [] -> (forall x, P [x]) -> (forall x y l, P l -> P (x :: y :: l)) ->
  forall l, P l.
Proof.
  intros H0 H1 H2.
  assert (forall l, P l /\ forall x, P (x :: l)) as H.
  { induction l as [|y l [IH1 IH2]]; split; auto. }
  intros l. apply H.
Qed.

Lemma parents_length ns : length (parents ns) = (length ns / 2)%nat.
Proof.
  induction ns as [|x|x y l IH] using list_pair_ind; [done..|].
  cbn [Merkle.parents length]. rewrite IH.
  change (S (S (length l))) with (1 * 2 + length l)%nat.
  rewrite (Nat.add_comm (1 * 2)), Nat.div_add by lia. lia.
Qed.

Lemma parents_well_formed ns :
  Forall well_formed ns -> Forall well_formed (parents ns).
Proof.
  induction ns as [|x|x y l IH] using list_pair_ind; intros Hwf; [done..|].
  apply Forall_cons in Hwf as [Hx Hwf]. apply Forall_cons in Hwf as [Hy Hwf].
  cbn [Merkle.parents]. apply Forall_cons. split; [|by apply IH].
  cbn. done.
Qed.

(** On a list of even length every element becomes a child of a parent. *)
Lemma parents_occurs node_id target ns :
  (length ns mod 2 = 0)%nat ->
  Exists (occurs node_id target) ns ->
  Exists (occurs node_id target) (parents ns).
Proof.
  induction ns as [|x|x y l IH] using list_pair_ind; intros Hlen Hex.
  - by apply Exists_nil in Hex.
  - cbn in Hlen. lia.
  - cbn [Merkle.parents].
    assert (length l mod 2 = 0)%nat as Hl.
    { cbn [length] in Hlen.
      change (S (S (length l))) with (1 * 2 + length l)%nat in Hlen.
      rewrite (Nat.add_comm (1 * 2)), Nat.Div0.mod_add in Hlen. done. }
    apply Exists_cons in Hex as [Hx|Hex].
    { apply Exists_cons_hd. cbn. right. by left. }
    apply Exists_cons in Hex as [Hy|Hex].
    { apply Exists_cons_hd. cbn. right. by right. }
    apply Exists_cons_tl. by apply IH.
Qed.

Lemma pad_even ns : (length (pad ns) mod 2 = 0)%nat.
Proof.
  rewrite pad_length.
  pose proof (Nat.div_mod_eq (length ns) 2) as Hdm.
  pose proof (Nat.mod_upper_bound (length ns) 2 ltac:(lia)) as Hub.
  replace (length ns + length ns mod 2)%nat
    with ((length ns / 2 + length ns mod 2) * 2)%nat by lia.
  apply Nat.Div0.mod_mul.
Qed.

Lemma next_level_length ns :
  (2 <= length ns)%nat ->
  (1 <= length (parents (pad ns)) <= length ns - 1)%nat.
Proof.
  intros Hn. rewrite parents_length, pad_length.
  pose proof (Nat.div_mod_eq (length ns) 2) as Hdm.
  pose proof (Nat.mod_upper_bound (length ns) 2 ltac:(lia)) as Hub.
  replace (length ns + length ns mod 2)%nat
    with ((length ns / 2 + length ns mod 2) * 2)%nat by lia.
  rewrite Nat.div_mul by lia. lia.
Qed.

(** [_build_tree] returns on every non-empty list: the length of the list
    is enough fuel. *)
Lemma build_tree_fuel_total fuel ns :
  (1 <= length ns <= fuel)%nat -> is_Some (build_tree_fuel fuel ns).
Proof.
  revert ns. induction fuel as [|fuel IH]; intros ns Hlen; [lia|].
  cbn [Merkle.build_tree_fuel].
  destruct (Nat.eqb_spec (length ns) 1) as [H1|H1].
  - destruct ns; [cbn in H1; lia|]. by eexists.
  - apply IH. pose proof (next_level_length ns). lia.
Qed.

Lemma build_tree_fuel_well_formed fuel ns r :
  Forall well_formed ns -> build_tree_fuel fuel ns = Some r -> well_formed r.
Proof.
  revert ns. induction fuel as [|fuel IH]; intros ns Hwf Hb; [done|].
  cbn [Merkle.build_tree_fuel] in Hb.
  destruct (length ns =? 1)%nat.
  - destruct ns as [|x ns]; [done|]. injection Hb as <-. by inversion Hwf.
  - eapply IH; [|done]. by apply parents_well_formed, pad_well_formed.
Qed.

Lemma build_tree_fuel_occurs node_id target fuel ns r :
  Exists (occurs node_id target) ns ->
  build_tree_fuel fuel ns = Some r ->
  occurs node_id target r.
Proof.
  revert ns. induction fuel as [|fuel IH]; intros ns Hex Hb; [done|].
  cbn [Merkle.build_tree_fuel] in Hb.
  destruct (Nat.eqb_spec (length ns) 1) as [H1|H1].
  - destruct ns as [|x [|y ns]]; try done. injection Hb as <-.
    apply Exists_cons in Hex as [Hx|Hex]; [done|]. by apply Exists_nil in Hex.
  - eapply IH; [|done]. apply parents_occurs; [apply pad_even|].
    apply Exists_exists in Hex as (x & Hx & Hocc).
    apply Exists_exists. exists x. split; [by apply pad_elem|done].
Qed.

(** *** The dictionaries filled by [build_from_reasoning_tree] *)

Lemma leaves_loop rn : forall (ns : gmap string string) (lv : list MerkleNode),
  foldl (fun '(ns, lv) node =>
           let node_hash := hash_node node in
           (<[ReasoningNode.id node := node_hash]> ns,
            lv ++ [Build_MerkleNode node_hash (Some (ReasoningNode.id node)) None None]))
        (ns, lv) rn
  = (foldl (fun ns node => <[ReasoningNode.id node := hash_node node]> ns) ns rn,
     lv ++ map leaf_of rn).
Proof.
  induction rn as [|n rn IH]; intros ns lv; cbn [foldl map].
  - by rewrite app_nil_r.
  - rewrite IH. f_equal. by rewrite <- app_assoc.
Qed.

(** With distinct identifiers each node's entry is its own hash. *)
Lemma nodes_loop_lookup rn : forall (ns : gmap string string) n,
  NoDup (map ReasoningNode.id rn) ->
  n ∈ rn ->
  foldl (fun ns node => <[ReasoningNode.id node := hash_node node]> ns) ns rn
    !! ReasoningNode.id n = Some (hash_node n).
Proof.
  induction rn as [|m rn IH]; intros ns n Hnd Hin; [by apply elem_of_nil in Hin|].
  cbn [map] in Hnd. apply NoDup_cons in Hnd as [Hm Hnd].
  cbn [foldl]. apply elem_of_cons in Hin as [->|Hin]; [|by apply IH].
  clear IH Hnd. revert ns. induction rn as [|k rn IH]; intros ns; cbn [foldl].
  - apply lookup_insert_eq.
  - cbn [map] in Hm. apply not_elem_of_cons in Hm as [Hne Hm].
    rewrite insert_insert_ne by done. by apply IH.
Qed.

Lemma proofs_loop_lookup (g : string -> Proof) (p0 : gmap string Proof)
    (ns : gmap string string) k :
  map_fold (fun node_id _ acc => <[node_id := g node_id]> acc) p0 ns !! k
  = match ns !! k with Some _ => Some (g k) | None => p0 !! k end.
Proof.
  revert k.
  apply (map_fold_weak_ind
           (fun r (m : gmap string string) =>
              forall k, r !! k = match m !! k with Some _ => Some (g k) | None => p0 !! k end)).
  - intros k. by rewrite lookup_empty.
  - intros i x m r Hi IH k. destruct (decide (i = k)) as [->|Hne].
    + by rewrite !lookup_insert_eq.
    + rewrite !lookup_insert_ne by done. apply IH.
Qed.

(** The state after a build over a non-empty list: the root returned by
    [_build_tree] over the leaves, and the two dictionaries. *)
Lemma build_from_reasoning_tree_nonempty self rn :
  rn <> [] ->
  exists r self',
    _build_tree (map leaf_of rn) = Some r
    /\ build_from_reasoning_tree self rn = Some (self', hash r)
    /\ root self' = Some r
    /\ nodes self'
       = foldl (fun ns node => <[ReasoningNode.id node := hash_node node]> ns)
               (nodes self) rn
    /\ forall k,
         proofs self' !! k
         = match nodes self' !! k with
           | Some _ => Some (_generate_proof self' k)
           | None => proofs self !! k
           end.
Proof.
  intros Hne.
  destruct (build_tree_fuel_total (length (map leaf_of rn)) (map leaf_of rn))
    as [r Hr].
  { rewrite length_map. destruct rn; [done|cbn; lia]. }
  exists r. eexists. split; [exact Hr|].
  unfold Merkle.build_from_reasoning_tree.
  destruct rn as [|m rn]; [done|].
  rewrite leaves_loop, app_nil_l.
  unfold Merkle._build_tree in Hr |- *. rewrite Hr.
  split; [reflexivity|]. cbn [root nodes proofs].
  split; [done|]. split; [done|].
  intros k. rewrite proofs_loop_lookup.
  destruct (_ !! k); [|done]. done.
Qed.

(** C2.  For every non-empty list of reasoning nodes with pairwise distinct
    identifiers (the node set of a reasoning tree: its root followed by its
    listed nodes) and every node [n] of the list, building the Merkle tree
    returns a root, stores a proof under [n]'s identifier, and verifying [n]
    against that proof and that root yields [true].  Lists of one node and of
    odd length are instances. *)
Theorem build_proof_verify self reasoning_nodes n :
  NoDup (map ReasoningNode.id reasoning_nodes) ->
  n ∈ reasoning_nodes ->
  exists self' merkle_root proof,
    build_from_reasoning_tree self reasoning_nodes = Some (self', merkle_root)
    /\ get_proof self' (ReasoningNode.id n) = Some proof
    /\ verify_proof n proof merkle_root = true.
Proof.
  intros Hnd Hin.
  destruct (build_from_reasoning_tree_nonempty self reasoning_nodes)
    as (r & self' & Hr & Hb & Hroot & Hnodes & Hproofs).
  { intros ->. by apply elem_of_nil in Hin. }
  assert (nodes self' !! ReasoningNode.id n = Some (hash_node n)) as Hn.
  { rewrite Hnodes. by apply nodes_loop_lookup. }
  exists self', (hash r), (_generate_proof self' (ReasoningNode.id n)).
  split; [done|]. split.
  { unfold get_proof. by rewrite Hproofs, Hn. }
  unfold _generate_proof. rewrite Hn, Hroot. cbn [find_and_prove].
  assert (well_formed r) as Hwf.
  { eapply build_tree_fuel_well_formed; [|exact Hr].
    apply Forall_forall. intros x Hx. apply list_elem_of_fmap in Hx as (m & -> & _).
    done. }
  assert (occurs (ReasoningNode.id n) (hash_node n) r) as Hocc.
  { eapply build_tree_fuel_occurs; [|exact Hr].
    apply Exists_exists. exists (leaf_of n). split.
    - apply list_elem_of_fmap. by exists n.
    - cbn. by left. }
  pose proof (find_and_prove_node_complete _ _ _ Hocc []) as Hfound.
  pose proof (find_and_prove_node_spec (ReasoningNode.id n) (hash_node n) r Hwf [])
    as Hspec.
  destruct (find_and_prove_node (ReasoningNode.id n) (hash_node n) r [])
    as [found p]. cbn in Hfound. subst found.
  destruct Hspec as (q & -> & Hq). cbn [snd].
  unfold Merkle.verify_proof. rewrite app_nil_l, Hq.
  by apply bool_decide_eq_true.
Qed.

End Proofs.

(** *** Verification as it is called *)

Section Verification.

Variable sha256_hexdigest : string -> string.
Variable json_dumps : ReasoningNode.t -> string.
Variable encodes : string -> bool.

(** What the library functions guarantee: [json.dumps] escapes every
    non-ASCII character, a hex digest is ASCII, and a concatenation holds a
    surrogate exactly when one of its parts does. *)
Hypothesis encodes_dumps : forall node, encodes (json_dumps node) = true.
Hypothesis encodes_digest : forall s, encodes (sha256_hexdigest s) = true.
Hypothesis encodes_app : forall a b, encodes (a +:+ b) = encodes a && encodes b.

Local Abbreviation verify_step := (Merkle.verify_step sha256_hexdigest).
Local Abbreviation hash_node := (Merkle.hash_node sha256_hexdigest json_dumps).
Local Abbreviation build_from_reasoning_tree :=
  (Merkle.build_from_reasoning_tree sha256_hexdigest json_dumps).
Local Abbreviation verify_call :=
  (MerkleCalls.verify_proof sha256_hexdigest json_dumps encodes).

Lemma verify_step_digest current_hash entry :
  exists s, verify_step current_hash entry = sha256_hexdigest s.
Proof.
  destruct entry as [sibling direction]. unfold Merkle.verify_step.
  case_bool_decide; eexists; reflexivity.
Qed.




End Verification.


(** *** Concrete instances *)

Lemma build_proof_verify_witness :
  NoDup (map ReasoningNode.id [n0; n1; n2])
  /\ n2 ∈ [n0; n1; n2]
  /\ exists self' merkle_root proof,
       Merkle.build_from_reasoning_tree toy_digest toy_dumps init [n0; n1; n2]
       = Some (self', merkle_root)
       /\ get_proof self' (ReasoningNode.id n2) = Some proof
       /\ Merkle.verify_proof toy_digest toy_dumps n2 proof merkle_root = true.
Proof.
  assert (NoDup (map ReasoningNode.id [n0; n1; n2])) as Hnd.
  { apply (bool_decide_unpack _). vm_compute. exact I. }
  assert (n2 ∈ [n0; n1; n2]) as Hin by (repeat constructor).
  split; [exact Hnd|]. split; [exact Hin|].
  exact (build_proof_verify toy_digest toy_dumps init [n0; n1; n2] n2 Hnd Hin).
Defined.

(** A tree of one node: the leaf is the root and the proof is empty. *)
Example single_node_tree :
  exists self',
    Merkle.build_from_reasoning_tree toy_digest toy_dumps init [n0]
    = Some (self', Merkle.hash_node toy_digest toy_dumps n0)
    /\ get_proof self' "n0" = Some []
    /\ Merkle.verify_proof toy_digest toy_dumps n0 []
         (Merkle.hash_node toy_digest toy_dumps n0) = true.
Proof. eexists. split; [by vm_compute|]. by vm_compute. Qed.

(** Three leaves: the last one is paired with itself, and its proof names
    its own hash as right sibling, then the parent of the first two leaves
    as left sibling. *)
Example three_leaves_proof_of_last :
  exists self' merkle_root,
    Merkle.build_from_reasoning_tree toy_digest toy_dumps init [n0; n1; n2]
    = Some (self', merkle_root)
    /\ get_proof self' "n2" = Some [("n2:c;", "right"); ("n0:a;n1:b;", "left")]
    /\ merkle_root = "n0:a;n1:b;n2:c;n2:c;".
Proof. eexists _, _. split; [by vm_compute|]. by vm_compute. Qed.

(** Distinct identifiers are needed for the round trip: when two nodes share
    an identifier the dictionary keeps the hash of the
    later one, and the proof stored under the identifier is the later
    node's. *)
Example shared_identifier_proof_is_of_later_node :
  exists self' merkle_root proof,
    Merkle.build_from_reasoning_tree toy_digest toy_dumps init
      [mk_node "x" "1"; mk_node "x" "2"]
    = Some (self', merkle_root)
    /\ get_proof self' "x" = Some proof
    /\ Merkle.verify_proof toy_digest toy_dumps (mk_node "x" "2") proof merkle_root = true
    /\ Merkle.verify_proof toy_digest toy_dumps (mk_node "x" "1") proof merkle_root = false.
Proof. eexists _, _, _. split; [by vm_compute|]. by vm_compute. Qed.



End MerkleProofs.

(* ===================================================================== *)
(** * Properties of the dispute manager *)
(* ===================================================================== *)

Module PyDictFacts.
Section Facts.
Context {V : Type}.
Implicit Types (d : list (string * V)) (k : string) (v : V).

Lemma get_set_eq d k v : PyDict.get k (PyDict.set k v d) = Some v.
Proof.
  induction d as [|[k' v'] d IH]; cbn.
  - by rewrite bool_decide_eq_true_2.
  - destruct (decide (k' = k)) as [->|Hne].
    + rewrite bool_decide_eq_true_2 by done. cbn. by rewrite bool_decide_eq_true_2.
    + rewrite bool_decide_eq_false_2 by done. cbn.
      by rewrite bool_decide_eq_false_2.
Qed.

Lemma get_set_ne d k k' v : k <> k' -> PyDict.get k' (PyDict.set k v d) = PyDict.get k' d.
Proof.
  intros Hne. induction d as [|[k0 v0] d IH]; cbn.
  - by rewrite bool_decide_eq_false_2.
  - destruct (decide (k0 = k)) as [->|Hne0].
    + rewrite bool_decide_eq_true_2 by done. cbn.
      by rewrite !bool_decide_eq_false_2.
    + rewrite bool_decide_eq_false_2 by done. cbn. by rewrite IH.
Qed.

End Facts.
End PyDictFacts.

Module ChallengeProofs.
Import Challenge ChallengeSamples.

Local Open Scope Q_scope.

Lemma Qltb_lt x y : Qltb x y = true <-> x < y.
Proof.
  unfold Qltb. rewrite negb_true_iff, <- not_true_iff_false, Qle_bool_iff.
  split; [apply Qnot_le_lt|apply Qlt_not_le].
Qed.

Lemma Qltb_ge x y : Qltb x y = false <-> y <= x.
Proof. unfold Qltb. rewrite negb_false_iff. apply Qle_bool_iff. Qed.

Lemma py_min_Qmin a b : py_min a b == Qmin b a.
Proof.
  unfold py_min. destruct (Qltb b a) eqn:H.
  - apply Qltb_lt in H. symmetry. apply Q.min_l. by apply Qlt_le_weak.
  - apply Qltb_ge in H. symmetry. by apply Q.min_r.
Qed.

Lemma multiplier_table a : ATTACK_MULTIPLIERS a = Table.m a.
Proof. by destruct a. Qed.

(** *** The three resolution helpers against the table *)

Lemma _resolve_challenger_wins_table d c :
  Table.settled (_resolve_challenger_wins d c)
    (Table.upheld (Table.m (Dispute.attack_type d))
       (Dispute.proposer_stake d) (Dispute.challenger_stake d) c).
Proof.
  destruct d. unfold Table.settled, _resolve_challenger_wins. cbn.
  rewrite multiplier_table. unfold PROPOSER_SLASH_RATE.
  repeat split; ring.
Qed.

Lemma _resolve_proposer_wins_table d c :
  Table.settled (_resolve_proposer_wins d c)
    (Table.rejected (Table.m (Dispute.attack_type d))
       (Dispute.proposer_stake d) (Dispute.challenger_stake d) c).
Proof.
  destruct d. unfold Table.settled, _resolve_proposer_wins. cbn.
  unfold CHALLENGER_SLASH_RATE. repeat split; ring.
Qed.

Lemma _resolve_partial_table d c :
  Table.settled (_resolve_partial d c)
    (Table.partial (Table.m (Dispute.attack_type d))
       (Dispute.proposer_stake d) (Dispute.challenger_stake d) c).
Proof.
  destruct d. unfold Table.settled, _resolve_partial. cbn.
  rewrite multiplier_table. unfold PROPOSER_SLASH_RATE.
  repeat split; ring.
Qed.

Lemma _resolve_no_defense_table now d :
  Table.settled (_resolve_no_defense now d)
    (Table.no_defense (Table.m (Dispute.attack_type d))
       (Dispute.proposer_stake d) (Dispute.challenger_stake d)).
Proof.
  destruct d. unfold Table.settled, _resolve_no_defense. cbn.
  rewrite multiplier_table, py_min_Qmin. unfold PROPOSER_SLASH_RATE.
  assert (forall P, P * (0.30 * 1.5) == P * 0.45) as E by (intros; ring).
  rewrite E. repeat split; ring.
Qed.

Lemma resolve_dispute_known self now dispute_id d verdict c :
  get_dispute self dispute_id = Some d ->
  exists self' summary,
    resolve_dispute self now dispute_id verdict c = (self', inr summary)
    /\ get_dispute self' dispute_id = Some (resolved_with now verdict c d)
    /\ (forall other, dispute_id <> other ->
          get_dispute self' other = get_dispute self other)
    /\ Summary.dispute_id summary = dispute_id
    /\ Summary.verdict summary = verdict
    /\ Summary.proposer_payout summary
       = Dispute.proposer_payout (resolved_with now verdict c d)
    /\ Summary.challenger_payout summary
       = Dispute.challenger_payout (resolved_with now verdict c d)
    /\ Summary.proposer_reputation_delta summary
       = Dispute.proposer_reputation_delta (resolved_with now verdict c d)
    /\ Summary.challenger_reputation_delta summary
       = Dispute.challenger_reputation_delta (resolved_with now verdict c d).
Proof.
  unfold get_dispute, resolve_dispute. intros ->.
  eexists _, _. split; [reflexivity|]. cbn [disputes].
  split; [apply PyDictFacts.get_set_eq|].
  split; [intros other Hne; by apply PyDictFacts.get_set_ne|].
  by repeat split.
Qed.

Lemma resolved_with_fixed now verdict c d :
  Dispute.status (resolved_with now verdict c d) = RESOLVED
  /\ Dispute.verdict (resolved_with now verdict c d) = Some verdict
  /\ Dispute.attack_type (resolved_with now verdict c d) = Dispute.attack_type d
  /\ Dispute.proposer_stake (resolved_with now verdict c d) = Dispute.proposer_stake d
  /\ Dispute.challenger_stake (resolved_with now verdict c d)
     = Dispute.challenger_stake d.
Proof. by destruct d, verdict. Qed.

Lemma resolved_with_table now verdict c d r :
  Table.row_of verdict (Table.m (Dispute.attack_type d))
    (Dispute.proposer_stake d) (Dispute.challenger_stake d) c = Some r ->
  Table.settled (resolved_with now verdict c d) r.
Proof.
  intros Hrow. unfold resolved_with.
  set (d0 := Dispute.set_resolved_at _ _).
  assert (Dispute.attack_type d0 = Dispute.attack_type d
          /\ Dispute.proposer_stake d0 = Dispute.proposer_stake d
          /\ Dispute.challenger_stake d0 = Dispute.challenger_stake d)
    as (Ha & HP & HC) by (by destruct d).
  destruct verdict; cbn in Hrow; inversion Hrow; subst r; rewrite <- Ha, <- HP, <- HC.
  - apply _resolve_challenger_wins_table.
  - apply _resolve_proposer_wins_table.
  - apply _resolve_partial_table.
Qed.

(** C1.  Resolving a stored dispute with verdict challenge-upheld,
    challenge-rejected or partial and confidence [c] (any [c], so every [c]
    in [0,1]) marks it resolved with that verdict, and both the stored
    payouts and reputation deltas and the returned summary equal the row of
    the section 4.2 table for that verdict, with [m] the attack multiplier,
    [P] the proposer stake and [C] the challenger stake of the dispute. *)
Theorem resolve_dispute_table self now dispute_id d verdict c r :
  get_dispute self dispute_id = Some d ->
  Table.row_of verdict (Table.m (Dispute.attack_type d))
    (Dispute.proposer_stake d) (Dispute.challenger_stake d) c = Some r ->
  exists self' summary d',
    resolve_dispute self now dispute_id verdict c = (self', inr summary)
    /\ get_dispute self' dispute_id = Some d'
    /\ Dispute.status d' = RESOLVED
    /\ Dispute.verdict d' = Some verdict
    /\ Table.settled d' r
    /\ Table.reported summary r.
Proof.
  intros Hd Hrow.
  destruct (resolve_dispute_known self now dispute_id d verdict c Hd)
    as (self' & summary & Hres & Hget & _ & _ & _ & Hpp & Hcp & Hpr & Hcr).
  exists self', summary, (resolved_with now verdict c d).
  destruct (resolved_with_fixed now verdict c d) as (Hst & Hv & _).
  pose proof (resolved_with_table now verdict c d r Hrow) as Hset.
  repeat (split; [done|]).
  unfold Table.reported. by rewrite Hpp, Hcp, Hpr, Hcr.
Qed.

(** *** The expired-defense sweep *)

Lemma defense_expired_iff now d :
  defense_expired now d = true <-> deadline_passed now d.
Proof.
  unfold defense_expired, deadline_passed.
  rewrite andb_true_iff, bool_decide_eq_true.
  destruct (Dispute.defense_deadline d) as [deadline|].
  - rewrite bool_decide_eq_true. intuition lia.
  - intuition discriminate.
Qed.

Lemma expire_items_get now items k :
  PyDict.get k (expire_items now items).1
  = (fun d => if defense_expired now d then _resolve_no_defense now d else d)
      <$> PyDict.get k items.
Proof.
  induction items as [|[k' d] items IH]; [done|].
  cbn [expire_items]. destruct (expire_items now items) as [rest' expired].
  cbn [fst] in IH.
  destruct (defense_expired now d) eqn:Hexp; cbn; case_bool_decide; cbn;
    by rewrite ?Hexp.
Qed.

(** *** Challenge validation *)

Lemma has_active_challenge_false ds target l :
  has_active_challenge ds target l = false
  <-> forall dispute_id d,
        dispute_id ∈ l -> PyDict.get dispute_id ds = Some d ->
        Dispute.target_node_id d = target -> Dispute.status d = RESOLVED.
Proof.
  induction l as [|k l IH]; cbn [has_active_challenge].
  - split; [|done]. intros _ ?? Hin. by apply elem_of_nil in Hin.
  - destruct (PyDict.get k ds) as [d|] eqn:Hk.
    + destruct (bool_decide (Dispute.target_node_id d = target)
                && negb (bool_decide (Dispute.status d = RESOLVED))) eqn:Hact.
      * split; [done|]. intros H. exfalso.
        apply andb_prop in Hact as [Ht Hs]. apply bool_decide_eq_true in Ht.
        apply negb_true_iff, bool_decide_eq_false in Hs.
        apply Hs, (H k d); [by left|done..].
      * rewrite IH. split.
        -- intros H k' d' Hin Hget Ht.
           apply elem_of_cons in Hin as [->|Hin]; [|by eapply H].
           rewrite Hk in Hget. injection Hget as <-.
           apply andb_false_iff in Hact as [Hf|Hf].
           ++ by apply bool_decide_eq_false in Hf.
           ++ by apply negb_false_iff, bool_decide_eq_true in Hf.
        -- intros H k' d' Hin. apply H. by right.
    + rewrite IH. split.
      * intros H k' d' Hin Hget.
        apply elem_of_cons in Hin as [->|Hin]; [congruence|by eapply H].
      * intros H k' d' Hin. apply H. by right.
Qed.

(** The result of [validate_challenge] once the node and stake checks pass. *)
Lemma validate_challenge_after_checks self now challenge tree :
  ChallengeSubmission.target_node challenge
    ∈ ReasoningNode.id (ReasoningTree.root tree)
        :: map ReasoningNode.id (ReasoningTree.nodes tree) ->
  ReasoningTree.stake tree * MIN_CHALLENGE_STAKE_RATIO
    <= ChallengeSubmission.stake challenge ->
  validate_challenge self now challenge tree
  = if match ReasoningTree.submitted_at tree with
       | Some submitted =>
           bool_decide (now > submitted + timedelta_hours CHALLENGE_WINDOW_HOURS)%Z
       | None => false
       end
    then (false, Some ChallengeWindowClosed)
    else if has_active_challenge (disputes self)
              (ChallengeSubmission.target_node challenge)
              (default [] (tree_challenges self !! ReasoningTree.task_id tree))
         then (false, Some (AlreadyActiveChallenge
                              (ChallengeSubmission.target_node challenge)))
         else (true, None).
Proof.
  intros Hnode Hstake. unfold validate_challenge.
  rewrite bool_decide_eq_true_2 by done. cbn [negb].
  apply Qltb_ge in Hstake. by rewrite Hstake.
Qed.

(** C10.  When the tree carries no submission time, [validate_challenge]
    never answers that the challenge window has closed, whatever the clock
    reads; and it accepts the challenge as soon as the target node exists,
    the stake reaches the minimum and no unresolved dispute of the task
    targets the node. *)
Theorem no_submission_time_skips_window self now challenge tree :
  ReasoningTree.submitted_at tree = None ->
  validate_challenge self now challenge tree <> (false, Some ChallengeWindowClosed)
  /\ (ChallengeSubmission.target_node challenge
        ∈ ReasoningNode.id (ReasoningTree.root tree)
            :: map ReasoningNode.id (ReasoningTree.nodes tree) ->
      ReasoningTree.stake tree * MIN_CHALLENGE_STAKE_RATIO
        <= ChallengeSubmission.stake challenge ->
      no_active_challenge self (ReasoningTree.task_id tree)
        (ChallengeSubmission.target_node challenge) ->
      validate_challenge self now challenge tree = (true, None)).
Proof.
  intros Hnone. split.
  - unfold validate_challenge. rewrite Hnone.
    repeat match goal with |- context [if ?b then _ else _] => destruct b end;
      discriminate.
  - intros Hnode Hstake Hdup.
    rewrite validate_challenge_after_checks by done. rewrite Hnone.
    apply has_active_challenge_false in Hdup. by rewrite Hdup.
Qed.

(** *** The two windows at their boundary *)

Lemma create_dispute_stored self now challenge tree :
  let r := create_dispute self now challenge tree in
  get_dispute r.1 (Dispute.dispute_id r.2) = Some r.2
  /\ Dispute.status r.2 = PENDING_DEFENSE
  /\ Dispute.defense_deadline r.2
     = Some (now + timedelta_hours DEFENSE_WINDOW_HOURS)%Z.
Proof.
  cbn. split; [|done]. unfold get_dispute. cbn [disputes].
  apply PyDictFacts.get_set_eq.
Qed.

Lemma submit_defense_pending self now dispute_id d deadline defense :
  get_dispute self dispute_id = Some d ->
  Dispute.status d = PENDING_DEFENSE ->
  Dispute.defense_deadline d = Some deadline ->
  ((now <= deadline)%Z ->
   exists self' d',
     submit_defense self now dispute_id defense = Return (self', (true, None))
     /\ get_dispute self' dispute_id = Some d'
     /\ Dispute.status d' = PENDING_ADJUDICATION
     /\ Dispute.defense d' = Some defense)
  /\ ((deadline < now)%Z ->
      submit_defense self now dispute_id defense
      = Return (self, (false, Some DefenseWindowExpired))).
Proof.
  unfold get_dispute, submit_defense. intros -> Hst Hdl.
  rewrite Hst, Hdl. cbn [negb bool_decide]. rewrite bool_decide_eq_true_2 by done.
  cbn [negb]. split; intros Hnow.
  - rewrite bool_decide_eq_false_2 by lia.
    eexists _, _. split; [reflexivity|]. cbn [disputes].
    split; [apply PyDictFacts.get_set_eq|]. by destruct d.
  - by rewrite bool_decide_eq_true_2 by lia.
Qed.

(** C6, as the code has it.  Both windows include their last instant.  A
    challenge made exactly 6 hours after the tree's submission passes the
    window check, and is accepted when the node, stake and duplicate checks
    pass; it is rejected as window-closed only strictly later.  A defense
    made exactly 2 hours after the dispute was opened, that is at its
    deadline, is accepted and moves the dispute to pending-adjudication; it
    is rejected as expired only strictly later. *)
Theorem windows_include_their_boundary self challenge tree
    (submitted opened : datetime) defense :
  ReasoningTree.submitted_at tree = Some submitted ->
  ChallengeSubmission.target_node challenge
    ∈ ReasoningNode.id (ReasoningTree.root tree)
        :: map ReasoningNode.id (ReasoningTree.nodes tree) ->
  ReasoningTree.stake tree * MIN_CHALLENGE_STAKE_RATIO
    <= ChallengeSubmission.stake challenge ->
  no_active_challenge self (ReasoningTree.task_id tree)
    (ChallengeSubmission.target_node challenge) ->
  validate_challenge self (submitted + timedelta_hours 6)%Z challenge tree = (true, None)
  /\ (forall now, (submitted + timedelta_hours 6 < now)%Z ->
        validate_challenge self now challenge tree
        = (false, Some ChallengeWindowClosed))
  /\ (let self1 := (create_dispute self opened challenge tree).1 in
      let dispute_id :=
        Dispute.dispute_id (create_dispute self opened challenge tree).2 in
      (exists self2 d2,
          submit_defense self1 (opened + timedelta_hours 2)%Z dispute_id defense
          = Return (self2, (true, None))
          /\ get_dispute self2 dispute_id = Some d2
          /\ Dispute.status d2 = PENDING_ADJUDICATION
          /\ Dispute.defense d2 = Some defense)
      /\ (forall now, (opened + timedelta_hours 2 < now)%Z ->
            submit_defense self1 now dispute_id defense
            = Return (self1, (false, Some DefenseWindowExpired)))).
Proof.
  intros Hsub Hnode Hstake Hdup.
  apply has_active_challenge_false in Hdup.
  split; [|split].
  - rewrite validate_challenge_after_checks by done. rewrite Hsub, Hdup.
    unfold CHALLENGE_WINDOW_HOURS. by rewrite bool_decide_eq_false_2 by lia.
  - intros now Hnow. rewrite validate_challenge_after_checks by done.
    rewrite Hsub. unfold CHALLENGE_WINDOW_HOURS.
    by rewrite bool_decide_eq_true_2 by lia.
  - intros self1 dispute_id.
    destruct (create_dispute_stored self opened challenge tree) as (Hget & Hst & Hdl).
    split.
    + eapply submit_defense_pending; [exact Hget|exact Hst|exact Hdl|].
      unfold DEFENSE_WINDOW_HOURS. lia.
    + intros now Hnow.
      eapply submit_defense_pending; [exact Hget|exact Hst|exact Hdl|].
      unfold DEFENSE_WINDOW_HOURS. lia.
Qed.

(** *** Later operations on a resolved dispute *)

(** C7, as the code has it.  For a dispute that is resolved: a defense is
    refused and changes nothing; the expiry sweep, a resolve call on another
    dispute and the opening of a dispute under another identifier leave it as
    it was; a second resolve call on it with verdict abstain keeps its
    payouts and reputation deltas.  A second resolve call on it with verdict
    challenge-upheld, challenge-rejected or partial is not refused: it
    overwrites the four fields with the table row of the new verdict and
    confidence. *)
Theorem resolved_dispute_later_operations self dispute_id d :
  get_dispute self dispute_id = Some d ->
  Dispute.status d = RESOLVED ->
  (forall now defense,
      submit_defense self now dispute_id defense
      = Return (self, (false, Some (NotAcceptingDefenses RESOLVED))))
  /\ (forall now, get_dispute (check_expired_defenses self now).1 dispute_id = Some d)
  /\ (forall now other verdict c,
        other <> dispute_id ->
        get_dispute (resolve_dispute self now other verdict c).1 dispute_id = Some d)
  /\ (forall now challenge tree,
        Dispute.dispute_id (create_dispute self now challenge tree).2 <> dispute_id ->
        get_dispute (create_dispute self now challenge tree).1 dispute_id = Some d)
  /\ (forall now c,
        exists d',
          get_dispute (resolve_dispute self now dispute_id ABSTAIN c).1 dispute_id
          = Some d'
          /\ same_outcome d d')
  /\ (forall now verdict c r,
        Table.row_of verdict (Table.m (Dispute.attack_type d))
          (Dispute.proposer_stake d) (Dispute.challenger_stake d) c = Some r ->
        exists d',
          get_dispute (resolve_dispute self now dispute_id verdict c).1 dispute_id
          = Some d'
          /\ Table.settled d' r).
Proof.
  intros Hget Hst. repeat split.
  - intros now defense. unfold submit_defense. unfold get_dispute in Hget.
    by rewrite Hget, Hst.
  - intros now. unfold check_expired_defenses, get_dispute.
    pose proof (expire_items_get now (disputes self) dispute_id) as Hk.
    destruct (expire_items now (disputes self)) as [disputes' expired].
    cbn [fst disputes] in Hk |- *. unfold get_dispute in Hget.
    rewrite Hk, Hget. cbn. unfold defense_expired. by rewrite Hst.
  - intros now other verdict c Hne. unfold resolve_dispute, get_dispute.
    destruct (PyDict.get other (disputes self)); [|done].
    cbn [fst disputes]. by rewrite PyDictFacts.get_set_ne.
  - intros now challenge tree Hne. unfold get_dispute.
    cbn [create_dispute fst snd disputes Dispute.dispute_id] in Hne |- *.
    by rewrite PyDictFacts.get_set_ne.
  - intros now c.
    destruct (resolve_dispute_known self now dispute_id d ABSTAIN c Hget)
      as (self' & summary & Hres & Hget' & _).
    rewrite Hres. eexists. split; [exact Hget'|]. by destruct d.
  - intros now verdict c r Hrow.
    destruct (resolve_dispute_known self now dispute_id d verdict c Hget)
      as (self' & summary & Hres & Hget' & _).
    rewrite Hres. eexists. split; [exact Hget'|].
    by apply resolved_with_table.
Qed.

(** *** Concrete runs *)

Example opened_id : Dispute.dispute_id opened.2 = "disp_t1_1".
Proof. reflexivity. Qed.

Lemma sample_checks submitted_at :
  ChallengeSubmission.target_node sample_challenge
    ∈ ReasoningNode.id (ReasoningTree.root (sample_tree submitted_at))
        :: map ReasoningNode.id (ReasoningTree.nodes (sample_tree submitted_at))
  /\ ReasoningTree.stake (sample_tree submitted_at) * MIN_CHALLENGE_STAKE_RATIO
     <= ChallengeSubmission.stake sample_challenge
  /\ no_active_challenge init (ReasoningTree.task_id (sample_tree submitted_at))
       (ChallengeSubmission.target_node sample_challenge).
Proof.
  split; [by left|]. split; [by vm_compute|].
  intros k d Hin. by apply elem_of_nil in Hin.
Defined.

(** Scenario 1 of the specification: stake 100, contradiction, challenge
    stake 20, upheld with confidence 1. *)
Lemma resolve_dispute_table_witness :
  get_dispute opened.1 "disp_t1_1" = Some opened.2
  /\ Table.row_of CHALLENGE_UPHELD (Table.m (Dispute.attack_type opened.2))
       (Dispute.proposer_stake opened.2) (Dispute.challenger_stake opened.2) 1
     = Some (Table.upheld 3.0 100 20 1)
  /\ exists self' summary d',
       resolve_dispute opened.1 7%Z "disp_t1_1" CHALLENGE_UPHELD 1 = (self', inr summary)
       /\ get_dispute self' "disp_t1_1" = Some d'
       /\ Dispute.status d' = RESOLVED
       /\ Dispute.verdict d' = Some CHALLENGE_UPHELD
       /\ Table.settled d' (Table.upheld 3.0 100 20 1)
       /\ Table.reported summary (Table.upheld 3.0 100 20 1).
Proof.
  split; [reflexivity|]. split; [reflexivity|].
  exact (resolve_dispute_table opened.1 7%Z "disp_t1_1" opened.2 CHALLENGE_UPHELD 1
           (Table.upheld 3.0 100 20 1) eq_refl eq_refl).
Defined.

Example scenario_upheld :
  Table.challenger (Table.upheld 3 100 20 1) == 90
  /\ Table.proposer (Table.upheld 3 100 20 1) == -30.
Proof. by vm_compute. Qed.

Example scenario_rejected :
  Table.challenger (Table.rejected 2 200 40 0.8) == -16
  /\ Table.proposer (Table.rejected 2 200 40 0.8) == 9.6
  /\ Table.rep_proposer (Table.rejected 2 200 40 0.8) == 0.016
  /\ Table.rep_challenger (Table.rejected 2 200 40 0.8) == -0.04.
Proof. by vm_compute. Qed.

Example scenario_no_defense :
  Table.challenger (Table.no_defense 2.5 100 30) == 120
  /\ Table.proposer (Table.no_defense 2.5 100 30) == -45.
Proof. by vm_compute. Qed.

(** The dispute opened at instant 0 (contradiction, C = 20, P = 100) is not
    swept at its deadline, and is swept one second later with payouts
    20 * 3 + 45 and -45. *)
Example sweep_at_and_after_deadline :
  (check_expired_defenses opened.1 (0 + timedelta_hours 2)%Z).2 = []
  /\ exists self' d',
       check_expired_defenses opened.1 (0 + timedelta_hours 2 + 1000000)%Z
       = (self', ["disp_t1_1"])
       /\ get_dispute self' "disp_t1_1" = Some d'
       /\ Dispute.status d' = RESOLVED
       /\ Dispute.verdict d' = Some CHALLENGE_UPHELD
       /\ Dispute.challenger_payout d' == 105
       /\ Dispute.proposer_payout d' == -45
       /\ Dispute.proposer_reputation_delta d' == -0.15
       /\ Dispute.challenger_reputation_delta d' == 0.05.
Proof.
  split; [by vm_compute|]. eexists _, _.
  split; [by vm_compute|]. split; [by vm_compute|]. by vm_compute.
Qed.

Lemma no_submission_time_skips_window_witness :
  ReasoningTree.submitted_at (sample_tree None) = None
  /\ validate_challenge init 999999999999%Z sample_challenge (sample_tree None)
     <> (false, Some ChallengeWindowClosed)
  /\ validate_challenge init 999999999999%Z sample_challenge (sample_tree None)
     = (true, None).
Proof.
  split; [reflexivity|].
  destruct (no_submission_time_skips_window init 999999999999%Z sample_challenge
              (sample_tree None) eq_refl) as [Hne Hok].
  split; [exact Hne|].
  destruct (sample_checks None) as (H1 & H2 & H3). exact (Hok H1 H2 H3).
Defined.

(** C6 as stated fails: a challenge made exactly 6 hours after submission is
    accepted, and so is a defense made exactly 2 hours after the dispute was
    opened. *)
Lemma boundary_instants_are_accepted :
  validate_challenge init (0 + timedelta_hours 6)%Z sample_challenge
    (sample_tree (Some 0%Z))
  = (true, None)
  /\ exists self2,
       submit_defense opened.1 (0 + timedelta_hours 2)%Z "disp_t1_1" sample_defense
       = Return (self2, (true, None)).
Proof. split; [by vm_compute|]. eexists. by vm_compute. Qed.

Lemma windows_include_their_boundary_witness :
  ReasoningTree.submitted_at (sample_tree (Some 0%Z)) = Some 0%Z
  /\ validate_challenge init (0 + timedelta_hours 6)%Z sample_challenge
       (sample_tree (Some 0%Z))
     = (true, None)
  /\ validate_challenge init (0 + timedelta_hours 6 + 1)%Z sample_challenge
       (sample_tree (Some 0%Z))
     = (false, Some ChallengeWindowClosed).
Proof.
  split; [reflexivity|].
  destruct (sample_checks (Some 0%Z)) as (H1 & H2 & H3).
  destruct (windows_include_their_boundary init sample_challenge
              (sample_tree (Some 0%Z)) 0%Z 0%Z sample_defense eq_refl H1 H2 H3)
    as (Hat & Hafter & _).
  split; [exact Hat|]. apply Hafter. vm_compute. reflexivity.
Defined.

(** C7 as stated fails: the dispute of scenario 1 is resolved as upheld with
    confidence 1 (challenger payout 90), then resolved again as rejected
    with confidence 1; the stored challenger payout becomes -10. *)
Lemma second_resolve_overwrites :
  exists self1 s1 d1 self2 s2 d2,
    resolve_dispute opened.1 7%Z "disp_t1_1" CHALLENGE_UPHELD 1 = (self1, inr s1)
    /\ get_dispute self1 "disp_t1_1" = Some d1
    /\ resolve_dispute self1 8%Z "disp_t1_1" CHALLENGE_REJECTED 1 = (self2, inr s2)
    /\ get_dispute self2 "disp_t1_1" = Some d2
    /\ Dispute.challenger_payout d1 == 90
    /\ Dispute.challenger_payout d2 == -10
    /\ ~ Dispute.challenger_payout d2 == Dispute.challenger_payout d1
    /\ ~ Dispute.proposer_payout d2 == Dispute.proposer_payout d1.
Proof.
  eexists _, _, _, _, _, _.
  split; [by vm_compute|]. split; [by vm_compute|].
  split; [by vm_compute|]. split; [by vm_compute|].
  by vm_compute.
Qed.

Lemma resolved_dispute_later_operations_witness :
  exists d,
    get_dispute settled_once "disp_t1_1" = Some d
    /\ Dispute.status d = RESOLVED
    /\ (forall now defense,
          submit_defense settled_once now "disp_t1_1" defense
          = Return (settled_once, (false, Some (NotAcceptingDefenses RESOLVED))))
    /\ (forall now, get_dispute (check_expired_defenses settled_once now).1 "disp_t1_1"
                    = Some d).
Proof.
  eexists. split; [reflexivity|]. split; [reflexivity|].
  destruct (resolved_dispute_later_operations settled_once "disp_t1_1" _
              eq_refl eq_refl) as (H1 & H2 & _).
  split; [exact H1|exact H2].
Defined.

End ChallengeProofs.

(* ===================================================================== *)
(** * Properties of the consensus engine *)
(* ===================================================================== *)

Module ConsensusProofs.
Import Consensus ConsensusSamples.

Local Open Scope Q_scope.

Lemma py_max_Qmax a b : py_max a b == Qmax a b.
Proof.
  unfold py_max. destruct (Qltb a b) eqn:H.
  - apply ChallengeProofs.Qltb_lt in H. symmetry. apply Q.max_r. by apply Qlt_le_weak.
  - apply ChallengeProofs.Qltb_ge in H. symmetry. by apply Q.max_l.
Qed.

(** *** Registration *)

Lemma stake_required_at_least_scout tier :
  TierConfig.stake_required (TIER_CONFIG SCOUT)
  <= TierConfig.stake_required (TIER_CONFIG tier).
Proof. destruct tier; by vm_compute. Qed.

(** C5, as the code has it.  A registration whose stake reaches the
    requested tier's minimum (scout 100, auditor 500, arbiter 2000) is
    entered at the requested tier.  One whose stake is below that minimum
    but at least 100 is entered as a scout, whatever tier the stake would
    permit.  One whose stake is below 100 fails. *)
Theorem register_validator_tier self now hotkey stake tier :
  TierConfig.stake_required (TIER_CONFIG SCOUT) == 100
  /\ TierConfig.stake_required (TIER_CONFIG AUDITOR) == 500
  /\ TierConfig.stake_required (TIER_CONFIG ARBITER) == 2000
  /\ (TierConfig.stake_required (TIER_CONFIG tier) <= stake ->
      exists self' v,
        register_validator self now hotkey stake tier = Return (self', v)
        /\ validators self' !! hotkey = Some v
        /\ ValidatorState.tier v = tier
        /\ ValidatorState.stake v = stake)
  /\ (stake < TierConfig.stake_required (TIER_CONFIG tier) -> 100 <= stake ->
      exists self' v,
        register_validator self now hotkey stake tier = Return (self', v)
        /\ validators self' !! hotkey = Some v
        /\ ValidatorState.tier v = SCOUT
        /\ ValidatorState.stake v = stake)
  /\ (stake < 100 ->
      register_validator self now hotkey stake tier = Raise ValueError).
Proof.
  split; [done|]. split; [done|]. split; [done|].
  unfold register_validator. split; [|split].
  - intros Hge. apply ChallengeProofs.Qltb_ge in Hge. rewrite Hge.
    eexists _, _. split; [reflexivity|]. cbn. by rewrite lookup_insert_eq.
  - intros Hlt Hscout. apply ChallengeProofs.Qltb_lt in Hlt. rewrite Hlt.
    assert (Qltb stake (TierConfig.stake_required (TIER_CONFIG SCOUT)) = false) as ->.
    { by apply ChallengeProofs.Qltb_ge. }
    eexists _, _. split; [reflexivity|]. cbn. by rewrite lookup_insert_eq.
  - intros Hlt.
    assert (stake < TierConfig.stake_required (TIER_CONFIG SCOUT)) as Hs by done.
    assert (stake < TierConfig.stake_required (TIER_CONFIG tier)) as Ht.
    { eapply Qlt_le_trans; [exact Hs|apply stake_required_at_least_scout]. }
    apply ChallengeProofs.Qltb_lt in Hs, Ht. by rewrite Ht, Hs.
Qed.

(** C5 as stated fails: a stake of 600 asking for arbiter is entered as a
    scout, although it would permit auditor. *)
Lemma stake_600_arbiter_is_scout :
  exists self' v,
    register_validator (init 0%Z) 0%Z "v" 600 ARBITER = Return (self', v)
    /\ ValidatorState.tier v = SCOUT
    /\ ValidatorState.tier v <> AUDITOR
    /\ TierConfig.stake_required (TIER_CONFIG AUDITOR) <= 600.
Proof. eexists _, _. split; [by vm_compute|]. by vm_compute. Qed.

Lemma register_validator_tier_witness :
  600 < TierConfig.stake_required (TIER_CONFIG ARBITER)
  /\ 100 <= 600
  /\ exists self' v,
       register_validator (init 0%Z) 0%Z "v" 600 ARBITER = Return (self', v)
       /\ validators self' !! "v" = Some v
       /\ ValidatorState.tier v = SCOUT
       /\ ValidatorState.stake v = 600.
Proof.
  assert (600 < TierConfig.stake_required (TIER_CONFIG ARBITER)) as H1
    by (by vm_compute).
  assert (100 <= 600) as H2 by (by vm_compute).
  split; [exact H1|]. split; [exact H2|].
  destruct (register_validator_tier (init 0%Z) 0%Z "v" 600 ARBITER)
    as (_ & _ & _ & _ & Hdemoted & _).
  exact (Hdemoted H1 H2).
Defined.

(** *** The calibration decay sweep *)

Lemma decay_of_positive days : (days > 7)%Z -> 0 < decay_of days.
Proof.
  intros Hd. unfold decay_of, CALIBRATION_DECAY_PER_EPOCH.
  assert (1 <= days / 7)%Z as H1 by (apply Z.div_le_lower_bound; lia).
  assert (1 <= inject_Z (days / 7)) as H2.
  { change 1 with (inject_Z 1). by rewrite <- Zle_Qle. }
  lra.
Qed.

Lemma decay_validator_score now v :
  let days := timedelta_days now (ValidatorState.last_active v) in
  ValidatorState.last_active (decay_validator now v) = ValidatorState.last_active v
  /\ ((days <= 7)%Z -> decay_validator now v = v)
  /\ ((days > 7)%Z ->
      ValidatorState.calibration_score (decay_validator now v)
      == Qmax 0.5 (ValidatorState.calibration_score v - decay_of days)).
Proof.
  intros days. unfold decay_validator. fold days. case_bool_decide as Hd.
  - split; [by destruct v|]. split; [lia|]. intros _.
    destruct v. cbn. apply py_max_Qmax.
  - split; [done|]. split; [done|lia].
Qed.

(** C8, as the code has it.  Two sweeps at the same instant subtract the
    decay twice.  A validator inactive for at most 7 whole days keeps its
    score through both.  For one inactive longer, with
    [decay = 0.02 * floor(days_inactive / 7)], the score after one sweep is
    [max(0.5, score - decay)] and after two is [max(0.5, that - decay)].  The
    second sweep leaves the score where the first put it exactly when the
    validator was inactive for at most 7 days or the first sweep already put
    it on the 0.5 floor. *)
Theorem decay_sweep_twice self now hotkey v :
  validators self !! hotkey = Some v ->
  let days := timedelta_days now (ValidatorState.last_active v) in
  exists v1 v2,
    validators (apply_calibration_decay self now) !! hotkey = Some v1
    /\ validators (apply_calibration_decay (apply_calibration_decay self now) now)
         !! hotkey = Some v2
    /\ ((days <= 7)%Z -> v1 = v /\ v2 = v)
    /\ ((days > 7)%Z ->
        ValidatorState.calibration_score v1
        == Qmax 0.5 (ValidatorState.calibration_score v - decay_of days)
        /\ ValidatorState.calibration_score v2
           == Qmax 0.5 (ValidatorState.calibration_score v1 - decay_of days))
    /\ (ValidatorState.calibration_score v2 == ValidatorState.calibration_score v1
        <-> (days <= 7)%Z \/ ValidatorState.calibration_score v1 == 0.5).
Proof.
  intros Hv days.
  exists (decay_validator now v), (decay_validator now (decay_validator now v)).
  cbn [apply_calibration_decay validators].
  rewrite !lookup_fmap, Hv. cbn [fmap option_fmap option_map].
  split; [done|]. split; [done|].
  destruct (decay_validator_score now v) as (Hla & Hle & Hgt). fold days in Hle, Hgt.
  destruct (decay_validator_score now (decay_validator now v)) as (_ & Hle2 & Hgt2).
  rewrite Hla in Hle2, Hgt2. fold days in Hle2, Hgt2.
  split; [|split].
  - intros Hd. rewrite (Hle Hd) in Hle2 |- *. by rewrite (Hle2 Hd).
  - intros Hd. split; [by apply Hgt|by apply Hgt2].
  - destruct (decide (days <= 7)%Z) as [Hd|Hd].
    + rewrite (Hle Hd) in Hle2 |- *. rewrite (Hle2 Hd). split; [by left|done].
    + assert (days > 7)%Z as Hd' by lia.
      specialize (Hgt Hd'). specialize (Hgt2 Hd').
      pose proof (decay_of_positive days Hd') as Hpos.
      set (s := ValidatorState.calibration_score v) in *.
      set (s1 := ValidatorState.calibration_score (decay_validator now v)) in *.
      set (s2 := ValidatorState.calibration_score
                   (decay_validator now (decay_validator now v))) in *.
      destruct (Q.max_spec 0.5 (s - decay_of days)) as [[? E1]|[? E1]];
        destruct (Q.max_spec 0.5 (s1 - decay_of days)) as [[? E2]|[? E2]];
        rewrite E1 in Hgt; rewrite E2 in Hgt2;
        (split; [intros Heq; right; lra | intros [?|Heq]; [lia|lra]]).
Qed.

(** C8 as stated fails: for a validator last active 21 days ago with score
    1.0, one sweep gives 0.94 and a second sweep at the same instant gives
    0.88. *)
Lemma second_sweep_decays_again :
  exists v1 v2,
    validators (apply_calibration_decay one_scout day21) !! "v" = Some v1
    /\ validators (apply_calibration_decay (apply_calibration_decay one_scout day21) day21)
         !! "v" = Some v2
    /\ ValidatorState.calibration_score v1 == 0.94
    /\ ValidatorState.calibration_score v2 == 0.88
    /\ ~ ValidatorState.calibration_score v2 == ValidatorState.calibration_score v1.
Proof.
  eexists _, _. split; [by vm_compute|]. split; [by vm_compute|]. by vm_compute.
Qed.

Lemma decay_sweep_twice_witness :
  exists v v1 v2,
    validators one_scout !! "v" = Some v
    /\ validators (apply_calibration_decay one_scout day21) !! "v" = Some v1
    /\ validators (apply_calibration_decay (apply_calibration_decay one_scout day21) day21)
         !! "v" = Some v2
    /\ (ValidatorState.calibration_score v2 == ValidatorState.calibration_score v1
        <-> (timedelta_days day21 (ValidatorState.last_active v) <= 7)%Z
            \/ ValidatorState.calibration_score v1 == 0.5).
Proof.
  eexists.
  destruct (decay_sweep_twice one_scout day21 "v" _ eq_refl)
    as (v1 & v2 & H1 & H2 & _ & _ & H3).
  exists v1, v2. split; [reflexivity|]. split; [exact H1|]. split; [exact H2|exact H3].
Defined.

(** *** The tally *)

Lemma add_weight_weights_of k w a b c d :
  exists a' b' c' d',
    add_weight k w (weights_of a b c d) = weights_of a' b' c' d'
    /\ a' == a + contribution k CHALLENGE_UPHELD w
    /\ b' == b + contribution k CHALLENGE_REJECTED w
    /\ c' == c + contribution k PARTIAL w
    /\ d' == d + contribution k ABSTAIN w.
Proof.
  destruct k; eexists _, _, _, _; (split; [vm_compute add_weight; reflexivity|]);
    unfold contribution; repeat case_bool_decide; try done; repeat split; ring.
Qed.

(** The loop of [calculate_consensus] computes the four tallies and their
    sum. *)
Lemma tally_loop vs votes : forall a b c d t,
  exists a' b' c' d' t',
    foldl (tally_vote vs) (weights_of a b c d, t) votes = (weights_of a' b' c' d', t')
    /\ a' == a + tally vs votes CHALLENGE_UPHELD
    /\ b' == b + tally vs votes CHALLENGE_REJECTED
    /\ c' == c + tally vs votes PARTIAL
    /\ d' == d + tally vs votes ABSTAIN
    /\ t' == t + total vs votes.
Proof.
  induction votes as [|vote votes IH]; intros a b c d t.
  - exists a, b, c, d, t. split; [done|]. unfold total. cbn. repeat split; ring.
  - cbn [foldl]. unfold tally_vote at 2.
    unfold total. cbn [tally]. unfold vote_weight.
    destruct (vs !! Vote.validator_hotkey vote) as [validator|].
    + set (w := ValidatorState.effective_weight validator * Vote.confidence vote).
      destruct (add_weight_weights_of (Vote.verdict vote) w a b c d)
        as (a1 & b1 & c1 & d1 & E & Ha & Hb & Hc & Hd).
      rewrite E.
      destruct (IH a1 b1 c1 d1 (t + w))
        as (a' & b' & c' & d' & t' & Hf & Ha' & Hb' & Hc' & Hd' & Ht').
      exists a', b', c', d', t'. split; [done|].
      unfold total in Ht'. unfold contribution in *.
      destruct (Vote.verdict vote);
        repeat case_bool_decide; try congruence; repeat split; lra.
    + destruct (IH a b c d t)
        as (a' & b' & c' & d' & t' & Hf & Ha' & Hb' & Hc' & Hd' & Ht').
      exists a', b', c', d', t'. split; [done|].
      unfold total in Ht'.
      repeat case_bool_decide; try congruence; repeat split; lra.
Qed.

(** [max] over the four items: a largest entry, and the first such. *)
Lemma max_by_weight_weights_of a b c d :
  exists w,
    max_by_weight (weights_of a b c d) = Some w
    /\ w.2 = entry a b c d w.1
    /\ (forall v, entry a b c d v <= entry a b c d w.1)
    /\ (forall v, (declaration_order v < declaration_order w.1)%nat ->
          entry a b c d v < entry a b c d w.1).
Proof.
  unfold max_by_weight, weights_of. cbn [max_from snd].
  destruct (Qltb a b) eqn:H1; cbn [snd];
    [destruct (Qltb b c) eqn:H2|destruct (Qltb a c) eqn:H2]; cbn [snd];
    match goal with
    | |- context [Qltb ?x d] => destruct (Qltb x d) eqn:H3
    end;
    repeat match goal with
    | H : Qltb _ _ = true |- _ => apply ChallengeProofs.Qltb_lt in H
    | H : Qltb _ _ = false |- _ => apply ChallengeProofs.Qltb_ge in H
    end;
    (eexists; split; [reflexivity|]; cbn [fst snd entry];
     split; [reflexivity|];
     split; intros v; destruct v; cbn [entry declaration_order]; intros; try lia; lra).
Qed.

(** *** A concrete panel *)

(** Scenario 4 of the specification: shares 0.4, 0.35 and 0.25; upheld wins
    with 0.4 and consensus is not reached. *)
Example split_panel_result :
  exists r,
    calculate_consensus (panel split_votes) "d1" = Some r
    /\ ConsensusResult.final_verdict r = CHALLENGE_UPHELD
    /\ ConsensusResult.weighted_score r == 0.4
    /\ ConsensusResult.total_weight r == 1000
    /\ ConsensusResult.consensus_reached r = false.
Proof. eexists. split; [by vm_compute|]. by vm_compute. Qed.

(** Equal shares: the verdict declared first wins. *)
Example tie_goes_to_first_declared :
  exists r,
    calculate_consensus
      (panel [ballot "c" PARTIAL; ballot "c" CHALLENGE_REJECTED]) "d1" = Some r
    /\ ConsensusResult.final_verdict r = CHALLENGE_REJECTED
    /\ ConsensusResult.weighted_score r == 0.5.
Proof. eexists. split; [by vm_compute|]. by vm_compute. Qed.

End ConsensusProofs.

(* ===================================================================== *)
(** * Properties of the binary64 embedding *)
(* ===================================================================== *)

Module Binary64Proofs.
Import PrimFloat Binary64 Binary64Samples.

Local Open Scope float_scope.

(** *** The order of the doubles *)

Lemma SFltb_key x y :
  x <> SpecFloat.S754_nan -> y <> SpecFloat.S754_nan ->
  SpecFloat.SFltb x y = true <-> lex_lt (key x) (key y).
Proof.
  intros Hx Hy. unfold SpecFloat.SFltb, lex_lt.
  destruct x as [sx|sx| |sx mx ex], y as [sy|sy| |sy my ey]; try done;
    try destruct sx; try destruct sy; cbn.
  all: try (split; [done|lia]).
  all: try (split; [lia|done]).
  - rewrite Pos.compare_cont_spec.
    destruct (Z.compare_spec ex ey); cbn; [|split; [done|lia]|split; [lia|done]].
    destruct (Pos.compare_spec mx my); cbn; split; try done; lia.
  - rewrite Pos.compare_cont_spec.
    destruct (Z.compare_spec ex ey); cbn; [|split; [lia|done]|split; [done|lia]].
    destruct (Pos.compare_spec mx my); cbn; split; try done; lia.
Qed.

Lemma is_nan_false x : is_nan x = false -> FloatOps.Prim2SF x <> SpecFloat.S754_nan.
Proof.
  unfold is_nan. rewrite FloatAxioms.eqb_spec. intros H E. rewrite E in H. done.
Qed.

(** On doubles that are not NaN, [<?] is the strict order of the keys. *)
Lemma ltb_key x y :
  is_nan x = false -> is_nan y = false ->
  (x <? y) = true <-> lex_lt (key (FloatOps.Prim2SF x)) (key (FloatOps.Prim2SF y)).
Proof.
  intros Hx Hy. rewrite FloatAxioms.ltb_spec.
  apply SFltb_key; by apply is_nan_false.
Qed.

Lemma ltb_key_false x y :
  is_nan x = false -> is_nan y = false ->
  (x <? y) = false <-> ~ lex_lt (key (FloatOps.Prim2SF x)) (key (FloatOps.Prim2SF y)).
Proof.
  intros Hx Hy. rewrite <- (ltb_key x y Hx Hy). by destruct (x <? y).
Qed.

Lemma is_nan_true x : is_nan x = true -> FloatOps.Prim2SF x = SpecFloat.S754_nan.
Proof.
  unfold is_nan. rewrite FloatAxioms.eqb_spec. unfold SpecFloat.SFeqb.
  destruct (FloatOps.Prim2SF x) as [s|s| |s m e]; try done; try (by destruct s).
  cbn. rewrite Z.compare_refl, Pos.compare_cont_refl. by destruct s.
Qed.

(** A NaN is below nothing and nothing is below it. *)
Lemma ltb_nan x y : is_nan x = true \/ is_nan y = true -> (x <? y) = false.
Proof.
  rewrite FloatAxioms.ltb_spec. unfold SpecFloat.SFltb.
  intros [H|H]; apply is_nan_true in H; rewrite H; [done|].
  by destruct (FloatOps.Prim2SF x) as [s|s| |s m e]; try destruct s.
Qed.

(** *** The expired-defense sweep *)





(** *** The tally *)

Lemma tally_vote_weights_of vs a b c d t vote :
  tally_vote vs (weights_of a b c d, t) vote
  = (weights_of (tally_from vs CHALLENGE_UPHELD a [vote])
                (tally_from vs CHALLENGE_REJECTED b [vote])
                (tally_from vs PARTIAL c [vote])
                (tally_from vs ABSTAIN d [vote]),
     total_from vs t [vote]).
Proof.
  unfold tally_vote, tally_from, total_from, vote_weight. cbn [foldl].
  destruct (vs !! Vote.validator_hotkey vote) as [validator|]; [|done].
  by destruct (Vote.verdict vote).
Qed.

(** The loop of [calculate_consensus] computes the four per-verdict sums and
    the total, each added up in vote order. *)
Lemma tally_loop_binary64 vs votes : forall a b c d t,
  foldl (tally_vote vs) (weights_of a b c d, t) votes
  = (weights_of (tally_from vs CHALLENGE_UPHELD a votes)
                (tally_from vs CHALLENGE_REJECTED b votes)
                (tally_from vs PARTIAL c votes)
                (tally_from vs ABSTAIN d votes),
     total_from vs t votes).
Proof.
  induction votes as [|vote votes IH]; intros a b c d t; [done|].
  cbn [foldl]. rewrite tally_vote_weights_of, IH. done.
Qed.

(** [max] over the four items returns one of them: no weight compares
    greater than the winner's, and every verdict declared before the winner
    has a strictly smaller weight, unless that weight is NaN. *)
Lemma max_by_weight_binary64 (s : Verdict -> float) :
  exists w,
    max_by_weight (weights_of (s CHALLENGE_UPHELD) (s CHALLENGE_REJECTED)
                              (s PARTIAL) (s ABSTAIN)) = Some (w, s w)
    /\ forall v,
         (s w <? s v) = false
         /\ ((Consensus.declaration_order v < Consensus.declaration_order w)%nat ->
             (s v <? s w) = true \/ is_nan (s v) = true).
Proof.
  unfold max_by_weight, weights_of. cbn [max_from snd].
  destruct (is_nan (s CHALLENGE_UPHELD)) eqn:Na,
           (is_nan (s CHALLENGE_REJECTED)) eqn:Nb,
           (is_nan (s PARTIAL)) eqn:Nc,
           (is_nan (s ABSTAIN)) eqn:Nd;
    repeat match goal with
    | |- context [if ?x <? ?y then _ else _] =>
        first
          [ rewrite (ltb_nan x y) by (by left)
          | rewrite (ltb_nan x y) by (by right)
          | let H := fresh "H" in
            destruct (x <? y) eqn:H;
            [apply ltb_key in H; [|assumption..]
            |apply ltb_key_false in H; [|assumption..]] ];
        cbn [snd]
    end;
    (eexists; split; [reflexivity|]; intros v; destruct v; (split; [|intros Hv]);
     cbn [Consensus.declaration_order] in *;
     first
       [ lia
       | by apply ltb_nan; left
       | by apply ltb_nan; right
       | by right
       | apply ltb_key_false; [assumption..|]; unfold lex_lt in *; lia
       | left; apply ltb_key; [assumption..|]; unfold lex_lt in *; lia ]).
Qed.

(** C3.  For a dispute in flight the tally adds, per verdict and in total,
    the weights effective weight * confidence of the votes of registered
    validators, in vote order, every operation being the binary64 one.  With
    no vote the result is abstain with score 0, total 0 and an empty
    breakdown; when the total compares equal to 0 it is abstain with score 0
    and total 0, the breakdown holds the four per-verdict sums, and consensus
    is not reached.  Otherwise the breakdown lists the four verdicts with
    their shares sum / total, the final verdict is one whose share no other
    share exceeds, every verdict declared before it has a strictly smaller
    share (or one that is NaN), the score is the share of the final verdict,
    and consensus is reached exactly when that share is at least 0.6, the
    double that is 5404319552844595 / 2^53. *)
Theorem calculate_consensus_binary64 self dispute_id ds :
  active_disputes self !! dispute_id = Some ds ->
  let vs := validators self in
  let votes := default [] (dispute_votes self !! dispute_id) in
  exists r,
    calculate_consensus self dispute_id = Some r
    /\ ConsensusResult.dispute_id r = dispute_id
    /\ ConsensusResult.participating_validators r = map Vote.validator_hotkey votes
    /\ ConsensusResult.consensus_reached r
       = (CONSENSUS_THRESHOLD <=? ConsensusResult.weighted_score r)
    /\ (exact CONSENSUS_THRESHOLD == 5404319552844595 # 9007199254740992)%Q
    /\ (votes = [] ->
        ConsensusResult.final_verdict r = ABSTAIN
        /\ ConsensusResult.weighted_score r = 0
        /\ ConsensusResult.total_weight r = 0
        /\ ConsensusResult.vote_breakdown r = []
        /\ ConsensusResult.consensus_reached r = false)
    /\ (votes <> [] -> (total vs votes =? 0) = true ->
        ConsensusResult.final_verdict r = ABSTAIN
        /\ ConsensusResult.weighted_score r = 0
        /\ ConsensusResult.total_weight r = 0
        /\ ConsensusResult.vote_breakdown r
           = weights_of (tally vs votes CHALLENGE_UPHELD)
                        (tally vs votes CHALLENGE_REJECTED)
                        (tally vs votes PARTIAL) (tally vs votes ABSTAIN)
        /\ ConsensusResult.consensus_reached r = false)
    /\ (votes <> [] -> (total vs votes =? 0) = false ->
        ConsensusResult.total_weight r = total vs votes
        /\ ConsensusResult.vote_breakdown r
           = weights_of (share vs votes CHALLENGE_UPHELD)
                        (share vs votes CHALLENGE_REJECTED)
                        (share vs votes PARTIAL) (share vs votes ABSTAIN)
        /\ ConsensusResult.weighted_score r
           = share vs votes (ConsensusResult.final_verdict r)
        /\ ConsensusResult.consensus_reached r
           = (0.6 <=? share vs votes (ConsensusResult.final_verdict r))
        /\ forall v,
             (share vs votes (ConsensusResult.final_verdict r) <? share vs votes v)
             = false
             /\ ((Consensus.declaration_order v
                  < Consensus.declaration_order (ConsensusResult.final_verdict r))%nat ->
                 (share vs votes v <? share vs votes (ConsensusResult.final_verdict r))
                 = true
                 \/ is_nan (share vs votes v) = true)).
Proof.
  intros Hds vs votes. unfold calculate_consensus. rewrite Hds.
  fold votes. fold vs.
  assert (exact CONSENSUS_THRESHOLD == 5404319552844595 # 9007199254740992)%Q
    as Hthr by (by vm_compute).
  destruct votes as [|vote0 rest] eqn:Hvotes.
  { eexists. split; [reflexivity|]. do 4 (split; [done|]).
    split; [intros _; by vm_compute|]. by split. }
  rewrite <- Hvotes.
  change zero_weights with (weights_of 0 0 0 0). rewrite tally_loop_binary64.
  fold (tally vs votes CHALLENGE_UPHELD) (tally vs votes CHALLENGE_REJECTED)
       (tally vs votes PARTIAL) (tally vs votes ABSTAIN) (total vs votes).
  destruct (total vs votes =? 0) eqn:Hz.
  - eexists. split; [reflexivity|]. do 4 (split; [done|]).
    split; [by rewrite Hvotes|]. split; [|done].
    intros _ _. cbn. repeat split; by vm_compute.
  - cbn [map weights_of].
    change [(CHALLENGE_UPHELD, tally vs votes CHALLENGE_UPHELD / total vs votes);
            (CHALLENGE_REJECTED, tally vs votes CHALLENGE_REJECTED / total vs votes);
            (PARTIAL, tally vs votes PARTIAL / total vs votes);
            (ABSTAIN, tally vs votes ABSTAIN / total vs votes)]
      with (weights_of (share vs votes CHALLENGE_UPHELD)
                       (share vs votes CHALLENGE_REJECTED)
                       (share vs votes PARTIAL) (share vs votes ABSTAIN)).
    destruct (max_by_weight_binary64 (share vs votes)) as (w & Hw & Hmax).
    rewrite Hw. eexists. split; [reflexivity|]. do 4 (split; [done|]).
    split; [by rewrite Hvotes|]. split; [done|].
    intros _ _. cbn [ConsensusResult.total_weight ConsensusResult.vote_breakdown
                      ConsensusResult.weighted_score ConsensusResult.final_verdict
                      fst snd].
    do 4 (split; [done|]). exact Hmax.
Qed.

(** The computed tally is not the exact one.  With weights [2^53] for upheld
    and [2^53], [1] for rejected the exact sum of rejected is the larger,
    while the computed sums are equal and upheld, declared first, wins.  With
    weights [1800000000000001] for upheld and [1200000000000001] for
    rejected the exact quotient is below 3/5 and below the double 0.6, while
    the computed share is that double and consensus is reached. *)
Lemma rounded_tally_departs_from_exact :
  (exists r,
     calculate_consensus rounded_tie "d1" = Some r
     /\ ConsensusResult.final_verdict r = CHALLENGE_UPHELD
     /\ ConsensusResult.weighted_score r = 0.5
     /\ (exact_tally (validators rounded_tie)
           (default [] (dispute_votes rounded_tie !! "d1")) CHALLENGE_UPHELD
         < exact_tally (validators rounded_tie)
             (default [] (dispute_votes rounded_tie !! "d1")) CHALLENGE_REJECTED)%Q)
  /\ (exists r,
        calculate_consensus rounded_threshold "d1" = Some r
        /\ ConsensusResult.final_verdict r = CHALLENGE_UPHELD
        /\ ConsensusResult.weighted_score r = 0.6
        /\ ConsensusResult.consensus_reached r = true
        /\ (exact_share (validators rounded_threshold)
              (default [] (dispute_votes rounded_threshold !! "d1")) CHALLENGE_UPHELD
            < 3 # 5)%Q
        /\ (exact_share (validators rounded_threshold)
              (default [] (dispute_votes rounded_threshold !! "d1")) CHALLENGE_UPHELD
            < exact 0.6)%Q).
Proof.
  split.
  - eexists. split; [vm_compute; reflexivity|]. repeat split; by vm_compute.
  - eexists. split; [vm_compute; reflexivity|]. repeat split; by vm_compute.
Qed.

(** Scenario 4 of the specification: upheld wins with the computed share
    0.4 and consensus is not reached. *)
Lemma calculate_consensus_binary64_witness :
  exists r,
    calculate_consensus split_panel "d1" = Some r
    /\ ConsensusResult.total_weight r = 1000
    /\ ConsensusResult.final_verdict r = CHALLENGE_UPHELD
    /\ ConsensusResult.weighted_score r
       = share (validators split_panel)
           (default [] (dispute_votes split_panel !! "d1"))
           (ConsensusResult.final_verdict r)
    /\ ConsensusResult.consensus_reached r = false.
Proof.
  destruct (calculate_consensus_binary64 split_panel "d1" _ eq_refl)
    as (r & Hr & _ & _ & Hreach & _ & _ & _ & Hnz).
  exists r. split; [exact Hr|].
  destruct (Hnz ltac:(done) ltac:(by vm_compute)) as (Htot & _ & Hscore & _).
  split; [rewrite Htot; by vm_compute|].
  assert (ConsensusResult.final_verdict r = CHALLENGE_UPHELD) as Hv.
  { vm_compute in Hr. by injection Hr as <-. }
  split; [exact Hv|]. split; [exact Hscore|].
  rewrite Hreach, Hscore, Hv. by vm_compute.
Defined.

End Binary64Proofs.

(* ===================================================================== *)
(** * Further properties of the commitment engine *)
(* ===================================================================== *)

Module MerkleExtras.
Import Merkle MerkleSamples.

Section Proofs.

Variable sha256_hexdigest : string -> string.
Variable json_dumps : ReasoningNode.t -> string.

Local Abbreviation hash_node := (Merkle.hash_node sha256_hexdigest json_dumps).
Local Abbreviation combine_hashes := (Merkle.combine_hashes sha256_hexdigest).
Local Abbreviation verify_step := (Merkle.verify_step sha256_hexdigest).
Local Abbreviation verify_proof := (Merkle.verify_proof sha256_hexdigest json_dumps).
Local Abbreviation parents := (Merkle.parents sha256_hexdigest).
Local Abbreviation build_tree_fuel := (Merkle.build_tree_fuel sha256_hexdigest).
Local Abbreviation _build_tree := (Merkle._build_tree sha256_hexdigest).
Local Abbreviation well_formed := (Merkle.well_formed sha256_hexdigest).
Local Abbreviation collision := (Merkle.collision sha256_hexdigest).
Local Abbreviation build_from_reasoning_tree :=
  (Merkle.build_from_reasoning_tree sha256_hexdigest json_dumps).
Local Abbreviation create_merkle_commitment :=
  (Merkle.create_merkle_commitment sha256_hexdigest json_dumps).
Local Abbreviation leaf_of := (Merkle.leaf_of sha256_hexdigest json_dumps).
Local Abbreviation _verify_merkle :=
  (Neurons._verify_merkle sha256_hexdigest json_dumps).

(** *** Where a search can succeed *)

Lemma find_and_prove_node_occurs node_id target t p0 :
  (find_and_prove_node node_id target t p0).1 = true ->
  occurs node_id target t.
Proof.
  revert p0. induction t as [h d l r IHl IHr] using MerkleNode_rect'.
  intros p0. cbn [find_and_prove_node hash data_id left right occurs].
  destruct (bool_decide (h = target) && bool_decide (d = Some node_id)) eqn:Hm.
  - intros _. left. apply andb_prop in Hm as [Hh Hd].
    by apply bool_decide_eq_true in Hh, Hd.
  - destruct l as [ln|].
    + specialize (IHl ln eq_refl p0).
      destruct (find_and_prove_node node_id target ln p0) as [[|] p1].
      * intros _. right. left. by apply IHl.
      * destruct r as [rn|]; [|done].
        specialize (IHr rn eq_refl p1).
        destruct (find_and_prove_node node_id target rn p1) as [[|] p2]; [|done].
        intros _. right. right. by apply IHr.
    + destruct r as [rn|]; [|done].
      specialize (IHr rn eq_refl p0).
      destruct (find_and_prove_node node_id target rn p0) as [[|] p2]; [|done].
      intros _. right. right. by apply IHr.
Qed.

Lemma find_and_prove_node_failed node_id target t p0 :
  (find_and_prove_node node_id target t p0).1 = false ->
  (find_and_prove_node node_id target t p0).2 = p0.
Proof.
  revert p0. induction t as [h d l r IHl IHr] using MerkleNode_rect'.
  intros p0. cbn [find_and_prove_node hash data_id left right].
  destruct (bool_decide (h = target) && bool_decide (d = Some node_id)); [done|].
  destruct l as [ln|].
  - specialize (IHl ln eq_refl p0).
    destruct (find_and_prove_node node_id target ln p0) as [[|] p1]; [done|].
    cbn in IHl. rewrite (IHl eq_refl).
    destruct r as [rn|]; [|done].
    specialize (IHr rn eq_refl p0).
    destruct (find_and_prove_node node_id target rn p0) as [[|] p2]; [done|].
    intros _. by apply IHr.
  - destruct r as [rn|]; [|done].
    specialize (IHr rn eq_refl p0).
    destruct (find_and_prove_node node_id target rn p0) as [[|] p2]; [done|].
    intros _. by apply IHr.
Qed.

Lemma pad_subseteq ns x : x ∈ pad ns -> x ∈ ns.
Proof.
  unfold pad. destruct (length ns mod 2 =? 1)%nat; [|done].
  destruct (last ns) as [y|] eqn:Hlast; [|done].
  intros [Hx|Hx]%elem_of_app; [done|].
  apply list_elem_of_singleton in Hx as ->. by apply last_Some_elem_of.
Qed.

Lemma parents_occurs_inv node_id target ns :
  Exists (occurs node_id target) (parents ns) ->
  Exists (occurs node_id target) ns.
Proof.
  induction ns as [|x|x y l IH] using MerkleProofs.list_pair_ind.
  - done.
  - cbn. intros H. by apply Exists_nil in H.
  - cbn [Merkle.parents]. intros [Hp|Hrest]%Exists_cons.
    + cbn in Hp. destruct Hp as [[_ ?]|[Hx|Hy]]; [done|..].
      * by apply Exists_cons_hd.
      * by apply Exists_cons_tl, Exists_cons_hd.
    + by apply Exists_cons_tl, Exists_cons_tl, IH.
Qed.

Lemma build_tree_fuel_occurs_inv node_id target fuel ns r :
  build_tree_fuel fuel ns = Some r ->
  occurs node_id target r ->
  Exists (occurs node_id target) ns.
Proof.
  revert ns. induction fuel as [|fuel IH]; intros ns Hb Hocc; [done|].
  cbn [Merkle.build_tree_fuel] in Hb.
  destruct (Nat.eqb_spec (length ns) 1) as [H1|H1].
  - destruct ns as [|x [|y ns]]; try done. injection Hb as <-.
    by apply Exists_cons_hd.
  - specialize (IH _ Hb Hocc). apply parents_occurs_inv in IH.
    apply Exists_exists in IH as (x & Hx & Hox).
    apply Exists_exists. exists x. split; [by apply pad_subseteq|done].
Qed.

Lemma build_tree_fuel_mono fuel fuel' ns r :
  build_tree_fuel fuel ns = Some r -> (fuel <= fuel')%nat ->
  build_tree_fuel fuel' ns = Some r.
Proof.
  revert fuel' ns. induction fuel as [|fuel IH]; intros fuel' ns Hb Hle; [done|].
  destruct fuel' as [|fuel']; [lia|].
  cbn [Merkle.build_tree_fuel] in Hb |- *.
  destruct (length ns =? 1)%nat; [done|]. apply IH; [done|lia].
Qed.

(** The entry of an identifier after the loop over the nodes is the hash of
    the last node that carries it. *)
Lemma nodes_loop_last (ns : gmap string string) pre n post :
  ReasoningNode.id n ∉ map ReasoningNode.id post ->
  foldl (fun ns node => <[ReasoningNode.id node := hash_node node]> ns) ns
        (pre ++ n :: post)
    !! ReasoningNode.id n = Some (hash_node n).
Proof.
  intros Hpost. rewrite foldl_app. cbn [foldl].
  generalize (foldl (fun ns node => <[ReasoningNode.id node := hash_node node]> ns)
                ns pre). intros ns0.
  revert ns0. induction post as [|m post IH]; intros ns0; cbn [foldl].
  - apply lookup_insert_eq.
  - cbn [map] in Hpost. apply not_elem_of_cons in Hpost as [Hne Hpost].
    rewrite insert_insert_ne by done. by apply IH.
Qed.

Lemma nodes_loop_other (ns : gmap string string) rn k :
  k ∉ map ReasoningNode.id rn ->
  foldl (fun ns node => <[ReasoningNode.id node := hash_node node]> ns) ns rn !! k
  = ns !! k.
Proof.
  revert ns. induction rn as [|m rn IH]; intros ns Hk; [done|].
  cbn [map] in Hk. apply not_elem_of_cons in Hk as [Hne Hk].
  cbn [foldl]. rewrite IH by done. by rewrite lookup_insert_ne.
Qed.

(** *** Proofs bind the node hash *)

Lemma list_ascii_of_string_app a b :
  String.list_ascii_of_string (a +:+ b)
  = String.list_ascii_of_string a ++ String.list_ascii_of_string b.
Proof. induction a as [|c a IH]; simpl; [done|by f_equal]. Qed.

Lemma string_app_inv_tail a b s : a +:+ s = b +:+ s -> a = b.
Proof.
  intros H. apply (f_equal String.list_ascii_of_string) in H.
  rewrite !list_ascii_of_string_app in H. apply app_inv_tail in H.
  rewrite <- (String.string_of_list_ascii_of_string a),
          <- (String.string_of_list_ascii_of_string b). by rewrite H.
Qed.

Lemma verify_step_inj a b entry :
  verify_step a entry = verify_step b entry -> a = b \/ collision.
Proof.
  destruct entry as [sibling direction]. unfold Merkle.verify_step.
  unfold Merkle.combine_hashes, hash_data. case_bool_decide as Hd; intros Heq.
  - destruct (decide (sibling +:+ a = sibling +:+ b)) as [E|Hne].
    + left. by apply (inj (String.app sibling)) in E.
    + right. by eexists _, _.
  - destruct (decide (a +:+ sibling = b +:+ sibling)) as [E|Hne].
    + left. by apply string_app_inv_tail in E.
    + right. by eexists _, _.
Qed.

Lemma verify_fold_inj proof : forall a b,
  foldl verify_step a proof = foldl verify_step b proof -> a = b \/ collision.
Proof.
  induction proof as [|entry proof IH]; intros a b H; [by left|].
  cbn [foldl] in H. apply IH in H as [H|H]; [|by right].
  by apply verify_step_inj in H.
Qed.

Lemma verify_step_inputs_inj a b entry :
  verify_step a entry = verify_step b entry ->
  a = b
  \/ (step_input a entry <> step_input b entry
      /\ sha256_hexdigest (step_input a entry) = sha256_hexdigest (step_input b entry)).
Proof.
  destruct entry as [sibling direction]. unfold Merkle.verify_step, Merkle.step_input.
  unfold Merkle.combine_hashes, hash_data. cbn [fst snd].
  case_bool_decide as Hd; intros Heq.
  - destruct (decide (sibling +:+ a = sibling +:+ b)) as [E|Hne]; [|by right].
    left. by apply (inj (String.app sibling)) in E.
  - destruct (decide (a +:+ sibling = b +:+ sibling)) as [E|Hne]; [|by right].
    left. by apply string_app_inv_tail in E.
Qed.

Lemma verify_fold_inputs_inj proof : forall a b,
  foldl verify_step a proof = foldl verify_step b proof ->
  a = b
  \/ exists x y,
       x ∈ Merkle.fold_inputs sha256_hexdigest a proof
       /\ y ∈ Merkle.fold_inputs sha256_hexdigest b proof
       /\ x <> y /\ sha256_hexdigest x = sha256_hexdigest y.
Proof.
  induction proof as [|entry proof IH]; intros a b H; [by left|].
  cbn [foldl] in H. cbn [Merkle.fold_inputs].
  apply IH in H as [H|(x & y & Hx & Hy & Hne & Heq)].
  - apply verify_step_inputs_inj in H as [H|[Hne Heq]]; [by left|].
    right. eexists _, _. split; [by left|]. split; [by left|]. done.
  - right. exists x, y. split; [by right|]. split; [by right|]. done.
Qed.

(** X1.  A proof and a root accepted for two nodes: the two nodes have the
    same serialisation, or two different strings with the same digest are
    among the strings that the two verifications hash (the serialised node
    and, per entry of the proof, the concatenation handed to the digest). *)
Theorem accepted_proof_binds_node_hash n m proof root_hash :
  verify_proof n proof root_hash = true ->
  verify_proof m proof root_hash = true ->
  json_dumps n = json_dumps m
  \/ exists x y,
       x ∈ Merkle.digest_inputs sha256_hexdigest json_dumps n proof
       /\ y ∈ Merkle.digest_inputs sha256_hexdigest json_dumps m proof
       /\ x <> y /\ sha256_hexdigest x = sha256_hexdigest y.
Proof.
  unfold Merkle.verify_proof. intros Hn%bool_decide_eq_true Hm%bool_decide_eq_true.
  unfold Merkle.digest_inputs.
  destruct (verify_fold_inputs_inj proof (hash_node n) (hash_node m))
    as [H|(x & y & Hx & Hy & Hne & Heq)]; [by rewrite Hn, Hm| |].
  - destruct (decide (json_dumps n = json_dumps m)) as [E|Hne]; [by left|].
    right. exists (json_dumps n), (json_dumps m).
    split; [by left|]. split; [by left|]. done.
  - right. exists x, y. split; [by right|]. split; [by right|]. done.
Qed.

(** *** Identifiers that occur more than once *)

Lemma stored_proof_verifies rn (self' : ReasoningMerkleTree) r n :
  build_tree_fuel (length (map leaf_of rn)) (map leaf_of rn) = Some r ->
  root self' = Some r ->
  nodes self' !! ReasoningNode.id n = Some (hash_node n) ->
  n ∈ rn ->
  verify_proof n (_generate_proof self' (ReasoningNode.id n)) (hash r) = true.
Proof.
  intros Hr Hroot Hn Hin.
  unfold _generate_proof. rewrite Hn, Hroot. cbn [find_and_prove].
  assert (well_formed r) as Hwf.
  { eapply MerkleProofs.build_tree_fuel_well_formed; [|exact Hr].
    apply Forall_forall. intros x Hx. apply list_elem_of_fmap in Hx as (m & -> & _).
    done. }
  assert (occurs (ReasoningNode.id n) (hash_node n) r) as Hocc.
  { eapply MerkleProofs.build_tree_fuel_occurs; [|exact Hr].
    apply Exists_exists. exists (leaf_of n). split.
    - apply list_elem_of_fmap. by exists n.
    - cbn. by left. }
  pose proof (MerkleProofs.find_and_prove_node_complete _ _ _ Hocc []) as Hfound.
  pose proof (MerkleProofs.find_and_prove_node_spec sha256_hexdigest
                (ReasoningNode.id n) (hash_node n) r Hwf []) as Hspec.
  destruct (find_and_prove_node (ReasoningNode.id n) (hash_node n) r [])
    as [found p]. cbn in Hfound. subst found.
  destruct Hspec as (q & -> & Hq). cbn [snd].
  unfold Merkle.verify_proof. rewrite app_nil_l, Hq.
  by apply bool_decide_eq_true.
Qed.

(** X2.  When several nodes carry one identifier, the proof stored under it is
    the proof of the last of them: it verifies that node, and it verifies an
    earlier node only if that node has the same canonical hash or the digest
    has a collision. *)
Theorem stored_proof_is_of_last_node self pre n post :
  ReasoningNode.id n ∉ map ReasoningNode.id post ->
  exists self' merkle_root proof,
    build_from_reasoning_tree self (pre ++ n :: post) = Some (self', merkle_root)
    /\ get_proof self' (ReasoningNode.id n) = Some proof
    /\ verify_proof n proof merkle_root = true
    /\ forall m,
         verify_proof m proof merkle_root = true ->
         hash_node m = hash_node n \/ collision.
Proof.
  intros Hpost.
  destruct (MerkleProofs.build_from_reasoning_tree_nonempty sha256_hexdigest json_dumps
              self (pre ++ n :: post))
    as (r & self' & Hr & Hb & Hroot & Hnodes & Hproofs).
  { by destruct pre. }
  assert (nodes self' !! ReasoningNode.id n = Some (hash_node n)) as Hn.
  { rewrite Hnodes. by apply nodes_loop_last. }
  exists self', (hash r), (_generate_proof self' (ReasoningNode.id n)).
  split; [done|]. split.
  { unfold get_proof. by rewrite Hproofs, Hn. }
  assert (verify_proof n (_generate_proof self' (ReasoningNode.id n)) (hash r) = true)
    as Hv.
  { eapply (stored_proof_verifies (pre ++ n :: post)); [exact Hr|exact Hroot|exact Hn|].
    apply elem_of_app. right. by left. }
  split; [done|]. intros m Hm.
  unfold Merkle.verify_proof in Hm, Hv.
  apply bool_decide_eq_true in Hm, Hv.
  apply (verify_fold_inj (_generate_proof self' (ReasoningNode.id n))).
  by rewrite Hm, Hv.
Qed.

(** *** A tree object that is built twice *)

(** X3.  An identifier that the tree knows from an earlier build and that is not
    among the nodes of the new build gets the empty proof, not [None]. *)
Theorem stale_identifier_gets_empty_proof self reasoning_nodes node_id :
  reasoning_nodes <> [] ->
  is_Some (nodes self !! node_id) ->
  node_id ∉ map ReasoningNode.id reasoning_nodes ->
  exists self' merkle_root,
    build_from_reasoning_tree self reasoning_nodes = Some (self', merkle_root)
    /\ get_proof self' node_id = Some [].
Proof.
  intros Hne [h Hh] Hid.
  destruct (MerkleProofs.build_from_reasoning_tree_nonempty sha256_hexdigest json_dumps
              self reasoning_nodes Hne)
    as (r & self' & Hr & Hb & Hroot & Hnodes & Hproofs).
  assert (nodes self' !! node_id = Some h) as Hn.
  { rewrite Hnodes, nodes_loop_other by done. done. }
  exists self', (hash r). split; [done|].
  unfold get_proof. rewrite Hproofs, Hn. f_equal.
  unfold _generate_proof. rewrite Hn, Hroot. cbn [find_and_prove].
  destruct (find_and_prove_node node_id h r []) as [found p] eqn:Hf.
  destruct found.
  - exfalso.
    assert (occurs node_id h r) as Hocc.
    { eapply find_and_prove_node_occurs. by rewrite Hf. }
    eapply build_tree_fuel_occurs_inv in Hocc; [|exact Hr].
    apply Exists_exists in Hocc as (x & Hx & Hox).
    apply list_elem_of_fmap in Hx as (m & -> & Hm).
    cbn in Hox. destruct Hox as [[_ Hid']|[[]|[]]].
    injection Hid' as <-. apply Hid. apply list_elem_of_fmap. by exists m.
  - pose proof (find_and_prove_node_failed node_id h r []) as Hfail.
    rewrite Hf in Hfail. by rewrite (Hfail eq_refl).
Qed.

(** *** The length of a stored proof *)

Lemma find_in_perfect node_id target k : forall t p0,
  perfect k t ->
  (find_and_prove_node node_id target t p0).1 = true ->
  length (find_and_prove_node node_id target t p0).2 = (length p0 + k)%nat.
Proof.
  induction k as [|k IH]; intros [h d l r] p0 Hp;
    cbn [perfect left right data_id] in Hp;
    cbn [find_and_prove_node hash data_id left right].
  - destruct Hp as (-> & -> & _).
    destruct (bool_decide (h = target) && bool_decide (d = Some node_id));
      cbn; [lia|done].
  - destruct Hp as (-> & l' & r' & -> & -> & Hl & Hr).
    rewrite (bool_decide_eq_false_2 (None = Some node_id)) by done.
    rewrite andb_false_r.
    pose proof (IH l' p0 Hl) as IHl.
    pose proof (find_and_prove_node_failed node_id target l' p0) as Hfl.
    destruct (find_and_prove_node node_id target l' p0) as [[|] p1]; cbn [fst snd] in *.
    + intros _. rewrite length_app, IHl by done. cbn. lia.
    + rewrite (Hfl eq_refl).
      pose proof (IH r' p0 Hr) as IHr.
      destruct (find_and_prove_node node_id target r' p0) as [[|] p2];
        cbn [fst snd] in *; [|done].
      intros _. rewrite length_app, IHr by done. cbn. lia.
Qed.

Lemma pad_Forall (P : MerkleNode -> Prop) ns : Forall P ns -> Forall P (pad ns).
Proof.
  rewrite !Forall_forall. intros H x Hx. by apply H, pad_subseteq.
Qed.

Lemma parents_perfect k ns :
  Forall (perfect k) ns -> Forall (perfect (S k)) (parents ns).
Proof.
  induction ns as [|x|x y l IH] using MerkleProofs.list_pair_ind; intros Hp;
    [done..|].
  apply Forall_cons in Hp as [Hx Hp]. apply Forall_cons in Hp as [Hy Hp].
  cbn [Merkle.parents]. apply Forall_cons. split; [|by apply IH].
  cbn. split; [done|]. by exists x, y.
Qed.

Lemma build_tree_fuel_nil fuel : build_tree_fuel fuel [] = None.
Proof. induction fuel as [|fuel IH]; [done|]. cbn. exact IH. Qed.

Lemma next_level_double ns :
  (2 * length (parents (pad ns)) = length ns + length ns mod 2)%nat.
Proof.
  rewrite MerkleProofs.parents_length, MerkleProofs.pad_length.
  pose proof (Nat.div_mod_eq (length ns) 2) as Hdm.
  pose proof (Nat.mod_upper_bound (length ns) 2 ltac:(lia)) as Hub.
  replace (length ns + length ns mod 2)%nat
    with ((length ns / 2 + length ns mod 2) * 2)%nat by lia.
  rewrite Nat.div_mul by lia. lia.
Qed.

Lemma ceil_log_step (n m h : nat) :
  (2 <= n)%nat -> (2 * m = n + n mod 2)%nat -> (m <= 2 ^ h)%nat ->
  (h = 0%nat \/ (2 ^ (h - 1) < m)%nat) ->
  (n <= 2 ^ S h)%nat /\ (S h = 0%nat \/ (2 ^ h < n)%nat).
Proof.
  intros Hn Hm Hle Hlow.
  pose proof (Nat.mod_upper_bound n 2 ltac:(lia)) as Hub.
  remember (n mod 2)%nat as r eqn:Hr. clear Hr.
  rewrite Nat.pow_succ_r'.
  destruct Hlow as [->|Hlow]; [cbn in *; lia|].
  destruct h as [|h]; [cbn in *; lia|].
  replace (S h - 1)%nat with h in Hlow by lia.
  rewrite Nat.pow_succ_r' in *.
  remember (2 ^ h)%nat as a eqn:Ha. clear Ha. lia.
Qed.

(** The tree built over [n] subtrees of depth [k] has depth [k + h] with
    [h] the least number such that [n <= 2 ^ h]. *)
Lemma build_tree_fuel_perfect fuel : forall ns k r,
  Forall (perfect k) ns ->
  build_tree_fuel fuel ns = Some r ->
  exists h,
    perfect (k + h) r
    /\ (length ns <= 2 ^ h)%nat
    /\ (h = 0%nat \/ (2 ^ (h - 1) < length ns)%nat).
Proof.
  induction fuel as [|fuel IH]; intros ns k r Hp Hb; [done|].
  cbn [Merkle.build_tree_fuel] in Hb.
  destruct (Nat.eqb_spec (length ns) 1) as [H1|H1].
  - destruct ns as [|x [|y ns]]; try done. injection Hb as <-.
    exists 0%nat. rewrite Nat.add_0_r. split; [by inversion Hp|]. cbn. lia.
  - destruct ns as [|x ns]; [by rewrite build_tree_fuel_nil in Hb|].
    assert (2 <= length (x :: ns))%nat as Hlen by (cbn in *; lia).
    destruct (IH _ (S k) r (parents_perfect k _ (pad_Forall _ _ Hp)) Hb)
      as (h & Hperf & Hle & Hlow).
    exists (S h). split; [by rewrite Nat.add_succ_r|].
    replace (S h - 1)%nat with h by lia.
    apply (ceil_log_step _ (length (parents (pad (x :: ns)))));
      [done|apply next_level_double|done..].
Qed.

(** X4.  Every proof stored for a node of the list has a number of entries that
    is the logarithm of the number of nodes, rounded up. *)
Theorem stored_proof_length_is_logarithmic self reasoning_nodes node_id :
  node_id ∈ map ReasoningNode.id reasoning_nodes ->
  exists self' merkle_root proof,
    build_from_reasoning_tree self reasoning_nodes = Some (self', merkle_root)
    /\ get_proof self' node_id = Some proof
    /\ (length reasoning_nodes <= 2 ^ length proof)%nat
    /\ (length proof = 0%nat
        \/ (2 ^ (length proof - 1) < length reasoning_nodes)%nat).
Proof.
  intros Hin.
  apply list_elem_of_split_r in Hin as (ids1 & ids2 & Hsplit & Hlast).
  apply fmap_app_inv in Hsplit as (pre & rest & -> & Hrest & ->).
  symmetry in Hrest. apply fmap_cons_inv in Hrest as (n & post & -> & -> & ->).
  destruct (MerkleProofs.build_from_reasoning_tree_nonempty sha256_hexdigest json_dumps
              self (pre ++ n :: post))
    as (r & self' & Hr & Hb & Hroot & Hnodes & Hproofs).
  { by destruct pre. }
  assert (nodes self' !! ReasoningNode.id n = Some (hash_node n)) as Hn.
  { rewrite Hnodes. by apply nodes_loop_last. }
  exists self', (hash r), (_generate_proof self' (ReasoningNode.id n)).
  split; [done|]. split.
  { unfold get_proof. by rewrite Hproofs, Hn. }
  destruct (build_tree_fuel_perfect (length (map leaf_of (pre ++ n :: post)))
              (map leaf_of (pre ++ n :: post)) 0%nat r)
    as (h & Hperf & Hle & Hlow); [|exact Hr|].
  { apply Forall_forall. intros x Hx. apply list_elem_of_fmap in Hx as (m & -> & _).
    cbn. by eauto. }
  rewrite length_map in Hle, Hlow. cbn [plus] in Hperf.
  assert (occurs (ReasoningNode.id n) (hash_node n) r) as Hocc.
  { eapply MerkleProofs.build_tree_fuel_occurs; [|exact Hr].
    apply Exists_exists. exists (leaf_of n). split.
    - apply list_elem_of_fmap. exists n. split; [done|].
      apply elem_of_app. right. by left.
    - cbn. by left. }
  pose proof (MerkleProofs.find_and_prove_node_complete _ _ _ Hocc []) as Hfound.
  pose proof (find_in_perfect (ReasoningNode.id n) (hash_node n) h r [] Hperf Hfound)
    as Hlen.
  unfold _generate_proof. rewrite Hn, Hroot. cbn [find_and_prove].
  rewrite Hlen. cbn [length plus]. done.
Qed.

(** *** A repeated last node *)

Lemma build_tree_repeated_last rn x :
  last rn = Some x ->
  (length rn mod 2 = 1)%nat ->
  (3 <= length rn)%nat ->
  _build_tree (map leaf_of (rn ++ [x])) = _build_tree (map leaf_of rn).
Proof.
  intros Hlast Hodd Hlen. unfold Merkle._build_tree.
  rewrite map_app, length_app, !length_map. cbn [map length].
  set (L := map leaf_of rn).
  assert (length L = length rn) as HL by apply length_map.
  assert (pad L = L ++ [leaf_of x]) as Hpad.
  { unfold pad. rewrite HL, Hodd. cbn [Nat.eqb].
    unfold L. change (map leaf_of rn) with (leaf_of <$> rn).
    by rewrite fmap_last, Hlast. }
  assert (pad (L ++ [leaf_of x]) = L ++ [leaf_of x]) as Hpad'.
  { pose proof (MerkleProofs.pad_even L) as Heven. rewrite Hpad in Heven.
    unfold pad. by rewrite Heven. }
  destruct (length rn) as [|n1] eqn:Hn; [lia|].
  replace (S n1 + 1)%nat with (S (S n1)) by lia.
  cbn [Merkle.build_tree_fuel].
  rewrite length_app, HL. cbn [length].
  destruct (Nat.eqb_spec (S n1 + 1) 1) as [?|_]; [lia|].
  destruct (Nat.eqb_spec (S n1) 1) as [?|_]; [lia|].
  rewrite Hpad, Hpad'.
  destruct (MerkleProofs.build_tree_fuel_total sha256_hexdigest n1
              (parents (L ++ [leaf_of x]))) as [r Hr].
  { pose proof (MerkleProofs.next_level_length sha256_hexdigest L) as Hnext.
    rewrite Hpad, HL in Hnext. lia. }
  rewrite Hr. by apply (build_tree_fuel_mono n1 (S n1)); [|lia].
Qed.

(** X5.  A tree with an odd number of nodes, three or more, and the tree that
    lists its last node once more have the same Merkle root: the validator's
    check of the commitment accepts the longer tree under the root committed
    for the shorter one. *)
Theorem repeated_last_node_keeps_root tree x :
  last (ReasoningTree.nodes tree) = Some x ->
  (length (ReasoningTree.nodes tree) mod 2 = 0)%nat ->
  exists merkle_root node_proofs,
    create_merkle_commitment tree = Some (merkle_root, node_proofs)
    /\ _verify_merkle
         {| ReasoningTree.task_id := ReasoningTree.task_id tree;
            ReasoningTree.root := ReasoningTree.root tree;
            ReasoningTree.nodes := ReasoningTree.nodes tree ++ [x];
            ReasoningTree.merkle_root := merkle_root;
            ReasoningTree.stake := ReasoningTree.stake tree;
            ReasoningTree.proposer_hotkey := ReasoningTree.proposer_hotkey tree;
            ReasoningTree.submitted_at := ReasoningTree.submitted_at tree |}
       = Some true.
Proof.
  intros Hlast Heven.
  set (all := ReasoningTree.root tree :: ReasoningTree.nodes tree).
  assert (last all = Some x) as Hlast'.
  { unfold all. destruct (ReasoningTree.nodes tree) as [|y ys]; [done|].
    exact Hlast. }
  assert (length all mod 2 = 1)%nat as Hodd.
  { unfold all. cbn [length].
    pose proof (Nat.div_mod_eq (length (ReasoningTree.nodes tree)) 2) as Hdm.
    rewrite Heven in Hdm.
    replace (S (length (ReasoningTree.nodes tree)))
      with (1 + (length (ReasoningTree.nodes tree) / 2) * 2)%nat by lia.
    by rewrite Nat.Div0.mod_add. }
  assert (3 <= length all)%nat as Hlen.
  { unfold all. cbn [length].
    destruct (ReasoningTree.nodes tree) as [|y [|z ys]]; cbn in *; [done|lia|lia]. }
  destruct (MerkleProofs.build_from_reasoning_tree_nonempty sha256_hexdigest json_dumps
              init all) as (r & s1 & Hr & Hb & _); [done|].
  destruct (MerkleProofs.build_from_reasoning_tree_nonempty sha256_hexdigest json_dumps
              init (all ++ [x])) as (r' & s2 & Hr' & Hb' & _); [by destruct all|].
  rewrite build_tree_repeated_last, Hr in Hr' by done. injection Hr' as <-.
  exists (hash r), (proofs s1). unfold Merkle.create_merkle_commitment.
  fold all. rewrite Hb. split; [done|].
  unfold Neurons._verify_merkle. cbn [ReasoningTree.root ReasoningTree.nodes
                                        ReasoningTree.merkle_root].
  change (ReasoningTree.root tree :: ReasoningTree.nodes tree ++ [x])
    with (all ++ [x]).
  rewrite Hb'. by rewrite bool_decide_eq_true_2.
Qed.

(** *** The commitment of a tree *)

Lemma nodes_loop_is_Some rn : forall (ns : gmap string string) k,
  is_Some (foldl (fun ns node => <[ReasoningNode.id node := hash_node node]> ns) ns rn
             !! k)
  <-> k ∈ map ReasoningNode.id rn \/ is_Some (ns !! k).
Proof.
  induction rn as [|m rn IH]; intros ns k; cbn [foldl map].
  - rewrite elem_of_nil. tauto.
  - rewrite IH, elem_of_cons.
    destruct (decide (ReasoningNode.id m = k)) as [->|Hne].
    + rewrite lookup_insert_eq. split; [|intros _; right; by eexists].
      intros [?|_]; [by left; right|by left; left].
    + rewrite lookup_insert_ne by done. split.
      * intros [?|?]; [by left; right|by right].
      * intros [[?|?]|?]; [congruence|by left|by right].
Qed.

(** X6.  [create_merkle_commitment] returns for every tree, and the proofs it
    returns have exactly the identifiers of the root and the listed nodes as
    keys. *)
Theorem commitment_proofs_per_identifier tree :
  exists merkle_root node_proofs,
    create_merkle_commitment tree = Some (merkle_root, node_proofs)
    /\ forall k,
         is_Some (node_proofs !! k)
         <-> k ∈ ReasoningNode.id (ReasoningTree.root tree)
                 :: map ReasoningNode.id (ReasoningTree.nodes tree).
Proof.
  set (all := ReasoningTree.root tree :: ReasoningTree.nodes tree).
  destruct (MerkleProofs.build_from_reasoning_tree_nonempty sha256_hexdigest json_dumps
              init all) as (r & s1 & Hr & Hb & _ & Hnodes & Hproofs); [done|].
  exists (hash r), (proofs s1). unfold Merkle.create_merkle_commitment.
  fold all. rewrite Hb. split; [done|]. intros k.
  change (ReasoningNode.id (ReasoningTree.root tree)
            :: map ReasoningNode.id (ReasoningTree.nodes tree))
    with (map ReasoningNode.id all).
  rewrite Hproofs.
  pose proof (nodes_loop_is_Some all (nodes init) k) as Hdom.
  rewrite <- Hnodes in Hdom. cbn [init nodes proofs] in Hdom |- *.
  rewrite lookup_empty in Hdom.
  assert (is_Some (nodes s1 !! k) <-> k ∈ map ReasoningNode.id all) as Hdom'.
  { rewrite Hdom. split; [intros [?|[? ?]]; done|by left]. }
  rewrite <- Hdom'.
  destruct (nodes s1 !! k) eqn:Hk.
  - split; intros _; by eexists.
  - rewrite lookup_empty. done.
Qed.

End Proofs.

(** *** Concrete instances *)

(** Under the one-character digest a one-entry proof with root ["n"] is
    accepted for [n0] and for the different node [mk_node "n0" "z"]: the
    serialisations differ, and two of the hashed strings collide. *)
Lemma accepted_proof_binds_node_hash_witness :
  Merkle.verify_proof first_char_digest toy_dumps n0 [("n", "right")] "n" = true
  /\ Merkle.verify_proof first_char_digest toy_dumps (mk_node "n0" "z")
       [("n", "right")] "n" = true
  /\ toy_dumps n0 <> toy_dumps (mk_node "n0" "z")
  /\ exists x y,
       x ∈ Merkle.digest_inputs first_char_digest toy_dumps n0 [("n", "right")]
       /\ y ∈ Merkle.digest_inputs first_char_digest toy_dumps (mk_node "n0" "z")
             [("n", "right")]
       /\ x <> y /\ first_char_digest x = first_char_digest y.
Proof.
  assert (Merkle.verify_proof first_char_digest toy_dumps n0 [("n", "right")] "n" = true)
    as H1 by (vm_compute; reflexivity).
  assert (Merkle.verify_proof first_char_digest toy_dumps (mk_node "n0" "z")
            [("n", "right")] "n" = true)
    as H2 by (vm_compute; reflexivity).
  assert (toy_dumps n0 <> toy_dumps (mk_node "n0" "z")) as Hne
    by (vm_compute; discriminate).
  split; [exact H1|]. split; [exact H2|]. split; [exact Hne|].
  destruct (accepted_proof_binds_node_hash first_char_digest toy_dumps
              n0 (mk_node "n0" "z") _ _ H1 H2) as [E|Hc]; [|exact Hc].
  exfalso. exact (Hne E).
Defined.

Lemma stored_proof_is_of_last_node_witness :
  (ReasoningNode.id (mk_node "x" "2") ∉ map ReasoningNode.id [n0])
  /\ exists self' merkle_root proof,
       Merkle.build_from_reasoning_tree toy_digest toy_dumps init
         ([mk_node "x" "1"] ++ mk_node "x" "2" :: [n0])
       = Some (self', merkle_root)
       /\ get_proof self' "x" = Some proof
       /\ Merkle.verify_proof toy_digest toy_dumps (mk_node "x" "2") proof merkle_root
          = true.
Proof.
  assert (ReasoningNode.id (mk_node "x" "2") ∉ map ReasoningNode.id [n0]) as H.
  { apply (bool_decide_unpack _). vm_compute. exact I. }
  split; [exact H|].
  destruct (stored_proof_is_of_last_node toy_digest toy_dumps init
              [mk_node "x" "1"] (mk_node "x" "2") [n0] H)
    as (self' & merkle_root & proof & Hb & Hg & Hv & _).
  exists self', merkle_root, proof. split; [exact Hb|]. split; [exact Hg|exact Hv].
Defined.

Lemma stale_identifier_gets_empty_proof_witness :
  [n1] <> []
  /\ is_Some (nodes built_once !! "n0")
  /\ ("n0" ∉ map ReasoningNode.id [n1])
  /\ exists self' merkle_root,
       Merkle.build_from_reasoning_tree toy_digest toy_dumps built_once [n1]
       = Some (self', merkle_root)
       /\ get_proof self' "n0" = Some [].
Proof.
  assert ([n1] <> []) as H1 by discriminate.
  assert (is_Some (nodes built_once !! "n0")) as H2 by (eexists; reflexivity).
  assert ("n0" ∉ map ReasoningNode.id [n1]) as H3.
  { apply (bool_decide_unpack _). vm_compute. exact I. }
  split; [exact H1|]. split; [exact H2|]. split; [exact H3|].
  exact (stale_identifier_gets_empty_proof toy_digest toy_dumps built_once [n1] "n0"
           H1 H2 H3).
Defined.

Lemma stored_proof_length_is_logarithmic_witness :
  ("n1" ∈ map ReasoningNode.id [n0; n1; n2])
  /\ exists self' merkle_root proof,
       Merkle.build_from_reasoning_tree toy_digest toy_dumps init [n0; n1; n2]
       = Some (self', merkle_root)
       /\ get_proof self' "n1" = Some proof
       /\ (length [n0; n1; n2] <= 2 ^ length proof)%nat
       /\ (length proof = 0%nat \/ (2 ^ (length proof - 1) < length [n0; n1; n2])%nat).
Proof.
  assert ("n1" ∈ map ReasoningNode.id [n0; n1; n2]) as H.
  { apply (bool_decide_unpack _). vm_compute. exact I. }
  split; [exact H|].
  exact (stored_proof_length_is_logarithmic toy_digest toy_dumps init [n0; n1; n2]
           "n1" H).
Defined.

Lemma repeated_last_node_keeps_root_witness :
  last (ReasoningTree.nodes three_node_tree) = Some n2
  /\ (length (ReasoningTree.nodes three_node_tree) mod 2 = 0)%nat
  /\ exists merkle_root node_proofs,
       Merkle.create_merkle_commitment toy_digest toy_dumps three_node_tree
       = Some (merkle_root, node_proofs)
       /\ Neurons._verify_merkle toy_digest toy_dumps
            {| ReasoningTree.task_id := "t1"; ReasoningTree.root := n0;
               ReasoningTree.nodes := [n1; n2] ++ [n2];
               ReasoningTree.merkle_root := merkle_root;
               ReasoningTree.stake := 100%Q;
               ReasoningTree.proposer_hotkey := "prop";
               ReasoningTree.submitted_at := None |}
          = Some true.
Proof.
  split; [reflexivity|]. split; [reflexivity|].
  exact (repeated_last_node_keeps_root toy_digest toy_dumps three_node_tree n2
           eq_refl eq_refl).
Defined.

End MerkleExtras.

(* ===================================================================== *)
(** * Properties of the neurons' helpers *)
(* ===================================================================== *)

Module NeuronExtras.
Import Neurons.

Local Open Scope Q_scope.

Lemma first_invalid_child_None node_ids children :
  first_invalid_child node_ids children = None
  <-> forall child_id, child_id ∈ children -> child_id ∈ node_ids.
Proof.
  induction children as [|c cs IH]; cbn [first_invalid_child].
  - split; [|done]. intros _ ? H. by apply elem_of_nil in H.
  - case_bool_decide as Hc.
    + rewrite IH. split.
      * intros H x [->|Hx]%elem_of_cons; [done|by apply H].
      * intros H x Hx. apply H. by right.
    + split; [done|]. intros H. exfalso. apply Hc, H. by left.
Qed.

Lemma first_invalid_reference_None node_ids all_nodes :
  first_invalid_reference node_ids all_nodes = None
  <-> forall node child_id,
        node ∈ all_nodes -> child_id ∈ ReasoningNode.children node ->
        child_id ∈ node_ids.
Proof.
  induction all_nodes as [|n ns IH]; cbn [first_invalid_reference].
  - split; [|done]. intros _ ?? H. by apply elem_of_nil in H.
  - destruct (first_invalid_child node_ids (ReasoningNode.children n)) as [c|] eqn:Hc.
    + split; [done|]. intros H. exfalso.
      assert (first_invalid_child node_ids (ReasoningNode.children n) = None) as Hn.
      { apply first_invalid_child_None. intros x Hx. apply (H n x); [by left|done]. }
      congruence.
    + rewrite IH. split.
      * intros H node x [->|Hn]%elem_of_cons Hx.
        -- by apply (proj1 (first_invalid_child_None _ _) Hc).
        -- by apply (H node).
      * intros H node x Hn. apply H. by right.
Qed.

(** X7.  [_validate_tree] accepts a tree exactly when it carries a non-empty
    Merkle root, its stake is at least 10, and every child identifier of the
    root and of the listed nodes is the identifier of the root or of a listed
    node.  Nothing else is required: identifiers may repeat and child
    references may form cycles. *)
Theorem validate_tree_accepts_iff tree :
  _validate_tree tree = (true, None)
  <-> ReasoningTree.merkle_root tree <> ""
      /\ 10 <= ReasoningTree.stake tree
      /\ forall node child_id,
           node ∈ ReasoningTree.root tree :: ReasoningTree.nodes tree ->
           child_id ∈ ReasoningNode.children node ->
           child_id ∈ ReasoningNode.id (ReasoningTree.root tree)
                       :: map ReasoningNode.id (ReasoningTree.nodes tree).
Proof.
  unfold _validate_tree. case_bool_decide as Hroot.
  { split; [done|]. by intros [? _]. }
  destruct (Qltb (ReasoningTree.stake tree) 10) eqn:Hstake.
  { apply ChallengeProofs.Qltb_lt in Hstake. split; [done|].
    intros (_ & Hge & _). exfalso. by apply (Qlt_not_le _ _ Hstake). }
  apply ChallengeProofs.Qltb_ge in Hstake.
  rewrite <- first_invalid_reference_None.
  destruct (first_invalid_reference _ _); split; try done.
  - by intros (_ & _ & ?).
Qed.

End NeuronExtras.

(* ===================================================================== *)
(** * Further properties of the dispute manager *)
(* ===================================================================== *)

Module ChallengeExtras.
Import Challenge ChallengeSamples.

Local Open Scope Q_scope.

(** *** Validation *)

Lemma has_active_challenge_true ds target l :
  has_active_challenge ds target l = true
  <-> exists dispute_id d,
        dispute_id ∈ l /\ PyDict.get dispute_id ds = Some d
        /\ Dispute.target_node_id d = target /\ Dispute.status d <> RESOLVED.
Proof.
  split.
  - induction l as [|k l IH]; cbn [has_active_challenge]; [done|].
    destruct (PyDict.get k ds) as [d|] eqn:Hk.
    + destruct (bool_decide (Dispute.target_node_id d = target)
                && negb (bool_decide (Dispute.status d = RESOLVED))) eqn:Hact.
      * intros _. apply andb_prop in Hact as [Ht Hs].
        apply bool_decide_eq_true in Ht.
        apply negb_true_iff, bool_decide_eq_false in Hs.
        exists k, d. split; [by left|done].
      * intros (k' & d' & Hin & ?)%IH. exists k', d'. split; [by right|done].
    + intros (k' & d' & Hin & ?)%IH. exists k', d'. split; [by right|done].
  - intros (k & d & Hin & Hget & Htarget & Hs).
    destruct (has_active_challenge ds target l) eqn:Hf; [done|].
    exfalso. apply Hs.
    by apply (proj1 (ChallengeProofs.has_active_challenge_false ds target l) Hf k d).
Qed.

Lemma window_open_test now tree :
  window_open now tree
  <-> match ReasoningTree.submitted_at tree with
      | Some submitted =>
          bool_decide (now > submitted + timedelta_hours CHALLENGE_WINDOW_HOURS)%Z
      | None => false
      end = false.
Proof.
  unfold window_open. destruct (ReasoningTree.submitted_at tree); [|done].
  rewrite bool_decide_eq_false. lia.
Qed.

Lemma no_active_challenge_test self task_id target :
  has_active_challenge (disputes self) target
    (default [] (tree_challenges self !! task_id)) = false
  <-> no_active_challenge self task_id target.
Proof. apply ChallengeProofs.has_active_challenge_false. Qed.

Lemma validate_challenge_missing_node self now challenge tree :
  ChallengeSubmission.target_node challenge
    ∉ ReasoningNode.id (ReasoningTree.root tree)
        :: map ReasoningNode.id (ReasoningTree.nodes tree) ->
  validate_challenge self now challenge tree
  = (false, Some (TargetNodeNotFound (ChallengeSubmission.target_node challenge))).
Proof. intros Hnot. unfold validate_challenge. by rewrite bool_decide_eq_false_2. Qed.

Lemma validate_challenge_active self now challenge tree :
  ChallengeSubmission.target_node challenge
    ∈ ReasoningNode.id (ReasoningTree.root tree)
        :: map ReasoningNode.id (ReasoningTree.nodes tree) ->
  ReasoningTree.stake tree * MIN_CHALLENGE_STAKE_RATIO
    <= ChallengeSubmission.stake challenge ->
  window_open now tree ->
  ~ no_active_challenge self (ReasoningTree.task_id tree)
      (ChallengeSubmission.target_node challenge) ->
  validate_challenge self now challenge tree
  = (false, Some (AlreadyActiveChallenge (ChallengeSubmission.target_node challenge))).
Proof.
  intros Hin Hge Hopen Hact.
  rewrite ChallengeProofs.validate_challenge_after_checks by done.
  apply window_open_test in Hopen. rewrite Hopen.
  destruct (has_active_challenge _ _ _) eqn:Hh; [done|]. exfalso.
  by apply Hact, no_active_challenge_test.
Qed.

Lemma validate_challenge_true_None self now challenge tree :
  (validate_challenge self now challenge tree).1 = true ->
  validate_challenge self now challenge tree = (true, None).
Proof.
  unfold validate_challenge. cbv zeta.
  repeat match goal with
         | |- context [if ?b then _ else _] => destruct b; try done
         end.
Qed.

Lemma validate_challenge_accepted self now challenge tree :
  validate_challenge self now challenge tree = (true, None) ->
  ChallengeSubmission.target_node challenge
    ∈ ReasoningNode.id (ReasoningTree.root tree)
        :: map ReasoningNode.id (ReasoningTree.nodes tree)
  /\ ReasoningTree.stake tree * MIN_CHALLENGE_STAKE_RATIO
     <= ChallengeSubmission.stake challenge
  /\ window_open now tree
  /\ no_active_challenge self (ReasoningTree.task_id tree)
       (ChallengeSubmission.target_node challenge).
Proof.
  intros Hres. unfold validate_challenge in Hres.
  destruct (decide (ChallengeSubmission.target_node challenge
                      ∈ ReasoningNode.id (ReasoningTree.root tree)
                          :: map ReasoningNode.id (ReasoningTree.nodes tree)))
    as [Hin|Hnot];
    [|by rewrite bool_decide_eq_false_2 in Hres].
  rewrite bool_decide_eq_true_2 in Hres by done. cbn [negb] in Hres.
  destruct (Qltb (ChallengeSubmission.stake challenge) _) eqn:Hs; [done|].
  apply ChallengeProofs.Qltb_ge in Hs.
  destruct (match ReasoningTree.submitted_at tree with
            | Some _ => _ | None => _ end) eqn:Hwin; [done|].
  destruct (has_active_challenge _ _ _) eqn:Hh; [done|].
  split; [done|]. split; [done|]. split; [by apply window_open_test|].
  by apply no_active_challenge_test.
Qed.

Lemma validate_challenge_all_pass self now challenge tree :
  ChallengeSubmission.target_node challenge
    ∈ ReasoningNode.id (ReasoningTree.root tree)
        :: map ReasoningNode.id (ReasoningTree.nodes tree) ->
  ReasoningTree.stake tree * MIN_CHALLENGE_STAKE_RATIO
    <= ChallengeSubmission.stake challenge ->
  window_open now tree ->
  no_active_challenge self (ReasoningTree.task_id tree)
    (ChallengeSubmission.target_node challenge) ->
  validate_challenge self now challenge tree = (true, None).
Proof.
  intros Hin Hge Hopen Hno.
  rewrite ChallengeProofs.validate_challenge_after_checks by done.
  apply window_open_test in Hopen. rewrite Hopen.
  apply no_active_challenge_test in Hno. by rewrite Hno.
Qed.

(** The duplicate check passes again once the newest listed dispute is
    resolved, when the others are resolved or as they were. *)
Lemma no_active_after_resolution self self2 task_id target dispute_id :
  no_active_challenge self task_id target ->
  tree_challenges self2 !! task_id
  = Some (default [] (tree_challenges self !! task_id) ++ [dispute_id]) ->
  (forall d, PyDict.get dispute_id (disputes self2) = Some d ->
             Dispute.status d = RESOLVED) ->
  (forall k d, k <> dispute_id -> PyDict.get k (disputes self2) = Some d ->
               Dispute.status d = RESOLVED \/ PyDict.get k (disputes self) = Some d) ->
  no_active_challenge self2 task_id target.
Proof.
  intros Hno Hlist Hid Hother k d Hin Hget Ht. rewrite Hlist in Hin. cbn in Hin.
  destruct (decide (k = dispute_id)) as [->|Hne]; [by apply Hid|].
  apply elem_of_app in Hin as [Hin|Hin]; [|by apply list_elem_of_singleton in Hin].
  destruct (Hother k d Hne Hget) as [?|Hsame]; [done|]. by apply (Hno k d).
Qed.

Lemma create_dispute_listed self now challenge tree :
  tree_challenges (create_dispute self now challenge tree).1
    !! ReasoningTree.task_id tree
  = Some (default [] (tree_challenges self !! ReasoningTree.task_id tree)
            ++ [Dispute.dispute_id (create_dispute self now challenge tree).2]).
Proof. cbn. by rewrite lookup_insert_eq. Qed.

(** X9.  A dispute opened on a node blocks further challenges of that node for
    as long as it is unresolved, and no longer.  [create_dispute] lists the
    dispute under the task and stores it pending defense.  In every manager
    in which it is listed and stored with a status other than resolved, a
    challenge of the same node is refused, whatever its time and stake, and
    one that the manager before the opening would accept is refused for the
    active challenge.  Once [resolve_dispute] has resolved the dispute, or a
    sweep after the defense deadline has, a challenge that the manager before
    the opening would accept is accepted again. *)
Theorem opened_dispute_blocks_second_challenge self now challenge tree :
  let out := create_dispute self now challenge tree in
  let self1 := out.1 in
  let dispute_id := Dispute.dispute_id out.2 in
  let target := ChallengeSubmission.target_node challenge in
  let task_id := ReasoningTree.task_id tree in
  (dispute_id ∈ default [] (tree_challenges self1 !! task_id)
   /\ get_dispute self1 dispute_id = Some out.2
   /\ Dispute.target_node_id out.2 = target
   /\ Dispute.status out.2 = PENDING_DEFENSE)
  /\ (forall self2 d now' challenge',
        ChallengeSubmission.target_node challenge' = target ->
        dispute_id ∈ default [] (tree_challenges self2 !! task_id) ->
        get_dispute self2 dispute_id = Some d ->
        Dispute.target_node_id d = target ->
        Dispute.status d <> RESOLVED ->
        (validate_challenge self2 now' challenge' tree).1 = false
        /\ (validate_challenge self now' challenge' tree = (true, None) ->
            validate_challenge self2 now' challenge' tree
            = (false, Some (AlreadyActiveChallenge target))))
  /\ (forall now1 verdict c now' challenge',
        ChallengeSubmission.target_node challenge' = target ->
        validate_challenge self now' challenge' tree = (true, None) ->
        validate_challenge (resolve_dispute self1 now1 dispute_id verdict c).1
          now' challenge' tree = (true, None))
  /\ (forall now1 now' challenge',
        ChallengeSubmission.target_node challenge' = target ->
        (now + timedelta_hours DEFENSE_WINDOW_HOURS < now1)%Z ->
        validate_challenge self now' challenge' tree = (true, None) ->
        validate_challenge (check_expired_defenses self1 now1).1
          now' challenge' tree = (true, None)).
Proof.
  intros out self1 dispute_id target task_id.
  destruct (ChallengeProofs.create_dispute_stored self now challenge tree)
    as (Hget & Hst & Hdl).
  fold out in Hget, Hst, Hdl. fold self1 dispute_id in Hget.
  pose proof (create_dispute_listed self now challenge tree) as Hlist.
  fold out self1 dispute_id task_id in Hlist.
  assert (Dispute.target_node_id out.2 = target) as Htarget0 by done.
  assert (forall k, k <> dispute_id ->
            PyDict.get k (disputes self1) = PyDict.get k (disputes self)) as Hrest.
  { intros k Hne. unfold self1, out. cbn [create_dispute fst disputes].
    apply PyDictFacts.get_set_ne. by apply not_eq_sym. }
  unfold get_dispute in Hget.
  clearbody self1 dispute_id. clearbody out.
  split; [|split; [|split]].
  - split; [|by split].
    rewrite Hlist. cbn. apply elem_of_app. right. by left.
  - intros self2 d now' challenge' Htarget Hlisted Hget2 Htd Hsd.
    assert (~ no_active_challenge self2 task_id
                (ChallengeSubmission.target_node challenge')) as Hact.
    { intros Hno. apply Hsd, (Hno dispute_id d Hlisted Hget2). by rewrite Htarget. }
    split.
    + destruct (validate_challenge self2 now' challenge' tree).1 eqn:Hv; [|done].
      exfalso. apply Hact.
      by apply (validate_challenge_accepted self2 now' challenge' tree),
        validate_challenge_true_None.
    + intros (Hin & Hge & Hopen & _)%validate_challenge_accepted.
      rewrite <- Htarget. by apply validate_challenge_active.
  - intros now1 verdict c now' challenge' Htarget
      (Hin & Hge & Hopen & Hno)%validate_challenge_accepted.
    apply validate_challenge_all_pass; [done..|].
    destruct (ChallengeProofs.resolve_dispute_known self1 now1 dispute_id out.2
                verdict c Hget) as (self' & summary & Hres & Hget' & Hother & _).
    rewrite Hres. cbn [fst].
    assert (tree_challenges self' = tree_challenges self1) as Htc.
    { unfold resolve_dispute in Hres. rewrite Hget in Hres. by injection Hres as <- _. }
    apply (no_active_after_resolution self self' _ _ dispute_id); [done| | |].
    + by rewrite Htc.
    + unfold get_dispute in Hget'. intros d Hd. rewrite Hget' in Hd.
      injection Hd as <-. apply ChallengeProofs.resolved_with_fixed.
    + intros k d Hne Hd. right.
      pose proof (Hother k (not_eq_sym Hne)) as Hk. unfold get_dispute in Hk.
      by rewrite <- Hrest, <- Hk.
  - intros now1 now' challenge' Htarget Hlate
      (Hin & Hge & Hopen & Hno)%validate_challenge_accepted.
    apply validate_challenge_all_pass; [done..|].
    unfold check_expired_defenses.
    pose proof (ChallengeProofs.expire_items_get now1 (disputes self1)) as Hsweep.
    destruct (expire_items now1 (disputes self1)) as [table' expired].
    cbn [fst snd] in *.
    apply (no_active_after_resolution self _ _ _ dispute_id);
      cbn [tree_challenges disputes]; [done|done| |].
    + intros d. rewrite Hsweep, Hget. cbn [fmap option_fmap option_map].
      unfold defense_expired. rewrite Hst, Hdl.
      rewrite !bool_decide_eq_true_2 by (done || lia). cbn [andb].
      intros [= <-]. by destruct out.2.
    + intros k d Hne. rewrite Hsweep, Hrest by done.
      destruct (PyDict.get k (disputes self)) as [d0|]; [|done].
      cbn [fmap option_fmap option_map].
      destruct (defense_expired now1 d0); intros [= <-]; [left; by destruct d0|by right].
Qed.

(** *** Defenses *)

(** X10.  A defense is recorded at most once: after a defense has been accepted,
    every further defense of the same dispute is refused and changes
    nothing. *)
Theorem defense_recorded_at_most_once self now dispute_id defense self' :
  submit_defense self now dispute_id defense = Return (self', (true, None)) ->
  forall now' defense',
    submit_defense self' now' dispute_id defense'
    = Return (self', (false, Some (NotAcceptingDefenses PENDING_ADJUDICATION))).
Proof.
  unfold submit_defense at 1. intros H now' defense'.
  destruct (PyDict.get dispute_id (disputes self)) as [d|]; [|done].
  destruct (negb (bool_decide (Dispute.status d = PENDING_DEFENSE))); [done|].
  destruct (Dispute.defense_deadline d) as [deadline|]; [|done].
  destruct (bool_decide (now > deadline)%Z); [done|].
  injection H as <-. unfold submit_defense. cbn [disputes].
  rewrite PyDictFacts.get_set_eq. by destruct d.
Qed.

(** *** The sweep *)

Lemma defense_expired_resolved now now' d :
  defense_expired now' (_resolve_no_defense now d) = false.
Proof. by destruct d. Qed.

Lemma expire_items_twice now items :
  expire_items now (expire_items now items).1 = ((expire_items now items).1, []).
Proof.
  induction items as [|[k d] items IH]; [done|].
  cbn [expire_items]. destruct (expire_items now items) as [rest' expired].
  cbn [fst] in IH.
  destruct (defense_expired now d) eqn:Hexp; cbn [fst expire_items];
    rewrite IH, ?defense_expired_resolved, ?Hexp; done.
Qed.

(** X11.  The sweep is idempotent at a fixed instant: a second sweep at the same
    instant returns no identifier and leaves the table as the first sweep
    left it. *)
Theorem sweep_twice_same_instant self now :
  check_expired_defenses (check_expired_defenses self now).1 now
  = ((check_expired_defenses self now).1, []).
Proof.
  unfold check_expired_defenses.
  pose proof (expire_items_twice now (disputes self)) as H.
  destruct (expire_items now (disputes self)) as [disputes' expired].
  cbn [fst disputes tree_challenges dispute_counter] in *. by rewrite H.
Qed.

(** *** What a resolution can cost *)

Lemma multiplier_bounds a : 1.5 <= Table.m a <= 3.
Proof. destruct a; by vm_compute. Qed.

(** X12.  With non-negative stakes and a confidence in [0,1], no resolution takes
    more from a party than its stake.  An upheld challenge never costs the
    challenger and never pays the proposer; a rejected one never pays the
    challenger, and the proposer recovers no more than the challenger
    loses; an undefended one never costs the challenger. *)
Theorem losses_bounded_by_stake self now dispute_id d verdict c :
  get_dispute self dispute_id = Some d ->
  0 <= Dispute.proposer_stake d ->
  0 <= Dispute.challenger_stake d ->
  0 <= c <= 1 ->
  verdict <> ABSTAIN ->
  (exists d',
      get_dispute (resolve_dispute self now dispute_id verdict c).1 dispute_id
      = Some d'
      /\ - Dispute.proposer_stake d <= Dispute.proposer_payout d'
      /\ - Dispute.challenger_stake d <= Dispute.challenger_payout d'
      /\ (verdict = CHALLENGE_UPHELD ->
          0 <= Dispute.challenger_payout d' /\ Dispute.proposer_payout d' <= 0)
      /\ (verdict = CHALLENGE_REJECTED ->
          Dispute.challenger_payout d' <= 0
          /\ 0 <= Dispute.proposer_payout d'
          /\ Dispute.proposer_payout d' <= - Dispute.challenger_payout d'))
  /\ - Dispute.proposer_stake d
       <= Dispute.proposer_payout (_resolve_no_defense now d) <= 0
  /\ 0 <= Dispute.challenger_payout (_resolve_no_defense now d).
Proof.
  intros Hget HP HC [Hc0 Hc1] Hv.
  pose proof (multiplier_bounds (Dispute.attack_type d)) as [Hm1 Hm2].
  set (P := Dispute.proposer_stake d) in *.
  set (C := Dispute.challenger_stake d) in *.
  set (m := Table.m (Dispute.attack_type d)) in *.
  assert (0 <= C * c <= C) as [HCc0 HCc1] by (split; nra).
  assert (0 <= P * c <= P) as [HPc0 HPc1] by (split; nra).
  assert (0 <= C * m) as HCm by nra.
  assert (0 <= C * m * c) as HCmc by nra.
  split.
  - destruct (ChallengeProofs.resolve_dispute_known self now dispute_id d verdict c Hget)
      as (self' & summary & Hres & Hget' & _).
    rewrite Hres. eexists. split; [exact Hget'|].
    destruct verdict; [| | |done].
    + pose proof (ChallengeProofs.resolved_with_table now CHALLENGE_UPHELD c d _ eq_refl)
        as (Ecp & Epp & _).
      cbn in Ecp, Epp. fold P C m in Ecp, Epp. rewrite Ecp, Epp.
      repeat split; try done; nra.
    + pose proof (ChallengeProofs.resolved_with_table now CHALLENGE_REJECTED c d _ eq_refl)
        as (Ecp & Epp & _).
      cbn in Ecp, Epp. fold P C m in Ecp, Epp. rewrite Ecp, Epp.
      repeat split; try done; nra.
    + pose proof (ChallengeProofs.resolved_with_table now PARTIAL c d _ eq_refl)
        as (Ecp & Epp & _).
      cbn in Ecp, Epp. fold P C m in Ecp, Epp. rewrite Ecp, Epp.
      repeat split; try done; nra.
  - pose proof (ChallengeProofs._resolve_no_defense_table now d) as (Ecp & Epp & _).
    cbn in Ecp, Epp. fold P C m in Ecp, Epp. rewrite Ecp, Epp.
    destruct (Q.min_spec P (P * 0.45)) as [[? E]|[? E]]; rewrite E;
      repeat split; nra.
Qed.

(** *** The expected value of a challenge *)

(** X13.  The expected value at win probability 1 is what an upheld verdict of
    full confidence pays the challenger, at win probability 0 it is what a
    rejected verdict of full confidence pays (a loss), and with non-negative
    stakes it grows with the win probability. *)
Theorem challenge_ev_endpoints d :
  let ev := calculate_challenge_ev (Dispute.challenger_stake d)
              (Dispute.attack_type d) (Dispute.proposer_stake d) in
  ev 1 == Dispute.challenger_payout (_resolve_challenger_wins d 1)
  /\ ev 0 == Dispute.challenger_payout (_resolve_proposer_wins d 1)
  /\ (0 <= Dispute.challenger_stake d -> 0 <= Dispute.proposer_stake d ->
      forall p p', p <= p' -> ev p <= ev p').
Proof.
  intros ev. subst ev. unfold calculate_challenge_ev.
  pose proof (multiplier_bounds (Dispute.attack_type d)) as [Hm1 Hm2].
  rewrite <- ChallengeProofs.multiplier_table in Hm1, Hm2.
  destruct d. cbn in *. unfold PROPOSER_SLASH_RATE, CHALLENGER_SLASH_RATE.
  split; [ring|]. split; [ring|].
  intros HC HP p p' Hp.
  match goal with
  | |- p * (?C * ?m + ?P * _) - _ <= _ =>
      assert (0 <= C * m) as HCm by nra;
      assert (0 <= (p' - p) * (C * m + P * 0.30 + C * 0.50)) as Hprod
        by (apply Qmult_le_0_compat; lra)
  end.
  nra.
Qed.

(** *** Looking up the challenged node *)

Lemma _find_node_None tree node_id :
  Neurons._find_node tree node_id = None
  <-> node_id ∉ ReasoningNode.id (ReasoningTree.root tree)
                 :: map ReasoningNode.id (ReasoningTree.nodes tree).
Proof.
  unfold Neurons._find_node. rewrite not_elem_of_cons.
  case_bool_decide as Hroot.
  { split; [done|]. by intros [? _]. }
  split.
  - intros Hnone. split; [done|]. intros Hin.
    apply list_elem_of_fmap in Hin as (n & -> & Hn).
    apply list_elem_of_In in Hn.
    pose proof (List.find_none _ _ Hnone n Hn) as Hf. cbn in Hf.
    by apply bool_decide_eq_false in Hf.
  - intros [_ Hnot].
    destruct (List.find _ _) as [n|] eqn:Hf; [|done]. exfalso.
    apply List.find_some in Hf as [Hn Hid].
    apply bool_decide_eq_true in Hid. apply Hnot.
    apply list_elem_of_fmap. exists n. split; [done|]. by apply list_elem_of_In.
Qed.

Lemma _find_node_Some tree node_id node :
  Neurons._find_node tree node_id = Some node ->
  node ∈ ReasoningTree.root tree :: ReasoningTree.nodes tree
  /\ ReasoningNode.id node = node_id.
Proof.
  unfold Neurons._find_node. case_bool_decide as Hroot.
  - intros [= <-]. split; [by left|done].
  - intros Hf. apply List.find_some in Hf as [Hn Hid].
    apply bool_decide_eq_true in Hid. split; [|done].
    right. by apply list_elem_of_In.
Qed.

(** X14.  [analyze_challenge_quality] reports an error exactly when the target is
    not the identifier of the root or of a listed node, which is exactly when
    [validate_challenge] rejects the challenge for a missing node; otherwise
    it describes the node that the proposer's [_find_node] returns: the root
    if it carries the identifier, else the first listed node that does. *)
Theorem analysis_describes_the_challenged_node challenge tree :
  let target := ChallengeSubmission.target_node challenge in
  (analyze_challenge_quality challenge tree = inl "Target node not found"
   <-> forall self now,
         validate_challenge self now challenge tree
         = (false, Some (TargetNodeNotFound target)))
  /\ (forall a,
        analyze_challenge_quality challenge tree = inr a ->
        exists node,
          Neurons._find_node tree target = Some node
          /\ node ∈ ReasoningTree.root tree :: ReasoningTree.nodes tree
          /\ ReasoningNode.id node = target
          /\ Analysis.target_node_type a = ReasoningNode.node_type node
          /\ Analysis.num_children a = length (ReasoningNode.children node)
          /\ (Analysis.has_evidence a = true <-> is_Some (ReasoningNode.evidence node))
          /\ (Analysis.warning a = None
              <-> is_Some (ChallengeSubmission.evidence challenge)))
  /\ ((exists a, analyze_challenge_quality challenge tree = inr a)
      <-> target ∈ ReasoningNode.id (ReasoningTree.root tree)
                   :: map ReasoningNode.id (ReasoningTree.nodes tree)).
Proof.
  intros target. subst target.
  assert (analyze_challenge_quality challenge tree
          = match Neurons._find_node tree (ChallengeSubmission.target_node challenge) with
            | None => inl "Target node not found"
            | Some target_node =>
                inr {| Analysis.target_node_type := ReasoningNode.node_type target_node;
                       Analysis.has_evidence :=
                         match ReasoningNode.evidence target_node with
                         | Some _ => true
                         | None => false
                         end;
                       Analysis.num_children :=
                         length (ReasoningNode.children target_node);
                       Analysis.attack_multiplier :=
                         ATTACK_MULTIPLIERS (ChallengeSubmission.attack_type challenge);
                       Analysis.estimated_reward :=
                         ChallengeSubmission.stake challenge
                         * ATTACK_MULTIPLIERS (ChallengeSubmission.attack_type challenge);
                       Analysis.max_slash_if_rejected :=
                         ChallengeSubmission.stake challenge * CHALLENGER_SLASH_RATE;
                       Analysis.warning :=
                         match ChallengeSubmission.evidence challenge with
                         | Some _ => None
                         | None =>
                             Some "Challenge has no supporting evidence - higher rejection risk"
                         end |}
            end) as -> by reflexivity.
  pose proof (_find_node_None tree (ChallengeSubmission.target_node challenge)) as Hnone.
  pose proof (_find_node_Some tree (ChallengeSubmission.target_node challenge)) as Hsome.
  destruct (Neurons._find_node tree (ChallengeSubmission.target_node challenge))
    as [node|] eqn:Hf.
  - destruct (Hsome node eq_refl) as [Hin Hid].
    assert (ChallengeSubmission.target_node challenge
              ∈ ReasoningNode.id (ReasoningTree.root tree)
                  :: map ReasoningNode.id (ReasoningTree.nodes tree)) as Hids.
    { rewrite <- Hid.
      change (ReasoningNode.id (ReasoningTree.root tree)
                :: map ReasoningNode.id (ReasoningTree.nodes tree))
        with (ReasoningNode.id <$> (ReasoningTree.root tree :: ReasoningTree.nodes tree)).
      apply list_elem_of_fmap. by exists node. }
    split; [|split].
    + split; [done|]. intros H. specialize (H Challenge.init 0%Z).
      unfold validate_challenge in H.
      rewrite bool_decide_eq_true_2 in H by done. cbn [negb] in H.
      repeat match type of H with
             | (if ?b then _ else _) = _ => destruct b
             | (let _ := _ in _) = _ => cbv zeta in H
             end; discriminate.
    + intros a [= <-]. exists node. cbn.
      repeat split; try done.
      * by destruct (ReasoningNode.evidence node).
      * destruct (ReasoningNode.evidence node); [by eexists|done].
      * by destruct (ChallengeSubmission.evidence challenge).
      * destruct (ChallengeSubmission.evidence challenge); [by eexists|done].
    + split; [done|]. intros _. by eexists.
  - assert (ChallengeSubmission.target_node challenge
              ∉ ReasoningNode.id (ReasoningTree.root tree)
                  :: map ReasoningNode.id (ReasoningTree.nodes tree)) as Hids
      by (by apply Hnone).
    split; [|split].
    + split; [|done]. intros _ self now.
      by apply validate_challenge_missing_node.
    + by intros a.
    + split; [by intros [a ?]|done].
Qed.

(** *** The active disputes of a tree *)

(** X15.  [validate_challenge] finds an active challenge on a node exactly when
    [get_active_disputes_for_tree] lists a dispute that targets it. *)
Theorem duplicate_check_agrees_with_active_list self task_id target :
  has_active_challenge (disputes self) target
    (default [] (tree_challenges self !! task_id)) = true
  <-> exists d,
        d ∈ get_active_disputes_for_tree self task_id
        /\ Dispute.target_node_id d = target.
Proof.
  unfold get_active_disputes_for_tree.
  generalize (default [] (tree_challenges self !! task_id)). intros l.
  induction l as [|k l IH]; cbn [has_active_challenge active_of].
  - split; [done|]. intros (d & Hin & _). by apply elem_of_nil in Hin.
  - destruct (PyDict.get k (disputes self)) as [d|]; [|exact IH].
    destruct (bool_decide (Dispute.status d = RESOLVED)) eqn:Hs; cbn [negb].
    + rewrite andb_false_r. exact IH.
    + rewrite andb_true_r.
      destruct (bool_decide (Dispute.target_node_id d = target)) eqn:Hb.
      * apply bool_decide_eq_true in Hb.
        split; [intros _|done]. exists d. split; [by left|done].
      * apply bool_decide_eq_false in Hb. rename Hb into Ht.
        rewrite IH. split.
        -- intros (d' & Hin & Ht'). exists d'. split; [by right|done].
        -- intros (d' & [->|Hin]%elem_of_cons & Ht'); [done|by exists d'].
Qed.

(** *** What a dispute's fields record *)

Lemma set_Forall (P : Dispute.t -> Prop) k v (d : list (string * Dispute.t)) :
  Forall (fun x => P x.2) d -> P v -> Forall (fun x => P x.2) (PyDict.set k v d).
Proof.
  intros Hd Hv. induction d as [|[k' v'] d IH]; cbn [PyDict.set].
  - by constructor.
  - apply Forall_cons in Hd as [Hv' Hd]. case_bool_decide.
    + by constructor.
    + constructor; [done|by apply IH].
Qed.

Lemma get_Forall (P : Dispute.t -> Prop) k v (d : list (string * Dispute.t)) :
  Forall (fun x => P x.2) d -> PyDict.get k d = Some v -> P v.
Proof.
  intros Hd. induction d as [|[k' v'] d IH]; cbn [PyDict.get]; [done|].
  apply Forall_cons in Hd as [Hv' Hd]. case_bool_decide; [|by apply IH].
  by intros [= <-].
Qed.

Lemma resolved_with_consistent now verdict c d :
  consistent (resolved_with now verdict c d).
Proof. by destruct d, verdict; cbn; split; eexists. Qed.

Lemma _resolve_no_defense_consistent now d : consistent (_resolve_no_defense now d).
Proof. by destruct d; cbn; split; eexists. Qed.

Lemma expire_items_consistent now items :
  Forall (fun x => consistent x.2) items ->
  Forall (fun x => consistent x.2) (expire_items now items).1.
Proof.
  induction items as [|[k d] items IH]; intros Hc; [done|].
  apply Forall_cons in Hc as [Hd Hc]. specialize (IH Hc).
  cbn [expire_items]. destruct (expire_items now items) as [rest' expired].
  destruct (defense_expired now d); constructor; try done.
  apply _resolve_no_defense_consistent.
Qed.

(** X16.  The operations keep every stored dispute in one of three shapes:
    pending defense with a deadline and neither defense nor verdict, pending
    adjudication with a defense and no verdict, or resolved with a verdict
    and a resolution time.  So in a manager whose disputes have these shapes,
    [submit_defense] always returns (the comparison with a missing deadline,
    which would raise, does not occur), no dispute has status expired, and
    every dispute listed by [get_pending_adjudication] has a defense. *)
Theorem dispute_shapes_are_kept self :
  all_consistent self ->
  (forall now challenge tree,
      all_consistent (create_dispute self now challenge tree).1)
  /\ (forall now dispute_id defense,
        exists self' result,
          submit_defense self now dispute_id defense = Return (self', result)
          /\ all_consistent self')
  /\ (forall now, all_consistent (check_expired_defenses self now).1)
  /\ (forall now dispute_id verdict c,
        all_consistent (resolve_dispute self now dispute_id verdict c).1)
  /\ (forall d, d ∈ get_pending_adjudication self -> is_Some (Dispute.defense d))
  /\ (forall dispute_id d,
        get_dispute self dispute_id = Some d -> Dispute.status d <> EXPIRED).
Proof.
  unfold all_consistent. intros Hc. repeat split.
  - intros now challenge tree. cbn [create_dispute fst disputes].
    apply set_Forall; [done|]. cbn. repeat split; [done..|by eexists].
  - intros now dispute_id defense. unfold submit_defense.
    destruct (PyDict.get dispute_id (disputes self)) as [d|] eqn:Hget;
      [|by eexists _, _].
    pose proof (get_Forall consistent _ _ _ Hc Hget) as Hd.
    destruct (decide (Dispute.status d = PENDING_DEFENSE)) as [Hs|Hs].
    + rewrite bool_decide_eq_true_2 by done. cbn [negb].
      unfold consistent in Hd. rewrite Hs in Hd.
      destruct Hd as (Hdef & Hver & Hres & [deadline Hdl]). rewrite Hdl.
      destruct (bool_decide (now > deadline)%Z); eexists _, _; (split; [reflexivity|]);
        [done|].
      cbn [disputes]. apply set_Forall; [done|].
      destruct d. cbn in *. subst. repeat split; [by eexists|done..].
    + rewrite bool_decide_eq_false_2 by done. cbn [negb]. by eexists _, _.
  - intros now. unfold check_expired_defenses.
    pose proof (expire_items_consistent now (disputes self) Hc) as H.
    by destruct (expire_items now (disputes self)).
  - intros now dispute_id verdict c. unfold resolve_dispute.
    destruct (PyDict.get dispute_id (disputes self)) as [d|] eqn:Hget; [|done].
    cbn [fst disputes]. apply set_Forall; [done|].
    apply (resolved_with_consistent now verdict c d).
  - intros d Hd. unfold get_pending_adjudication in Hd.
    apply list_elem_of_filter in Hd as [Hs Hin].
    apply list_elem_of_fmap in Hin as ([k d'] & -> & Hin).
    rewrite Forall_forall in Hc. specialize (Hc _ Hin). cbn in Hc, Hs.
    unfold consistent in Hc. rewrite Hs in Hc. by destruct Hc.
  - intros dispute_id d Hget Hs.
    pose proof (get_Forall consistent _ _ _ Hc Hget) as Hd.
    unfold consistent in Hd. by rewrite Hs in Hd.
Qed.

(** *** Concrete runs *)

Lemma opened_consistent : all_consistent opened.1.
Proof.
  repeat constructor; cbn; by eexists.
Defined.

Lemma dispute_shapes_are_kept_witness :
  all_consistent opened.1
  /\ all_consistent (resolve_dispute opened.1 7%Z "disp_t1_1" PARTIAL 0.5).1
  /\ forall d, d ∈ get_pending_adjudication opened.1 -> is_Some (Dispute.defense d).
Proof.
  split; [exact opened_consistent|].
  destruct (dispute_shapes_are_kept opened.1 opened_consistent)
    as (_ & _ & _ & Hres & Hpend & _).
  split; [apply Hres|exact Hpend].
Defined.

Lemma defense_recorded_at_most_once_witness :
  exists self',
    submit_defense opened.1 5%Z "disp_t1_1" sample_defense = Return (self', (true, None))
    /\ submit_defense self' 6%Z "disp_t1_1" sample_defense
       = Return (self', (false, Some (NotAcceptingDefenses PENDING_ADJUDICATION))).
Proof.
  eexists. split; [vm_compute; reflexivity|].
  apply (defense_recorded_at_most_once opened.1 5%Z "disp_t1_1" sample_defense).
  vm_compute. reflexivity.
Defined.

Lemma losses_bounded_by_stake_witness :
  get_dispute opened.1 "disp_t1_1" = Some opened.2
  /\ 0 <= Dispute.proposer_stake opened.2
  /\ 0 <= Dispute.challenger_stake opened.2
  /\ 0 <= 0.5 <= 1
  /\ exists d',
       get_dispute (resolve_dispute opened.1 7%Z "disp_t1_1" PARTIAL 0.5).1 "disp_t1_1"
       = Some d'
       /\ - Dispute.proposer_stake opened.2 <= Dispute.proposer_payout d'
       /\ - Dispute.challenger_stake opened.2 <= Dispute.challenger_payout d'.
Proof.
  assert (0 <= Dispute.proposer_stake opened.2) as HP by (by vm_compute).
  assert (0 <= Dispute.challenger_stake opened.2) as HC by (by vm_compute).
  assert (0 <= 0.5 <= 1) as Hc by (split; by vm_compute).
  split; [reflexivity|]. split; [exact HP|]. split; [exact HC|]. split; [exact Hc|].
  destruct (losses_bounded_by_stake opened.1 7%Z "disp_t1_1" opened.2 PARTIAL 0.5
              eq_refl HP HC Hc ltac:(discriminate))
    as ((d' & Hget & Hp & Hch & _) & _).
  exists d'. split; [exact Hget|]. split; [exact Hp|exact Hch].
Defined.

(** On the sample dispute: it blocks a second challenge of its node right
    after it is opened and after the proposer has defended it, and no longer
    once it is resolved. *)
Lemma opened_dispute_blocks_second_challenge_witness :
  (validate_challenge opened.1 1%Z sample_challenge (sample_tree (Some 0%Z))).1 = false
  /\ validate_challenge defended 6%Z sample_challenge (sample_tree (Some 0%Z))
     = (false, Some (AlreadyActiveChallenge "n0"))
  /\ validate_challenge settled_once 8%Z sample_challenge (sample_tree (Some 0%Z))
     = (true, None).
Proof.
  destruct (opened_dispute_blocks_second_challenge init 0%Z sample_challenge
              (sample_tree (Some 0%Z))) as ((Hlisted & Hget & Htd & Hst) & Hblock & Hfree & _).
  split; [|split].
  - apply (Hblock opened.1 opened.2 1%Z sample_challenge eq_refl Hlisted Hget Htd).
    intros E. vm_compute in E. discriminate E.
  - apply (Hblock defended defended_dispute 6%Z sample_challenge eq_refl);
      [by vm_compute|reflexivity|reflexivity|discriminate|by vm_compute].
  - apply (Hfree 7%Z CHALLENGE_UPHELD 1 8%Z sample_challenge eq_refl). by vm_compute.
Defined.

End ChallengeExtras.

(* ===================================================================== *)
(** * Further properties of the consensus engine *)
(* ===================================================================== *)

Module ConsensusExtras.
Import Consensus ConsensusSamples.

Local Open Scope Q_scope.

Lemma Qltb_true_lt x y : Qltb x y = true <-> x < y.
Proof. apply ChallengeProofs.Qltb_lt. Qed.

Lemma Qltb_false_ge x y : Qltb x y = false <-> y <= x.
Proof. apply ChallengeProofs.Qltb_ge. Qed.

Lemma py_max_spec a b : (a < b /\ py_max a b = b) \/ (b <= a /\ py_max a b = a).
Proof.
  unfold py_max. destruct (Qltb a b) eqn:H.
  - left. by apply Qltb_true_lt in H.
  - right. by apply Qltb_false_ge in H.
Qed.

Lemma py_min_spec a b : (b < a /\ py_min a b = b) \/ (a <= b /\ py_min a b = a).
Proof.
  unfold py_min. destruct (Qltb b a) eqn:H.
  - left. by apply Qltb_true_lt in H.
  - right. by apply Qltb_false_ge in H.
Qed.

Lemma clip_bounds lo hi x : lo <= hi -> lo <= py_min hi (py_max lo x) <= hi.
Proof.
  intros Hlh.
  destruct (py_max_spec lo x) as [[? ->]|[? ->]];
    match goal with |- context [py_min ?a ?b] =>
      destruct (py_min_spec a b) as [[? ->]|[? ->]] end; lra.
Qed.

Lemma weight_multiplier_positive tier :
  0 < TierConfig.weight_multiplier (TIER_CONFIG tier).
Proof. destruct tier; by vm_compute. Qed.

Lemma stake_required_positive tier :
  100 <= TierConfig.stake_required (TIER_CONFIG tier).
Proof. destruct tier; by vm_compute. Qed.

(** *** Effective weight *)

(** X17.  For non-negative stake and score the effective weight is positive
    exactly when both are positive, and it does not decrease when the stake,
    the score or the tier grows. *)
Theorem effective_weight_sign_and_growth v v' :
  0 <= ValidatorState.stake v ->
  0 <= ValidatorState.calibration_score v ->
  (0 < ValidatorState.effective_weight v
   <-> 0 < ValidatorState.stake v /\ 0 < ValidatorState.calibration_score v)
  /\ (ValidatorState.stake v <= ValidatorState.stake v' ->
      ValidatorState.calibration_score v <= ValidatorState.calibration_score v' ->
      (tier_rank (ValidatorState.tier v) <= tier_rank (ValidatorState.tier v'))%nat ->
      ValidatorState.effective_weight v <= ValidatorState.effective_weight v').
Proof.
  intros Hs Hc. unfold ValidatorState.effective_weight.
  pose proof (weight_multiplier_positive (ValidatorState.tier v)) as Hm.
  set (s := ValidatorState.stake v) in *.
  set (c := ValidatorState.calibration_score v) in *.
  split.
  - set (m := TierConfig.weight_multiplier _) in *. split.
    + intros Hpos. split.
      * destruct (Qlt_le_dec 0 s); [done|]. assert (s == 0) as E by lra.
        rewrite E in Hpos. lra.
      * destruct (Qlt_le_dec 0 c); [done|]. assert (c == 0) as E by lra.
        rewrite E in Hpos. lra.
    + intros [? ?]. assert (0 < s * c) by nra. nra.
  - intros Hs' Hc' Ht.
    set (s' := ValidatorState.stake v') in *.
    set (c' := ValidatorState.calibration_score v') in *.
    assert (TierConfig.weight_multiplier (TIER_CONFIG (ValidatorState.tier v))
            <= TierConfig.weight_multiplier (TIER_CONFIG (ValidatorState.tier v')))
      as Hmm.
    { destruct (ValidatorState.tier v), (ValidatorState.tier v'); cbn in Ht;
        try lia; by vm_compute. }
    pose proof (weight_multiplier_positive (ValidatorState.tier v')) as Hm'.
    set (m := TierConfig.weight_multiplier (TIER_CONFIG (ValidatorState.tier v))) in *.
    set (m' := TierConfig.weight_multiplier (TIER_CONFIG (ValidatorState.tier v'))) in *.
    assert (0 <= s * c) by nra. assert (s * c <= s' * c') by nra.
    assert (0 <= s' * c') by nra. nra.
Qed.

(** *** What the registry keeps true *)

Lemma stake_required_monotone t t' :
  (tier_rank t <= tier_rank t')%nat ->
  TierConfig.stake_required (TIER_CONFIG t)
  <= TierConfig.stake_required (TIER_CONFIG t').
Proof. destruct t, t'; cbn; intros; try lia; by vm_compute. Qed.

Section WithExp.

Variable exp : Q -> Q.

Local Abbreviation _recalculate_calibration := (Consensus._recalculate_calibration exp).
Local Abbreviation updated_validator := (Consensus.updated_validator exp).
Local Abbreviation update_calibration := (Consensus.update_calibration exp).
Local Abbreviation apply_calibration_updates := (Consensus.apply_calibration_updates exp).
Local Abbreviation finalize_dispute := (Consensus.finalize_dispute exp).

(** [_recalculate_calibration] changes the score only, and only to a value
    within [0.3, 1.5]. *)
Lemma _recalculate_calibration_effect now v :
  exists score,
    _recalculate_calibration now v = ValidatorState.set_calibration_score score v
    /\ (score = ValidatorState.calibration_score v \/ 0.3 <= score <= 1.5).
Proof.
  unfold Consensus._recalculate_calibration.
  destruct (ValidatorState.verdict_history v) as [|e es] eqn:Hh.
  { exists (ValidatorState.calibration_score v). split; [by destruct v|by left]. }
  destruct (foldl _ _ _) as [weighted_sum weight_total].
  destruct (Qltb 0 weight_total).
  - eexists. split; [reflexivity|]. right. by apply clip_bounds.
  - exists (ValidatorState.calibration_score v). split; [by destruct v|by left].
Qed.

(** [_check_tier_status] keeps the tier or lowers it by one step. *)
Lemma _check_tier_status_effect now v :
  exists tier start,
    _check_tier_status now v
    = ValidatorState.set_tier_start_date start (ValidatorState.set_tier tier v)
    /\ (tier_rank tier <= tier_rank (ValidatorState.tier v))%nat
    /\ (tier_rank (ValidatorState.tier v) <= tier_rank tier + 1)%nat
    /\ (tier = ValidatorState.tier v
        \/ ValidatorState.calibration_score v
           < TierConfig.min_calibration (TIER_CONFIG (ValidatorState.tier v))).
Proof.
  unfold _check_tier_status.
  destruct (Qltb (ValidatorState.calibration_score v) _) eqn:Hlt.
  - apply Qltb_true_lt in Hlt.
    destruct v as [h t st cs vsub cv ce la ts se vh]. cbn in *.
    destruct t; eexists _, _; (split; [reflexivity|]); cbn; repeat split;
      try lia; by right.
  - exists (ValidatorState.tier v), (ValidatorState.tier_start_date v).
    split; [by destruct v|]. split; [lia|]. split; [lia|by left].
Qed.

Lemma updated_validator_sound key now was_correct confidence v :
  sound_validator key v ->
  sound_validator key (updated_validator now was_correct confidence v).
Proof.
  intros (Hk & Hs & Hc & Hn). unfold Consensus.updated_validator.
  set (v1 := ValidatorState.set_verdict_history _ _).
  assert (ValidatorState.hotkey v1 = key
          /\ ValidatorState.tier v1 = ValidatorState.tier v
          /\ ValidatorState.stake v1 = ValidatorState.stake v
          /\ ValidatorState.calibration_score v1 = ValidatorState.calibration_score v
          /\ (0 <= ValidatorState.correct_verdicts v1
              <= ValidatorState.verdicts_submitted v1)%Z)
    as (Hk1 & Ht1 & Hs1 & Hc1 & Hn1).
  { unfold v1. destruct v, was_correct; cbn in *; repeat split; try done; lia. }
  destruct (_recalculate_calibration_effect now v1) as (score & -> & Hscore).
  assert (0.3 <= score <= 1.5) as Hsc.
  { destruct Hscore as [E|?]; [|done]. rewrite E, Hc1. exact Hc. }
  set (v2 := ValidatorState.set_calibration_score score v1).
  assert (ValidatorState.hotkey v2 = key
          /\ ValidatorState.tier v2 = ValidatorState.tier v
          /\ ValidatorState.stake v2 = ValidatorState.stake v
          /\ 0.3 <= ValidatorState.calibration_score v2 <= 1.5
          /\ (0 <= ValidatorState.correct_verdicts v2
              <= ValidatorState.verdicts_submitted v2)%Z)
    as (Hk2 & Ht2 & Hs2 & Hc2 & Hn2).
  { unfold v2. clearbody v1. destruct v1. cbn in *.
    split; [exact Hk1|]. split; [exact Ht1|]. split; [exact Hs1|].
    split; [exact Hsc|exact Hn1]. }
  destruct (_check_tier_status_effect now v2) as (tier & start & -> & Hle & _).
  rewrite Ht2 in Hle. clearbody v2.
  destruct v2. cbn in *.
  split; [exact Hk2|]. split; [|split; [exact Hc2|exact Hn2]].
  rewrite Hs2. eapply Qle_trans; [apply stake_required_monotone, Hle|exact Hs].
Qed.

Lemma update_calibration_sound self now hotkey was_correct confidence :
  sound_registry (validators self) ->
  sound_registry (validators (update_calibration self now hotkey was_correct confidence)).
Proof.
  intros Hsound. unfold Consensus.update_calibration.
  destruct (validators self !! hotkey) as [v|] eqn:Hv; [|done].
  cbn [validators]. intros key v'.
  destruct (decide (hotkey = key)) as [->|Hne].
  - rewrite lookup_insert_eq. intros [= <-].
    by apply updated_validator_sound, Hsound.
  - rewrite lookup_insert_ne by done. apply Hsound.
Qed.

Lemma apply_calibration_updates_sound self now final_verdict votes :
  sound_registry (validators self) ->
  sound_registry (validators (apply_calibration_updates self now final_verdict votes)).
Proof.
  revert self. induction votes as [|vote votes IH]; intros self Hsound; [done|].
  cbn [Consensus.apply_calibration_updates foldl].
  apply IH. by apply update_calibration_sound.
Qed.

Lemma set_calibration_score_sound key score v :
  sound_validator key v -> 0.3 <= score <= 1.5 ->
  sound_validator key (ValidatorState.set_calibration_score score v).
Proof. intros (Hk & Hs & Hc & Hn) Hsc. by destruct v. Qed.

Lemma decay_validator_sound key now v :
  sound_validator key v -> sound_validator key (decay_validator now v).
Proof.
  intros Hv. unfold decay_validator.
  case_bool_decide as Hd; [|done].
  pose proof (ConsensusProofs.decay_of_positive _ Hd) as Hpos.
  unfold decay_of in Hpos.
  apply set_calibration_score_sound; [done|].
  destruct Hv as (_ & _ & Hc & _).
  match goal with |- context [py_max ?a ?b] =>
    destruct (py_max_spec a b) as [[? ->]|[? ->]] end; lra.
Qed.

(** X18.  The operations of the engine keep every registered validator under its
    own key, with a stake that reaches the minimum of its tier, a score
    within [0.3, 1.5] and no more correct verdicts than verdicts; so every
    registered validator has a positive effective weight. *)
Theorem registry_soundness_is_kept self :
  sound_registry (validators self) ->
  (forall now hotkey stake tier self' v,
      register_validator self now hotkey stake tier = Return (self', v) ->
      sound_registry (validators self'))
  /\ (forall now hotkey,
        sound_registry (validators (check_tier_promotion self now hotkey).1))
  /\ (forall now hotkey was_correct confidence,
        sound_registry
          (validators (update_calibration self now hotkey was_correct confidence)))
  /\ (forall now, sound_registry (validators (apply_calibration_decay self now)))
  /\ (forall now, sound_registry (validators (new_epoch self now)))
  /\ (forall now dispute_id hotkey verdict confidence reasoning self' result,
        submit_vote self now dispute_id hotkey verdict confidence reasoning
        = Some (self', result) ->
        sound_registry (validators self'))
  /\ (forall now dispute_id,
        sound_registry (validators (finalize_dispute self now dispute_id).1))
  /\ (forall key v,
        validators self !! key = Some v -> 0 < ValidatorState.effective_weight v).
Proof.
  intros Hsound. split; [|split; [|split; [|split; [|split; [|split; [|split]]]]]].
  - intros now hotkey stake tier self' v Hreg key v' Hv'.
    unfold register_validator in Hreg.
    assert (forall t,
               TierConfig.stake_required (TIER_CONFIG t) <= stake ->
               self' = {| validators :=
                            <[hotkey := {|
                               ValidatorState.hotkey := hotkey;
                               ValidatorState.tier := t;
                               ValidatorState.stake := stake;
                               ValidatorState.calibration_score := 1.0;
                               ValidatorState.verdicts_submitted := 0;
                               ValidatorState.correct_verdicts := 0;
                               ValidatorState.cases_this_epoch := 0;
                               ValidatorState.last_active := now;
                               ValidatorState.tier_start_date := now;
                               ValidatorState.slashing_events := [];
                               ValidatorState.verdict_history := [] |}]>
                              (validators self);
                          active_disputes := active_disputes self;
                          dispute_votes := dispute_votes self;
                          epoch_start := epoch_start self |} ->
               sound_validator key v') as Hcase.
    { intros t Ht ->. cbn [validators] in Hv'.
      destruct (decide (hotkey = key)) as [->|Hne].
      - rewrite lookup_insert_eq in Hv'. injection Hv' as <-.
        repeat split; cbn; try done; by vm_compute.
      - rewrite lookup_insert_ne in Hv' by done. by apply Hsound. }
    destruct (Qltb stake (TierConfig.stake_required (TIER_CONFIG tier))) eqn:H1.
    + destruct (Qltb stake (TierConfig.stake_required (TIER_CONFIG SCOUT))) eqn:H2;
        [done|].
      apply Qltb_false_ge in H2. injection Hreg as <- _. by apply (Hcase SCOUT).
    + apply Qltb_false_ge in H1. injection Hreg as <- _. by apply (Hcase tier).
  - intros now hotkey. unfold check_tier_promotion.
    destruct (validators self !! hotkey) as [v|] eqn:Hv; [|done].
    pose proof (Hsound _ _ Hv) as (Hk & Hs & Hc & Hn).
    destruct (ValidatorState.tier v) eqn:Ht; [| |done].
    + destruct (_ && _) eqn:Hcond; [|done].
      apply andb_prop in Hcond as [_ Hstake]. apply Qle_bool_iff in Hstake.
      cbn [fst validators]. intros key v'.
      destruct (decide (hotkey = key)) as [->|Hne].
      * rewrite lookup_insert_eq. intros [= <-]. by destruct v.
      * rewrite lookup_insert_ne by done. apply Hsound.
    + destruct (_ && _) eqn:Hcond; [|done].
      apply andb_prop in Hcond as [_ Hstake]. apply Qle_bool_iff in Hstake.
      cbn [fst validators]. intros key v'.
      destruct (decide (hotkey = key)) as [->|Hne].
      * rewrite lookup_insert_eq. intros [= <-]. by destruct v.
      * rewrite lookup_insert_ne by done. apply Hsound.
  - intros. by apply update_calibration_sound.
  - intros now key v'. cbn [apply_calibration_decay validators].
    rewrite lookup_fmap. destruct (validators self !! key) as [v|] eqn:Hv; [|done].
    intros [= <-]. by apply decay_validator_sound, Hsound.
  - intros now key v'. cbn [new_epoch apply_calibration_decay validators].
    rewrite !lookup_fmap. destruct (validators self !! key) as [v|] eqn:Hv; [|done].
    intros [= <-]. apply decay_validator_sound.
    pose proof (Hsound _ _ Hv). by destruct v.
  - intros now dispute_id hotkey verdict confidence reasoning self' result Hvote.
    unfold submit_vote in Hvote.
    destruct (active_disputes self !! dispute_id); [|by injection Hvote as <- _].
    destruct (negb _); [by injection Hvote as <- _|].
    destruct (bool_decide _); [by injection Hvote as <- _|].
    destruct (dispute_votes self !! dispute_id); [|done].
    destruct (List.filter _ _); [|by injection Hvote as <- _].
    injection Hvote as <- _. cbn [validators].
    destruct (validators self !! hotkey) as [v|] eqn:Hv; [|done].
    intros key v'. destruct (decide (hotkey = key)) as [->|Hne].
    + rewrite lookup_insert_eq. intros [= <-].
      pose proof (Hsound _ _ Hv). by destruct v.
    + rewrite lookup_insert_ne by done. apply Hsound.
  - intros now dispute_id. unfold Consensus.finalize_dispute.
    destruct (calculate_consensus self dispute_id) as [result|]; [|done].
    destruct (active_disputes self !! dispute_id) as [ds|] eqn:Hds; [|done].
    destruct (_ && _).
    + unfold escalate_to_arbiters. rewrite Hds.
      by destruct (available_arbiters self).
    + cbn [fst validators]. by apply apply_calibration_updates_sound.
  - intros key v Hv. destruct (Hsound _ _ Hv) as (_ & Hs & [Hc _] & _).
    pose proof (stake_required_positive (ValidatorState.tier v)).
    pose proof (weight_multiplier_positive (ValidatorState.tier v)).
    unfold ValidatorState.effective_weight.
    assert (0 < ValidatorState.stake v * ValidatorState.calibration_score v) by nra.
    nra.
Qed.

End WithExp.

(** *** Decay and epochs *)

(** X19.  The decay sweep changes nothing but scores: a validator inactive for at
    most 7 whole days is untouched; one inactive longer ends with a score of
    at least 0.5, lower than before if the score was above 0.5 and raised to
    0.5 if it was below; and it keeps its tier even when the new score is
    under the floor of that tier. *)
Theorem decay_sweep_effects self now key v :
  validators self !! key = Some v ->
  let days := timedelta_days now (ValidatorState.last_active v) in
  exists v',
    validators (apply_calibration_decay self now) !! key = Some v'
    /\ v' = ValidatorState.set_calibration_score (ValidatorState.calibration_score v') v
    /\ ValidatorState.tier v' = ValidatorState.tier v
    /\ ((days <= 7)%Z -> v' = v)
    /\ ((days > 7)%Z ->
        0.5 <= ValidatorState.calibration_score v'
        /\ (0.5 < ValidatorState.calibration_score v ->
            ValidatorState.calibration_score v' < ValidatorState.calibration_score v)
        /\ (ValidatorState.calibration_score v <= 0.5 ->
            ValidatorState.calibration_score v' == 0.5)).
Proof.
  intros Hv days. exists (decay_validator now v).
  cbn [apply_calibration_decay validators]. rewrite lookup_fmap, Hv.
  split; [done|]. unfold decay_validator. fold days.
  case_bool_decide as Hd.
  - pose proof (ConsensusProofs.decay_of_positive _ Hd) as Hpos.
    unfold decay_of in Hpos.
    split; [by destruct v|]. split; [by destruct v|]. split; [lia|]. intros _.
    assert (ValidatorState.calibration_score
              (ValidatorState.set_calibration_score
                 (py_max 0.5 (ValidatorState.calibration_score v
                              - CALIBRATION_DECAY_PER_EPOCH * inject_Z (days / 7))) v)
            = py_max 0.5 (ValidatorState.calibration_score v
                          - CALIBRATION_DECAY_PER_EPOCH * inject_Z (days / 7)))
      as -> by (by destruct v).
    match goal with |- context [py_max ?a ?b] =>
      destruct (py_max_spec a b) as [[? ->]|[? ->]] end; repeat split; intros; lra.
  - split; [by destruct v|]. split; [done|]. split; [done|lia].
Qed.

(** X20.  After a new epoch every validator has an empty case counter and can
    take a case, its score is the decayed one, the epoch starts at the given
    instant, and the disputes in flight and their votes are as before. *)
Theorem new_epoch_effects self now key v :
  validators self !! key = Some v ->
  exists v',
    validators (new_epoch self now) !! key = Some v'
    /\ ValidatorState.cases_this_epoch v' = 0%Z
    /\ ValidatorState.can_take_case v' = true
    /\ ValidatorState.calibration_score v'
       = ValidatorState.calibration_score (decay_validator now v)
    /\ ValidatorState.tier v' = ValidatorState.tier v
    /\ epoch_start (new_epoch self now) = now
    /\ active_disputes (new_epoch self now) = active_disputes self
    /\ dispute_votes (new_epoch self now) = dispute_votes self.
Proof.
  intros Hv.
  exists (decay_validator now (ValidatorState.set_cases_this_epoch 0 v)).
  cbn [new_epoch apply_calibration_decay validators active_disputes dispute_votes
         epoch_start].
  rewrite !lookup_fmap, Hv. split; [done|].
  unfold decay_validator.
  assert (ValidatorState.last_active (ValidatorState.set_cases_this_epoch 0 v)
          = ValidatorState.last_active v) as -> by (by destruct v).
  case_bool_decide; destruct v as [h t st cs vsub cv ce la ts se vh];
    cbn; unfold ValidatorState.can_take_case; cbn; destruct t; done.
Qed.

(** *** Promotion *)

(** X21.  [check_tier_promotion] moves a validator up by exactly one tier or
    leaves the engine as it is.  A promoted validator has a stake that
    reaches the minimum of its new tier and a score that reaches the floor of
    its new tier, so the next calibration check does not demote it; its tier
    clock restarts.  An arbiter and an unknown identity are never promoted. *)
Theorem promotion_is_one_step_and_qualified self now hotkey :
  let result := check_tier_promotion self now hotkey in
  (result.2 = None -> result.1 = self)
  /\ (forall tier,
        result.2 = Some tier ->
        exists v v',
          validators self !! hotkey = Some v
          /\ validators result.1 !! hotkey = Some v'
          /\ ValidatorState.tier v' = tier
          /\ tier_rank tier = S (tier_rank (ValidatorState.tier v))
          /\ TierConfig.stake_required (TIER_CONFIG tier) <= ValidatorState.stake v'
          /\ TierConfig.min_calibration (TIER_CONFIG tier)
             <= ValidatorState.calibration_score v'
          /\ ValidatorState.tier_start_date v' = now
          /\ (forall now', _check_tier_status now' v' = v')
          /\ (forall other, other <> hotkey ->
                validators result.1 !! other = validators self !! other))
  /\ (validators self !! hotkey = None -> result.2 = None)
  /\ (forall v, validators self !! hotkey = Some v ->
        ValidatorState.tier v = ARBITER -> result.2 = None).
Proof.
  intros result. subst result. unfold check_tier_promotion.
  destruct (validators self !! hotkey) as [v|] eqn:Hv.
  2:{ split; [done|]. split; [done|]. split; [done|]. by intros. }
  destruct (ValidatorState.tier v) eqn:Ht.
  - destruct (_ && _) eqn:Hcond.
    + apply andb_prop in Hcond as [Hcond Hstake].
      apply andb_prop in Hcond as [Hcond _].
      apply andb_prop in Hcond as [_ Hcal].
      apply Qle_bool_iff in Hstake, Hcal.
      split; [done|]. split; [|split; [done|by intros ? [= <-]; congruence]].
      intros tier [= <-]. exists v. eexists. split; [done|].
      cbn [fst validators]. split; [apply lookup_insert_eq|].
      split; [by destruct v|]. split; [by rewrite Ht|].
      split; [by destruct v|]. split; [by destruct v|]. split; [by destruct v|].
      split.
      * intros now'. unfold _check_tier_status.
        assert (Qltb (ValidatorState.calibration_score
                        (ValidatorState.set_tier_start_date now
                           (ValidatorState.set_tier AUDITOR v)))
                  (TierConfig.min_calibration
                     (TIER_CONFIG (ValidatorState.tier
                        (ValidatorState.set_tier_start_date now
                           (ValidatorState.set_tier AUDITOR v))))) = false) as ->;
          [|done].
        apply Qltb_false_ge. by destruct v.
      * intros other Hne. by rewrite lookup_insert_ne.
    + split; [done|]. split; [done|]. split; [done|]. by intros ? [= <-]; congruence.
  - destruct (_ && _) eqn:Hcond.
    + apply andb_prop in Hcond as [Hcond Hstake].
      apply andb_prop in Hcond as [Hcond _].
      apply andb_prop in Hcond as [Hcond _].
      apply andb_prop in Hcond as [_ Hcal].
      apply Qle_bool_iff in Hstake, Hcal.
      split; [done|]. split; [|split; [done|by intros ? [= <-]; congruence]].
      intros tier [= <-]. exists v. eexists. split; [done|].
      cbn [fst validators]. split; [apply lookup_insert_eq|].
      split; [by destruct v|]. split; [by rewrite Ht|].
      split; [by destruct v|]. split; [by destruct v|]. split; [by destruct v|].
      split.
      * intros now'. unfold _check_tier_status.
        assert (Qltb (ValidatorState.calibration_score
                        (ValidatorState.set_tier_start_date now
                           (ValidatorState.set_tier ARBITER v)))
                  (TierConfig.min_calibration
                     (TIER_CONFIG (ValidatorState.tier
                        (ValidatorState.set_tier_start_date now
                           (ValidatorState.set_tier ARBITER v))))) = false) as ->;
          [|done].
        apply Qltb_false_ge. by destruct v.
      * intros other Hne. by rewrite lookup_insert_ne.
    + split; [done|]. split; [done|]. split; [done|]. by intros ? [= <-]; congruence.
  - split; [done|]. split; [done|]. split; [done|]. by intros.
Qed.

(** *** Votes *)

Lemma filter_nil_inv {A} (f : A -> bool) (l : list A) :
  List.filter f l = [] -> forall x, x ∈ l -> f x = false.
Proof.
  induction l as [|a l IH]; cbn; intros Hf x Hx; [by apply elem_of_nil in Hx|].
  destruct (f a) eqn:Hfa; [done|].
  apply elem_of_cons in Hx as [->|Hx]; [done|by apply IH].
Qed.

Lemma filter_elem_of {A} (f : A -> bool) (l : list A) x :
  x ∈ List.filter f l <-> x ∈ l /\ f x = true.
Proof. rewrite !list_elem_of_In. apply filter_In. Qed.

Lemma filter_map_NoDup {A B} `{EqDecision B} (g : A -> B) (f : A -> bool) (l : list A) :
  NoDup (map g l) -> NoDup (map g (List.filter f l)).
Proof.
  induction l as [|a l IH]; cbn; [done|].
  intros Hnd. apply NoDup_cons in Hnd as [Hnotin Hnd].
  destruct (f a); [|by apply IH].
  cbn. apply NoDup_cons. split; [|by apply IH].
  intros Hin. apply Hnotin.
  apply list_elem_of_fmap in Hin as (y & -> & Hy).
  apply filter_elem_of in Hy as [Hy _].
  apply list_elem_of_fmap. by exists y.
Qed.

(** X22.  A vote is accepted only from an assigned validator that has not voted,
    no later than the deadline; it is appended with its confidence clipped to
    [0, 1] and marks a registered voter as active.  A refused vote leaves the
    engine as it is, and after an accepted vote every further vote of the
    same validator on the dispute is refused. *)
Theorem vote_is_recorded_once self now dispute_id hotkey verdict confidence
    reasoning self' result :
  submit_vote self now dispute_id hotkey verdict confidence reasoning
  = Some (self', result) ->
  (result.1 = false -> self' = self /\ is_Some result.2)
  /\ (result.1 = true ->
      exists dispute_state votes vote,
        result.2 = None
        /\ active_disputes self !! dispute_id = Some dispute_state
        /\ active_disputes self' = active_disputes self
        /\ hotkey ∈ DisputeState.assigned_validators dispute_state
        /\ (now <= DisputeState.deadline dispute_state)%Z
        /\ dispute_votes self !! dispute_id = Some votes
        /\ (hotkey ∉ map Vote.validator_hotkey votes)
        /\ dispute_votes self' = <[dispute_id := votes ++ [vote]]> (dispute_votes self)
        /\ Vote.validator_hotkey vote = hotkey
        /\ Vote.verdict vote = verdict
        /\ 0 <= Vote.confidence vote <= 1
        /\ (0 <= confidence <= 1 -> Vote.confidence vote == confidence)
        /\ (forall v, validators self !! hotkey = Some v ->
              validators self' !! hotkey = Some (ValidatorState.set_last_active now v))
        /\ (forall other, other <> hotkey ->
              validators self' !! other = validators self !! other)
        /\ (forall now' verdict' confidence' reasoning',
              exists message,
                submit_vote self' now' dispute_id hotkey verdict' confidence' reasoning'
                = Some (self', (false, Some message))
                /\ (message = AlreadyVoted \/ message = AdjudicationWindowClosed))).
Proof.
  unfold submit_vote.
  destruct (active_disputes self !! dispute_id) as [ds|] eqn:Hds.
  2:{ intros [= <- <-]. split; [by eauto|done]. }
  case_bool_decide as Hassigned; cbn [negb].
  2:{ intros [= <- <-]. split; [by eauto|done]. }
  case_bool_decide as Hlate.
  { intros [= <- <-]. split; [by eauto|done]. }
  destruct (dispute_votes self !! dispute_id) as [votes|] eqn:Hvotes; [|done].
  destruct (List.filter _ votes) as [|x xs] eqn:Hexisting.
  2:{ intros [= <- <-]. split; [by eauto|done]. }
  intros [= <- <-]. split; [done|]. intros _.
  eexists ds, votes, _. split; [done|]. split; [done|].
  cbn [active_disputes dispute_votes validators].
  split; [done|]. split; [done|]. split; [lia|]. split; [done|].
  assert (hotkey ∉ map Vote.validator_hotkey votes) as Hfresh.
  { intros Hin. apply list_elem_of_fmap in Hin as (y & Hy & Hin).
    pose proof (filter_nil_inv _ _ Hexisting y Hin) as Hf. cbn in Hf.
    by apply bool_decide_eq_false in Hf. }
  split; [exact Hfresh|]. split; [reflexivity|].
  cbn [Vote.validator_hotkey Vote.verdict Vote.confidence].
  split; [done|]. split; [done|].
  split.
  { pose proof (clip_bounds 0.0 1.0 confidence ltac:(done)) as [? ?]. split; lra. }
  split.
  { intros [Hlo Hhi].
    destruct (py_max_spec 0.0 confidence) as [[_ ->]|[Hle ->]].
    - destruct (py_min_spec 1.0 confidence) as [[_ ->]|[? ->]]; lra.
    - destruct (py_min_spec 1.0 0.0) as [[_ ->]|[? ->]]; lra. }
  split.
  { intros v Hv. rewrite Hv. apply lookup_insert_eq. }
  split.
  { intros other Hne. destruct (validators self !! hotkey); [|done].
    by rewrite lookup_insert_ne. }
  intros now' verdict' confidence' reasoning'.
  rewrite Hds. rewrite bool_decide_true by done. cbn [negb].
  case_bool_decide; [by eauto|].
  rewrite lookup_insert_eq.
  rewrite List.filter_app. cbn [List.filter Vote.validator_hotkey].
  rewrite bool_decide_true by done.
  destruct (List.filter _ votes ++ _) as [|y ys] eqn:Hnil; [|by eauto].
  by apply app_eq_nil in Hnil as [_ ?].
Qed.

(** *** Assignment *)

Lemma foldl_Qplus_ge (l : list Q) : forall a,
  Forall (fun p => 0 < p) l ->
  a <= foldl Qplus a l /\ (l <> [] -> a < foldl Qplus a l).
Proof.
  induction l as [|p l IH]; intros a Hpos; cbn [foldl].
  - split; [lra|done].
  - apply Forall_cons in Hpos as [Hp Hpos].
    destruct (IH (a + p) Hpos) as [Hle _]. split; [lra|]. intros _. lra.
Qed.

Lemma py_sum_positive (l : list Q) :
  Forall (fun p => 0 < p) l -> l <> [] -> 0 < py_sum l.
Proof. intros Hpos Hne. by apply (foldl_Qplus_ge l 0). Qed.

Lemma first_reached_bound r (l : list Q) : forall cumsum i j,
  first_reached r cumsum i l = Some j -> (i <= j < i + length l)%nat.
Proof.
  induction l as [|p l IH]; intros cumsum i j; cbn; [done|].
  destruct (Qle_bool r (cumsum + p)).
  - intros [= <-]. lia.
  - intros Hj. apply IH in Hj. lia.
Qed.

Lemma validator_values_elem_of self v :
  v ∈ validator_values self <-> exists key, validators self !! key = Some v.
Proof.
  unfold validator_values. rewrite list_elem_of_fmap. split.
  - intros ([key v'] & -> & Hin). exists key. by apply elem_of_map_to_list in Hin.
  - intros (key & Hkey). exists (key, v). split; [done|].
    by apply elem_of_map_to_list.
Qed.

Lemma validator_values_hotkeys self :
  sound_registry (validators self) ->
  map ValidatorState.hotkey (validator_values self) = (map_to_list (validators self)).*1.
Proof.
  intros Hsound. unfold validator_values.
  assert (forall kv, kv ∈ map_to_list (validators self) ->
                     ValidatorState.hotkey kv.2 = kv.1) as Hall.
  { intros [key v] Hin. apply elem_of_map_to_list in Hin.
    by destruct (Hsound key v Hin) as [? _]. }
  induction (map_to_list (validators self)) as [|kv l IH]; [done|].
  cbn. f_equal.
  - apply Hall. by left.
  - apply IH. intros kv' Hin. apply Hall. by right.
Qed.

Lemma eligible_validators_elem_of self v :
  v ∈ eligible_validators self <->
  (exists key, validators self !! key = Some v)
  /\ ValidatorState.can_take_case v = true
  /\ 0.5 <= ValidatorState.calibration_score v.
Proof.
  unfold eligible_validators. rewrite filter_elem_of, validator_values_elem_of.
  rewrite andb_true_iff, Qle_bool_iff. tauto.
Qed.

Lemma eligible_validators_NoDup self :
  sound_registry (validators self) ->
  NoDup (map ValidatorState.hotkey (eligible_validators self)).
Proof.
  intros Hsound. apply filter_map_NoDup.
  rewrite validator_values_hotkeys by done. apply NoDup_fst_map_to_list.
Qed.

(** One round keeps the two lists aligned and the probabilities positive,
    raises nothing, and moves at most one identity from [available] to
    [selected]. *)
Lemma select_round_spec r selected available available_probs :
  length available = length available_probs ->
  Forall (fun p => 0 < p) available_probs ->
  exists selected' available' available_probs',
    select_round r (selected, available, available_probs)
    = inr (selected', available', available_probs')
    /\ length available' = length available_probs'
    /\ Forall (fun p => 0 < p) available_probs'
    /\ selected' ++ map ValidatorState.hotkey available'
       ≡ₚ selected ++ map ValidatorState.hotkey available
    /\ (length selected' <= length selected + 1)%nat.
Proof.
  intros Hlen Hpos. unfold select_round.
  assert (exists selected' available' available_probs',
             inr (selected, available, available_probs)
             = (inr (selected', available', available_probs')
                : AssignError + (list string * list ValidatorState.t * list Q))
             /\ length available' = length available_probs'
             /\ Forall (fun p => 0 < p) available_probs'
             /\ selected' ++ map ValidatorState.hotkey available'
                ≡ₚ selected ++ map ValidatorState.hotkey available
             /\ (length selected' <= length selected + 1)%nat) as Hsame.
  { exists selected, available, available_probs. repeat split; try done. lia. }
  destruct available as [|v0 rest] eqn:Hav; [exact Hsame|].
  destruct available_probs as [|p0 ps] eqn:Hps; [exact Hsame|].
  rewrite <- Hav, <- Hps in *. clear Hsame.
  assert (0 < py_sum available_probs) as Hsum.
  { apply py_sum_positive; [done|by rewrite Hps]. }
  destruct (Qeq_bool (py_sum available_probs) 0) eqn:Hz.
  { apply Qeq_bool_iff in Hz. lra. }
  destruct (first_reached _ _ _ _) as [i|] eqn:Hi.
  2:{ exists selected, available, available_probs. repeat split; try done. lia. }
  apply first_reached_bound in Hi. rewrite length_map in Hi.
  destruct (available !! i) as [v|] eqn:Hv.
  2:{ apply lookup_ge_None in Hv. lia. }
  eexists _, _, _. split; [reflexivity|].
  split; [rewrite !length_delete by (apply lookup_lt_is_Some; lia); lia|].
  split; [by apply Forall_delete|].
  split; [|rewrite length_app; cbn; lia].
  rewrite (delete_Permutation available i v Hv) at 2.
  cbn [map]. rewrite <- app_assoc. cbn. done.
Qed.

Lemma select_loop_spec draws count : forall k selected available available_probs,
  length available = length available_probs ->
  Forall (fun p => 0 < p) available_probs ->
  exists selected' available' available_probs',
    select_loop draws k count (selected, available, available_probs)
    = inr (selected', available', available_probs')
    /\ selected' ++ map ValidatorState.hotkey available'
       ≡ₚ selected ++ map ValidatorState.hotkey available
    /\ (length selected' <= length selected + count)%nat.
Proof.
  induction count as [|count IH]; intros k selected available available_probs Hlen Hpos.
  - exists selected, available, available_probs. cbn. repeat split; try done. lia.
  - cbn [select_loop].
    destruct (select_round_spec (draws k) selected available available_probs Hlen Hpos)
      as (s1 & a1 & p1 & -> & Hlen1 & Hpos1 & Hperm1 & Hn1).
    destruct (IH (S k) s1 a1 p1 Hlen1 Hpos1) as (s2 & a2 & p2 & -> & Hperm2 & Hn2).
    exists s2, a2, p2. split; [done|]. split; [by rewrite Hperm2|lia].
Qed.

Lemma count_cases_spec selected : forall vs,
  NoDup selected ->
  (forall hotkey, hotkey ∈ selected -> is_Some (vs !! hotkey)) ->
  exists vs',
    count_cases vs selected = inr vs'
    /\ (forall hotkey v, hotkey ∈ selected -> vs !! hotkey = Some v ->
          vs' !! hotkey = Some (bump_cases v))
    /\ (forall hotkey, hotkey ∉ selected -> vs' !! hotkey = vs !! hotkey).
Proof.
  induction selected as [|h rest IH]; intros vs Hnd Hin; cbn [count_cases].
  - exists vs. split; [done|]. split; [|done]. intros ? ? Hx. by apply elem_of_nil in Hx.
  - apply NoDup_cons in Hnd as [Hh Hnd].
    destruct (Hin h ltac:(by left)) as [v Hv]. rewrite Hv.
    fold (bump_cases v).
    destruct (IH (<[h := bump_cases v]> vs) Hnd) as (vs' & -> & Hsel & Hother).
    { intros h' Hh'. destruct (decide (h = h')) as [->|Hne]; [done|].
      rewrite lookup_insert_ne by done. apply Hin. by right. }
    exists vs'. split; [done|]. split.
    + intros h' v' Hh' Hv'. apply elem_of_cons in Hh' as [->|Hh'].
      * rewrite Hother by done. rewrite lookup_insert_eq. congruence.
      * apply Hsel; [done|]. rewrite lookup_insert_ne; [done|]. by intros ->.
    + intros h' Hh'. apply not_elem_of_cons in Hh' as [Hne Hh'].
      rewrite Hother by done. by rewrite lookup_insert_ne.
Qed.

Lemma bump_cases_sound key v : sound_validator key v -> sound_validator key (bump_cases v).
Proof. unfold sound_validator, bump_cases. by destruct v. Qed.

(** X23.  In a sound registry [assign_dispute] raises nothing.  It selects
    distinct registered validators that can take a case and have a score of
    at least 0.5, at most [num_validators] of them, and adds one case to each
    of them and to no one else.  With no eligible validator the engine is
    left as it is and the dispute is not tracked; otherwise the dispute is
    tracked with the selected panel, a deadline 4 hours ahead, no escalation
    and an empty vote list, whatever was stored under its identifier.  The
    registry and the votes stay sound. *)
Theorem assign_dispute_in_sound_registry self now draws dispute_id dispute
    num_validators :
  sound_registry (validators self) ->
  exists self' selected,
    assign_dispute self now draws dispute_id dispute num_validators
    = inr (self', selected)
    /\ NoDup selected
    /\ (Z.of_nat (length selected) <= Z.max 0 num_validators)%Z
    /\ (forall hotkey, hotkey ∈ selected ->
          exists v,
            validators self !! hotkey = Some v
            /\ ValidatorState.can_take_case v = true
            /\ 0.5 <= ValidatorState.calibration_score v
            /\ validators self' !! hotkey = Some (bump_cases v))
    /\ (forall hotkey, hotkey ∉ selected ->
          validators self' !! hotkey = validators self !! hotkey)
    /\ sound_registry (validators self')
    /\ (eligible_validators self = [] -> self' = self /\ selected = [])
    /\ (eligible_validators self <> [] ->
        active_disputes self'
        = <[dispute_id :=
              {| DisputeState.dispute := dispute;
                 DisputeState.assigned_validators := selected;
                 DisputeState.deadline := (now + timedelta_hours 4)%Z;
                 DisputeState.escalated := false |}]> (active_disputes self)
        /\ dispute_votes self' = <[dispute_id := []]> (dispute_votes self)
        /\ epoch_start self' = epoch_start self)
    /\ (sound_votes self -> sound_votes self').
Proof.
  intros Hsound. unfold assign_dispute.
  destruct (eligible_validators self) as [|v0 rest] eqn:Hel.
  { exists self, []. split; [done|]. split; [constructor|]. split; [cbn; lia|].
    split; [intros ? Hx; by apply elem_of_nil in Hx|].
    split; [done|]. split; [exact Hsound|]. split; [done|].
    split; [by intros Hne|done]. }
  rewrite <- Hel.
  assert (Forall (fun v => 0 < ValidatorState.effective_weight v)
            (eligible_validators self)) as Hweights.
  { apply Forall_forall. intros v Hv.
    apply eligible_validators_elem_of in Hv as ((key & Hkey) & _ & Hscore).
    destruct (Hsound key v Hkey) as (_ & Hstake & _).
    pose proof (stake_required_positive (ValidatorState.tier v)).
    pose proof (weight_multiplier_positive (ValidatorState.tier v)).
    unfold ValidatorState.effective_weight.
    assert (0 < ValidatorState.stake v * ValidatorState.calibration_score v) by nra.
    nra. }
  set (weights := map ValidatorState.effective_weight (eligible_validators self)).
  assert (0 < py_sum weights) as Htotal.
  { apply py_sum_positive.
    - unfold weights. by apply Forall_fmap.
    - unfold weights. rewrite Hel. done. }
  destruct (Qeq_bool (py_sum weights) 0) eqn:Hz.
  { apply Qeq_bool_iff in Hz. lra. }
  set (count := Z.to_nat _).
  destruct (select_loop_spec draws count 0 [] (eligible_validators self)
              (map (fun w => w / py_sum weights) weights))
    as (selected & available & probs & -> & Hperm & Hcount).
  { unfold weights. by rewrite !length_map. }
  { revert Htotal. generalize (py_sum weights). intros total Htotal.
    apply Forall_fmap. unfold weights. apply Forall_fmap.
    eapply Forall_impl; [exact Hweights|]. cbn. intros v Hv.
    apply Qlt_shift_div_l; lra. }
  cbn [app length] in Hperm, Hcount.
  pose proof (eligible_validators_NoDup self Hsound) as Hnd.
  rewrite <- Hperm in Hnd. apply NoDup_app in Hnd as (Hnd & _ & _).
  assert (forall hotkey, hotkey ∈ selected ->
            exists v, validators self !! hotkey = Some v
                      /\ ValidatorState.can_take_case v = true
                      /\ 0.5 <= ValidatorState.calibration_score v) as Hsel.
  { intros hotkey Hin.
    assert (hotkey ∈ map ValidatorState.hotkey (eligible_validators self)) as Hin'.
    { rewrite <- Hperm. apply elem_of_app. by left. }
    apply list_elem_of_fmap in Hin' as (v & -> & Hv).
    apply eligible_validators_elem_of in Hv as ((key & Hkey) & Hcan & Hscore).
    destruct (Hsound key v Hkey) as (-> & _).
    by exists v. }
  destruct (count_cases_spec selected (validators self) Hnd)
    as (vs' & -> & Hbumped & Hother).
  { intros hotkey Hin. destruct (Hsel hotkey Hin) as (v & -> & _). by eexists. }
  eexists _, selected. split; [reflexivity|].
  cbn [validators active_disputes dispute_votes epoch_start].
  split; [exact Hnd|]. split.
  { unfold count in Hcount. lia. }
  split.
  { intros hotkey Hin. destruct (Hsel hotkey Hin) as (v & Hv & Hcan & Hscore).
    exists v. repeat split; try done. by apply Hbumped. }
  split; [exact Hother|].
  split.
  { intros key v Hv. destruct (decide (key ∈ selected)) as [Hin|Hout].
    - destruct (Hsel key Hin) as (v1 & Hv1 & _).
      rewrite (Hbumped key v1 Hin Hv1) in Hv. injection Hv as <-.
      by apply bump_cases_sound, Hsound.
    - rewrite Hother in Hv by done. by apply Hsound. }
  split; [by rewrite Hel|]. split; [by intros _|].
  intros Hvotes id ds votes.
  cbn [active_disputes dispute_votes].
  destruct (decide (dispute_id = id)) as [->|Hne].
  - rewrite !lookup_insert_eq. intros [= <-] [= <-]. split; [constructor|].
    intros ? Hx. by apply elem_of_nil in Hx.
  - rewrite !lookup_insert_ne by done. apply Hvotes.
Qed.

(** *** What the engine keeps true of the votes *)

Lemma apply_calibration_updates_frame exp now final_verdict votes : forall self,
  active_disputes (apply_calibration_updates exp self now final_verdict votes)
  = active_disputes self
  /\ dispute_votes (apply_calibration_updates exp self now final_verdict votes)
     = dispute_votes self
  /\ epoch_start (apply_calibration_updates exp self now final_verdict votes)
     = epoch_start self.
Proof.
  unfold apply_calibration_updates.
  induction votes as [|vote votes IH]; intros self; cbn [foldl]; [done|].
  destruct (IH (update_calibration exp self now (Vote.validator_hotkey vote)
                  (bool_decide (Vote.verdict vote = final_verdict))
                  (Vote.confidence vote))) as (-> & -> & ->).
  unfold update_calibration. by destruct (validators self !! _).
Qed.

Lemma escalate_to_arbiters_sound_votes self now dispute_id :
  sound_votes self -> sound_votes (escalate_to_arbiters self now dispute_id).1.
Proof.
  intros Hsound. unfold escalate_to_arbiters.
  destruct (active_disputes self !! dispute_id) as [ds|] eqn:Hds; [|done].
  destruct (available_arbiters self) as [|a0 arbiters] eqn:Harb; [done|].
  rewrite <- Harb. cbn [fst]. intros id ds' votes'.
  cbn [active_disputes dispute_votes].
  destruct (decide (dispute_id = id)) as [->|Hne].
  2:{ rewrite !lookup_insert_ne by done. apply Hsound. }
  rewrite !lookup_insert_eq. intros [= <-] [= <-].
  cbn [DisputeState.assigned_validators].
  destruct (dispute_votes self !! id) as [votes|] eqn:Hvotes; cbn [default].
  2:{ cbn. split; [constructor|]. intros ? Hx. by apply elem_of_nil in Hx. }
  destruct (Hsound id ds votes Hds Hvotes) as [Hnd Hall]. split.
  - by apply filter_map_NoDup.
  - intros vote Hin. apply filter_elem_of in Hin as [Hin Hkept].
    apply bool_decide_eq_true in Hkept. apply elem_of_list_to_set in Hkept.
    split; [exact Hkept|]. by apply Hall.
Qed.

(** X24.  Votes stay sound: if the votes of every dispute in flight are cast by
    assigned validators, one per validator, with a confidence within [0, 1],
    then the same holds after a vote is submitted, after an escalation and
    after a dispute is finalized. *)
Theorem votes_stay_sound self :
  sound_votes self ->
  (forall now dispute_id hotkey verdict confidence reasoning self' result,
      submit_vote self now dispute_id hotkey verdict confidence reasoning
      = Some (self', result) ->
      sound_votes self')
  /\ (forall now dispute_id, sound_votes (escalate_to_arbiters self now dispute_id).1)
  /\ (forall exp now dispute_id, sound_votes (finalize_dispute exp self now dispute_id).1).
Proof.
  intros Hsound. split; [|split].
  - intros now dispute_id hotkey verdict confidence reasoning self' result.
    unfold submit_vote.
    destruct (active_disputes self !! dispute_id) as [ds|] eqn:Hds;
      [|by intros [= <- <-]].
    case_bool_decide as Hassigned; cbn [negb]; [|by intros [= <- <-]].
    case_bool_decide as Hlate; [by intros [= <- <-]|].
    destruct (dispute_votes self !! dispute_id) as [votes|] eqn:Hvotes; [|done].
    destruct (List.filter _ votes) as [|x xs] eqn:Hexisting; [|by intros [= <- <-]].
    intros [= <- <-]. intros id ds' votes'.
    cbn [active_disputes dispute_votes].
    destruct (decide (dispute_id = id)) as [->|Hne].
    2:{ rewrite lookup_insert_ne by done. apply Hsound. }
    rewrite lookup_insert_eq, Hds. intros [= <-] [= <-].
    destruct (Hsound id ds votes Hds Hvotes) as [Hnd Hall]. split.
    + rewrite map_app. cbn. apply NoDup_app. split; [done|]. split.
      * intros h Hin Hh. apply list_elem_of_singleton in Hh as ->.
        apply list_elem_of_fmap in Hin as (y & Hy & Hin).
        pose proof (filter_nil_inv _ _ Hexisting y Hin) as Hf. cbn in Hf.
        by apply bool_decide_eq_false in Hf.
      * apply NoDup_singleton.
    + intros vote Hin. apply elem_of_app in Hin as [Hin|Hin]; [by apply Hall|].
      apply list_elem_of_singleton in Hin as ->. cbn. split; [done|].
      pose proof (clip_bounds 0.0 1.0 confidence ltac:(done)) as [? ?]. split; lra.
  - intros now dispute_id. by apply escalate_to_arbiters_sound_votes.
  - intros exp now dispute_id. unfold finalize_dispute.
    destruct (calculate_consensus self dispute_id) as [result|]; [|done].
    destruct (active_disputes self !! dispute_id) as [ds|] eqn:Hds; [|done].
    destruct (_ && _); [by apply escalate_to_arbiters_sound_votes|].
    cbn [fst]. intros id ds' votes'. cbn [active_disputes dispute_votes].
    destruct (apply_calibration_updates_frame exp now
                (ConsensusResult.final_verdict result)
                (default [] (dispute_votes self !! dispute_id)) self)
      as (-> & -> & _).
    intros Hin. apply lookup_delete_Some in Hin as [_ Hin]. by apply Hsound.
Qed.

(** *** Finalizing *)

Lemma calculate_consensus_is_Some self dispute_id :
  is_Some (calculate_consensus self dispute_id)
  <-> is_Some (active_disputes self !! dispute_id).
Proof.
  unfold calculate_consensus.
  destruct (active_disputes self !! dispute_id) as [ds|];
    [|split; intros [? ?]; done].
  split; [by eauto|]. intros _.
  destruct (default [] (dispute_votes self !! dispute_id)) as [|vote0 rest] eqn:Hvs;
    [by eauto|].
  rewrite <- Hvs.
  destruct (ConsensusProofs.tally_loop (validators self)
              (default [] (dispute_votes self !! dispute_id)) 0.0 0.0 0.0 0.0 0.0)
    as (a & b & c & d & t & Hf & _).
  change zero_weights with (weights_of 0.0 0.0 0.0 0.0). rewrite Hf.
  destruct (Qeq_bool t 0); [by eauto|].
  cbn [map weights_of].
  change [(CHALLENGE_UPHELD, a / t); (CHALLENGE_REJECTED, b / t);
          (PARTIAL, c / t); (ABSTAIN, d / t)]
    with (weights_of (a / t) (b / t) (c / t) (d / t)).
  destruct (ConsensusProofs.max_by_weight_weights_of (a / t) (b / t) (c / t) (d / t))
    as (w & -> & _).
  by eauto.
Qed.

Lemma finalize_dispute_not_active exp self now dispute_id :
  active_disputes self !! dispute_id = None ->
  finalize_dispute exp self now dispute_id = (self, None).
Proof.
  intros Hnone. unfold finalize_dispute, calculate_consensus. by rewrite Hnone.
Qed.

Lemma finalize_dispute_settles exp self now dispute_id dispute_state tally :
  active_disputes self !! dispute_id = Some dispute_state ->
  calculate_consensus self dispute_id = Some tally ->
  ConsensusResult.consensus_reached tally = true
  \/ DisputeState.escalated dispute_state = true ->
  finalize_dispute exp self now dispute_id
  = ({| validators :=
          validators
            (apply_calibration_updates exp self now
               (ConsensusResult.final_verdict tally)
               (default [] (dispute_votes self !! dispute_id)));
        active_disputes := delete dispute_id (active_disputes self);
        dispute_votes := dispute_votes self;
        epoch_start := epoch_start self |},
     Some tally).
Proof.
  intros Hds Htally Hor. unfold finalize_dispute. rewrite Htally, Hds.
  destruct (apply_calibration_updates_frame exp now
              (ConsensusResult.final_verdict tally)
              (default [] (dispute_votes self !! dispute_id)) self)
    as (-> & -> & ->).
  destruct Hor as [-> | ->]; cbn [negb andb]; [done|].
  by rewrite andb_false_r.
Qed.

Lemma finalize_dispute_escalates exp self now dispute_id dispute_state tally :
  active_disputes self !! dispute_id = Some dispute_state ->
  calculate_consensus self dispute_id = Some tally ->
  ConsensusResult.consensus_reached tally = false ->
  DisputeState.escalated dispute_state = false ->
  finalize_dispute exp self now dispute_id = escalate_to_arbiters self now dispute_id.
Proof.
  intros Hds Htally Hreach Hesc. unfold finalize_dispute.
  by rewrite Htally, Hds, Hreach, Hesc.
Qed.

(** X26.  [finalize_dispute] does one of three things to a dispute in flight.
    When the tally reaches consensus or the dispute was already escalated, it
    settles: the tally is returned, the dispute leaves the disputes in flight
    and a further call returns nothing.  When neither holds and no arbiter is
    available, the engine is left as it is and the tally is returned marked
    as escalated.  When neither holds and an arbiter is available, the
    dispute is escalated: the panel becomes the available arbiters, the
    deadline is 6 hours ahead, only the votes of these arbiters are kept, the
    registry is untouched, and the next call settles the dispute.  A dispute
    that is not in flight gives nothing and changes nothing. *)
Theorem finalize_dispute_outcomes exp self now dispute_id :
  let out := finalize_dispute exp self now dispute_id in
  (active_disputes self !! dispute_id = None -> out = (self, None))
  /\ (forall dispute_state,
        active_disputes self !! dispute_id = Some dispute_state ->
        exists tally,
          calculate_consensus self dispute_id = Some tally
          /\ (((ConsensusResult.consensus_reached tally = true
                \/ DisputeState.escalated dispute_state = true)
               /\ out.2 = Some tally
               /\ validators out.1
                  = validators
                      (apply_calibration_updates exp self now
                         (ConsensusResult.final_verdict tally)
                         (default [] (dispute_votes self !! dispute_id)))
               /\ active_disputes out.1 = delete dispute_id (active_disputes self)
               /\ dispute_votes out.1 = dispute_votes self
               /\ (forall now', finalize_dispute exp out.1 now' dispute_id = (out.1, None)))
              \/ (ConsensusResult.consensus_reached tally = false
                  /\ DisputeState.escalated dispute_state = false
                  /\ available_arbiters self = []
                  /\ out = (self, Some (ConsensusResult.set_escalated true tally)))
              \/ (ConsensusResult.consensus_reached tally = false
                  /\ DisputeState.escalated dispute_state = false
                  /\ available_arbiters self <> []
                  /\ validators out.1 = validators self
                  /\ active_disputes out.1 !! dispute_id
                     = Some {| DisputeState.dispute := DisputeState.dispute dispute_state;
                               DisputeState.assigned_validators :=
                                 map ValidatorState.hotkey (available_arbiters self);
                               DisputeState.deadline := (now + timedelta_hours 6)%Z;
                               DisputeState.escalated := true |}
                  /\ (exists kept result,
                        dispute_votes out.1 !! dispute_id = Some kept
                        /\ (forall vote,
                              vote ∈ kept <->
                              vote ∈ default [] (dispute_votes self !! dispute_id)
                              /\ (Vote.validator_hotkey vote
                                  ∈ map ValidatorState.hotkey (available_arbiters self)))
                        /\ out.2 = Some result
                        /\ ConsensusResult.escalated result = true
                        /\ ConsensusResult.final_verdict result = ABSTAIN)
                  /\ (forall other, other <> dispute_id ->
                        active_disputes out.1 !! other = active_disputes self !! other
                        /\ dispute_votes out.1 !! other = dispute_votes self !! other)
                  /\ (forall now',
                        active_disputes
                          (finalize_dispute exp out.1 now' dispute_id).1 !! dispute_id
                        = None)))).
Proof.
  intros out. subst out. split; [by apply finalize_dispute_not_active|].
  intros ds Hds.
  destruct (proj2 (calculate_consensus_is_Some self dispute_id) ltac:(by eauto))
    as [tally Htally].
  exists tally. split; [exact Htally|].
  destruct (ConsensusResult.consensus_reached tally) eqn:Hreach.
  { left. split; [by left|].
    rewrite (finalize_dispute_settles exp self now dispute_id ds tally Hds Htally)
      by (left; exact Hreach).
    cbn [fst snd validators active_disputes dispute_votes].
    split; [done|]. split; [done|]. split; [done|]. split; [done|].
    intros now'. apply finalize_dispute_not_active.
    cbn [active_disputes]. by rewrite lookup_delete_eq. }
  destruct (DisputeState.escalated ds) eqn:Hesc.
  { left. split; [by right|].
    rewrite (finalize_dispute_settles exp self now dispute_id ds tally Hds Htally)
      by (right; exact Hesc).
    cbn [fst snd validators active_disputes dispute_votes].
    split; [done|]. split; [done|]. split; [done|]. split; [done|].
    intros now'. apply finalize_dispute_not_active.
    cbn [active_disputes]. by rewrite lookup_delete_eq. }
  right.
  rewrite (finalize_dispute_escalates exp self now dispute_id ds tally Hds Htally
             Hreach Hesc).
  unfold escalate_to_arbiters. rewrite Hds.
  destruct (available_arbiters self) as [|a0 arbiters] eqn:Harb.
  { left. rewrite Htally. done. }
  right. rewrite <- Harb.
  split; [done|]. split; [done|]. split; [by rewrite Harb|].
  cbn [fst snd validators active_disputes dispute_votes].
  split; [done|]. split; [by rewrite lookup_insert_eq|]. split.
  { eexists _, _. split; [by rewrite lookup_insert_eq|]. split; [|done].
    intros vote. rewrite filter_elem_of, bool_decide_eq_true, elem_of_list_to_set.
    done. }
  split.
  { intros other Hne. by rewrite !lookup_insert_ne. }
  intros now'.
  match goal with |- active_disputes (finalize_dispute exp ?st now' dispute_id).1 !! _ = _ =>
    set (self1 := st) end.
  assert (active_disputes self1 !! dispute_id
          = Some {| DisputeState.dispute := DisputeState.dispute ds;
                    DisputeState.assigned_validators :=
                      map ValidatorState.hotkey (available_arbiters self);
                    DisputeState.deadline :=
                      (now + timedelta_hours ESCALATION_WINDOW_HOURS)%Z;
                    DisputeState.escalated := true |}) as Hds1.
  { unfold self1. cbn [active_disputes]. by rewrite lookup_insert_eq. }
  destruct (proj2 (calculate_consensus_is_Some self1 dispute_id) ltac:(by eauto))
    as [tally1 Htally1].
  rewrite (finalize_dispute_settles exp self1 now' dispute_id _ tally1 Hds1 Htally1)
    by (by right).
  cbn [fst active_disputes]. by rewrite lookup_delete_eq.
Qed.


(** *** Calibration updates with a positive weighting function *)

Section PositiveExp.

Variable exp : Q -> Q.
Hypothesis exp_positive : forall x, 0 < exp x.

Lemma history_step_bounds now entry weighted_sum weight_total :
  aligned entry ->
  0 <= weighted_sum <= weight_total ->
  0 <= (history_step exp now (weighted_sum, weight_total) entry).1
       <= (history_step exp now (weighted_sum, weight_total) entry).2
  /\ weight_total < (history_step exp now (weighted_sum, weight_total) entry).2.
Proof.
  intros [Hlo Hhi] Hacc. unfold history_step. cbn [fst snd].
  set (w := exp _). pose proof (exp_positive
    (inject_Z (- timedelta_days now (HistoryEntry.timestamp entry))
     / CALIBRATION_TIME_CONSTANT_DAYS)) as Hw. fold w in Hw.
  set (a := HistoryEntry.alignment entry) in *.
  destruct (HistoryEntry.correct entry).
  - assert (0 <= a * w) by nra. assert (a * w <= w) by nra. lra.
  - assert (0 <= a * 0.5 * w) by nra. assert (a * 0.5 * w <= w) by nra. lra.
Qed.

Lemma history_fold_bounds now history : forall weighted_sum weight_total,
  Forall aligned history ->
  0 <= weighted_sum <= weight_total ->
  0 <= (foldl (history_step exp now) (weighted_sum, weight_total) history).1
       <= (foldl (history_step exp now) (weighted_sum, weight_total) history).2
  /\ (history <> [] ->
      weight_total
      < (foldl (history_step exp now) (weighted_sum, weight_total) history).2).
Proof.
  induction history as [|entry history IH]; intros ws wt Hall Hacc; cbn [foldl].
  - by split.
  - apply Forall_cons in Hall as [Hentry Hall].
    destruct (history_step_bounds now entry ws wt Hentry Hacc) as [Hstep Hgrow].
    destruct (history_step exp now (ws, wt) entry) as [ws1 wt1] eqn:Hs.
    cbn [fst snd] in Hstep, Hgrow.
    destruct (IH ws1 wt1 Hall Hstep) as [Hrest Hmore]. split; [exact Hrest|].
    intros _. destruct history as [|e2 history'].
    + cbn [foldl snd]. exact Hgrow.
    + specialize (Hmore ltac:(done)). lra.
Qed.

Lemma _recalculate_calibration_mean now v :
  Forall aligned (ValidatorState.verdict_history v) ->
  ValidatorState.verdict_history v <> [] ->
  exists score,
    _recalculate_calibration exp now v = ValidatorState.set_calibration_score score v
    /\ 0.3 <= score <= 1.
Proof.
  intros Hall Hne. unfold _recalculate_calibration.
  destruct (ValidatorState.verdict_history v) as [|e es] eqn:Hh; [done|].
  rewrite <- Hh in *.
  destruct (history_fold_bounds now (ValidatorState.verdict_history v) 0.0 0.0 Hall
              ltac:(lra)) as [Hb Hgrow].
  specialize (Hgrow Hne).
  destruct (foldl _ _ _) as [weighted_sum weight_total]. cbn [fst snd] in Hb, Hgrow.
  assert (0 < weight_total) as Hpos by lra.
  rewrite (proj2 (Qltb_true_lt 0 weight_total) Hpos).
  eexists. split; [reflexivity|].
  assert (0 <= weighted_sum / weight_total) as Hq0 by (apply Qle_shift_div_l; lra).
  assert (weighted_sum / weight_total <= 1) as Hq1 by (apply Qle_shift_div_r; lra).
  destruct (py_max_spec 0.3 (weighted_sum / weight_total)) as [[? ->]|[? ->]];
    match goal with |- context [py_min ?a ?b] =>
      destruct (py_min_spec a b) as [[? ->]|[? ->]] end; lra.
Qed.

Lemma _check_tier_status_exact now v :
  (TierConfig.min_calibration (TIER_CONFIG (ValidatorState.tier v))
   <= ValidatorState.calibration_score v ->
   _check_tier_status now v = v)
  /\ (ValidatorState.calibration_score v
      < TierConfig.min_calibration (TIER_CONFIG (ValidatorState.tier v)) ->
      exists tier,
        _check_tier_status now v
        = ValidatorState.set_tier_start_date now (ValidatorState.set_tier tier v)
        /\ tier_rank tier = Nat.pred (tier_rank (ValidatorState.tier v))).
Proof.
  unfold _check_tier_status. split.
  - intros Hge. by rewrite (proj2 (Qltb_false_ge _ _) Hge).
  - intros Hlt. rewrite (proj2 (Qltb_true_lt _ _) Hlt).
    destruct v as [h t st cs vsub cv ce la ts se vh]. cbn.
    destruct t; eexists; split; try reflexivity; done.
Qed.

(** X27.  One calibration update of a validator whose history has alignments
    within [0, 1], by a verdict of confidence within [0, 1]: the verdict is
    counted, and counted as correct when it was; the history grows by one entry
    stamped with the instant, whose alignment is [1 - |1.0 - confidence|] for
    a correct verdict and [1 - confidence] for a wrong one, as the code
    computes them, and lies within [0, 1]; the new score is
    within [0.3, 1]; the tier is kept when the new score reaches its floor and
    otherwise falls by exactly one step (a scout stays a scout) with the tier
    clock restarted; identity, stake, case count and activity stamp are
    untouched. *)
Theorem calibration_update_effects now was_correct confidence v :
  0 <= confidence <= 1 ->
  Forall aligned (ValidatorState.verdict_history v) ->
  let v' := updated_validator exp now was_correct confidence v in
  ValidatorState.verdicts_submitted v' = (ValidatorState.verdicts_submitted v + 1)%Z
  /\ ValidatorState.correct_verdicts v'
     = (ValidatorState.correct_verdicts v + (if was_correct then 1 else 0))%Z
  /\ (exists entry,
        ValidatorState.verdict_history v' = ValidatorState.verdict_history v ++ [entry]
        /\ HistoryEntry.timestamp entry = now
        /\ HistoryEntry.correct entry = was_correct
        /\ HistoryEntry.confidence entry = confidence
        /\ HistoryEntry.alignment entry
           = (if was_correct then 1 - Qabs (1.0 - confidence) else 1 - confidence)
        /\ 0 <= HistoryEntry.alignment entry <= 1)
  /\ Forall aligned (ValidatorState.verdict_history v')
  /\ 0.3 <= ValidatorState.calibration_score v' <= 1
  /\ (TierConfig.min_calibration (TIER_CONFIG (ValidatorState.tier v))
      <= ValidatorState.calibration_score v' ->
      ValidatorState.tier v' = ValidatorState.tier v
      /\ ValidatorState.tier_start_date v' = ValidatorState.tier_start_date v)
  /\ (ValidatorState.calibration_score v'
      < TierConfig.min_calibration (TIER_CONFIG (ValidatorState.tier v)) ->
      tier_rank (ValidatorState.tier v') = Nat.pred (tier_rank (ValidatorState.tier v))
      /\ ValidatorState.tier_start_date v' = now)
  /\ ValidatorState.hotkey v' = ValidatorState.hotkey v
  /\ ValidatorState.stake v' = ValidatorState.stake v
  /\ ValidatorState.cases_this_epoch v' = ValidatorState.cases_this_epoch v
  /\ ValidatorState.last_active v' = ValidatorState.last_active v.
Proof.
  intros Hconf Hall v'. subst v'. unfold updated_validator.
  set (alignment := if was_correct then 1 - Qabs (1.0 - confidence) else 1 - confidence).
  assert (alignment == (if was_correct then confidence else 1 - confidence)) as Halign.
  { unfold alignment. destruct was_correct; [|reflexivity].
    rewrite Qabs_pos by lra. ring. }
  set (entry := {| HistoryEntry.timestamp := now;
                   HistoryEntry.correct := was_correct;
                   HistoryEntry.confidence := confidence;
                   HistoryEntry.alignment := alignment |}).
  assert (aligned entry) as Hentry.
  { unfold aligned. cbn. rewrite Halign. destruct was_correct; lra. }
  set (v1 := ValidatorState.set_verdict_history _ _).
  assert (ValidatorState.verdicts_submitted v1
          = (ValidatorState.verdicts_submitted v + 1)%Z
          /\ ValidatorState.correct_verdicts v1
             = (ValidatorState.correct_verdicts v + (if was_correct then 1 else 0))%Z
          /\ ValidatorState.verdict_history v1
             = ValidatorState.verdict_history v ++ [entry]
          /\ ValidatorState.tier v1 = ValidatorState.tier v
          /\ ValidatorState.tier_start_date v1 = ValidatorState.tier_start_date v
          /\ ValidatorState.hotkey v1 = ValidatorState.hotkey v
          /\ ValidatorState.stake v1 = ValidatorState.stake v
          /\ ValidatorState.cases_this_epoch v1 = ValidatorState.cases_this_epoch v
          /\ ValidatorState.last_active v1 = ValidatorState.last_active v)
    as (H1 & H2 & H3 & H4 & H5 & H6 & H7 & H8 & H9).
  { unfold v1. destruct v, was_correct; cbn; repeat split; lia. }
  clearbody v1.
  assert (Forall aligned (ValidatorState.verdict_history v1)) as Hall1.
  { rewrite H3. apply Forall_app. split; [done|]. by apply Forall_singleton. }
  destruct (_recalculate_calibration_mean now v1 Hall1) as (score & -> & Hscore).
  { rewrite H3. by destruct (ValidatorState.verdict_history v). }
  set (v2 := ValidatorState.set_calibration_score score v1).
  assert (ValidatorState.verdicts_submitted v2 = ValidatorState.verdicts_submitted v1
          /\ ValidatorState.correct_verdicts v2 = ValidatorState.correct_verdicts v1
          /\ ValidatorState.verdict_history v2 = ValidatorState.verdict_history v1
          /\ ValidatorState.tier v2 = ValidatorState.tier v1
          /\ ValidatorState.tier_start_date v2 = ValidatorState.tier_start_date v1
          /\ ValidatorState.hotkey v2 = ValidatorState.hotkey v1
          /\ ValidatorState.stake v2 = ValidatorState.stake v1
          /\ ValidatorState.cases_this_epoch v2 = ValidatorState.cases_this_epoch v1
          /\ ValidatorState.last_active v2 = ValidatorState.last_active v1
          /\ ValidatorState.calibration_score v2 = score)
    as (G1 & G2 & G3 & G4 & G5 & G6 & G7 & G8 & G9 & G10).
  { unfold v2. by destruct v1. }
  clearbody v2.
  destruct (_check_tier_status_exact now v2) as [Hkeep Hfall].
  rewrite G4, H4, G10 in Hkeep, Hfall.
  destruct (Qlt_le_dec score
              (TierConfig.min_calibration (TIER_CONFIG (ValidatorState.tier v))))
    as [Hlt|Hge].
  - destruct (Hfall Hlt) as (tier & -> & Hrank).
    assert (forall x y, ValidatorState.calibration_score
                          (ValidatorState.set_tier_start_date x
                             (ValidatorState.set_tier y v2)) = score) as Hs.
    { intros. rewrite <- G10. by destruct v2. }
    rewrite Hs.
    split; [destruct v2; cbn in *; congruence|].
    split; [destruct v2; cbn in *; congruence|].
    split.
    { exists entry. split; [destruct v2; cbn in *; congruence|].
      do 4 (split; [done|]). exact Hentry. }
    split.
    { assert (forall x y, ValidatorState.verdict_history
                            (ValidatorState.set_tier_start_date x
                               (ValidatorState.set_tier y v2))
                          = ValidatorState.verdict_history v1) as ->; [|exact Hall1].
      intros. rewrite <- G3. by destruct v2. }
    split; [exact Hscore|].
    split; [intros; lra|]. split.
    { intros _. split; [|by destruct v2]. rewrite <- Hrank. by destruct v2. }
    repeat split; destruct v2; cbn in *; congruence.
  - rewrite (Hkeep Hge). rewrite G10, G1, G2, G3, G4, G5, G6, G7, G8, G9.
    split; [done|]. split; [done|]. split.
    { exists entry. do 5 (split; [done|]). exact Hentry. }
    split; [exact Hall1|]. split; [exact Hscore|]. split; [done|].
    split; [intros; lra|]. by repeat split.
Qed.

End PositiveExp.

(** *** Concrete runs *)

Lemma panel_sound_registry votes : sound_registry (validators (panel votes)).
Proof.
  intros key v. cbn [panel validators].
  rewrite !lookup_insert_Some, lookup_singleton_Some.
  intros [[<- <-]|[_ [[<- <-]|[_ [<- <-]]]]];
    (split; [reflexivity|]); (split; [by vm_compute|]);
    (split; [split; by vm_compute|]); split; by vm_compute.
Defined.

Lemma split_votes_sound : sound_votes (panel split_votes).
Proof.
  intros dispute_id dispute_state votes. cbn [panel active_disputes dispute_votes].
  rewrite !lookup_singleton_Some. intros [<- <-] [_ <-]. split.
  - apply (bool_decide_unpack _). vm_compute. exact I.
  - intros vote Hin. cbn [DisputeState.assigned_validators].
    unfold split_votes in Hin.
    repeat (apply elem_of_cons in Hin as [->|Hin]);
      [..|by apply elem_of_nil in Hin];
      (split; [apply (bool_decide_unpack _); vm_compute; exact I
              |split; by vm_compute]).
Defined.

(** A seasoned scout is promoted to auditor, not further. *)
Example seasoned_scout_becomes_auditor :
  (check_tier_promotion seasoned_registry day30 "s").2 = Some AUDITOR
  /\ (check_tier_promotion (check_tier_promotion seasoned_registry day30 "s").1
        day30 "s").2 = None.
Proof. split; by vm_compute. Qed.

(** A split panel with an arbiter at hand is escalated by the first call
    and settled, without consensus, by the second. *)
Example split_panel_is_escalated_then_settled :
  exists self1 result1 self2 result2,
    finalize_dispute flat_weight (panel_with_arbiter split_votes) 50%Z "d1"
    = (self1, Some result1)
    /\ ConsensusResult.escalated result1 = true
    /\ ConsensusResult.participating_validators result1 = ["z"]
    /\ dispute_votes self1 !! "d1" = Some []
    /\ finalize_dispute flat_weight self1 60%Z "d1" = (self2, Some result2)
    /\ ConsensusResult.consensus_reached result2 = false
    /\ active_disputes self2 !! "d1" = None.
Proof.
  eexists _, _, _, _. split; [vm_compute; reflexivity|].
  split; [reflexivity|]. split; [reflexivity|]. split; [reflexivity|].
  split; [vm_compute; reflexivity|]. split; reflexivity.
Qed.

Lemma effective_weight_sign_and_growth_witness :
  0 <= ValidatorState.stake (scout "a" 400)
  /\ 0 <= ValidatorState.calibration_score (scout "a" 400)
  /\ 0 < ValidatorState.effective_weight (scout "a" 400)
  /\ ValidatorState.effective_weight (scout "a" 400)
     <= ValidatorState.effective_weight (scout "b" 500).
Proof.
  assert (0 <= ValidatorState.stake (scout "a" 400)) as Hs by (by vm_compute).
  assert (0 <= ValidatorState.calibration_score (scout "a" 400)) as Hc
    by (by vm_compute).
  destruct (effective_weight_sign_and_growth (scout "a" 400) (scout "b" 500) Hs Hc)
    as [Hsign Hgrow].
  split; [exact Hs|]. split; [exact Hc|]. split.
  - apply Hsign. split; by vm_compute.
  - apply Hgrow; [by vm_compute|by vm_compute|].
    cbn. apply le_n.
Defined.

Lemma registry_soundness_is_kept_witness :
  sound_registry (validators (panel split_votes))
  /\ sound_registry (validators (new_epoch (panel split_votes) day21))
  /\ sound_registry
       (validators (finalize_dispute flat_weight (panel split_votes) 50%Z "d1").1).
Proof.
  split; [apply panel_sound_registry|].
  destruct (registry_soundness_is_kept flat_weight (panel split_votes)
              (panel_sound_registry split_votes))
    as (_ & _ & _ & _ & Hepoch & _ & Hfinal & _).
  split; [apply Hepoch|apply Hfinal].
Defined.

Lemma decay_sweep_effects_witness :
  validators (panel []) !! "a" = Some (scout "a" 400)
  /\ exists v',
       validators (apply_calibration_decay (panel []) day21) !! "a" = Some v'
       /\ ValidatorState.tier v' = SCOUT.
Proof.
  assert (validators (panel []) !! "a" = Some (scout "a" 400)) as Hv
    by (vm_compute; reflexivity).
  split; [exact Hv|].
  destruct (decay_sweep_effects (panel []) day21 "a" (scout "a" 400) Hv)
    as (v' & Hv' & _ & Htier & _).
  exists v'. split; [exact Hv'|exact Htier].
Defined.

Lemma new_epoch_effects_witness :
  validators (panel []) !! "a" = Some (scout "a" 400)
  /\ exists v',
       validators (new_epoch (panel []) day21) !! "a" = Some v'
       /\ ValidatorState.cases_this_epoch v' = 0%Z.
Proof.
  assert (validators (panel []) !! "a" = Some (scout "a" 400)) as Hv
    by (vm_compute; reflexivity).
  split; [exact Hv|].
  destruct (new_epoch_effects (panel []) day21 "a" (scout "a" 400) Hv)
    as (v' & Hv' & Hcases & _).
  exists v'. split; [exact Hv'|exact Hcases].
Defined.

Lemma vote_is_recorded_once_witness :
  exists self',
    submit_vote (panel []) 50%Z "d1" "a" PARTIAL 0.7 "r" = Some (self', (true, None))
    /\ exists message,
         submit_vote self' 60%Z "d1" "a" CHALLENGE_UPHELD 0.9 "r"
         = Some (self', (false, Some message)).
Proof.
  destruct (submit_vote (panel []) 50%Z "d1" "a" PARTIAL 0.7 "r")
    as [[self' result]|] eqn:Hvote; [|by vm_compute in Hvote].
  assert (result = (true, None)) as -> by (vm_compute in Hvote; congruence).
  exists self'. split; [reflexivity|].
  destruct (vote_is_recorded_once (panel []) 50%Z "d1" "a" PARTIAL 0.7 "r" self'
              (true, None) Hvote) as [_ Haccepted].
  destruct (Haccepted eq_refl)
    as (ds & votes & vote & _ & _ & _ & _ & _ & _ & _ & _ & _ & _ & _ & _ & _ & _
        & Hagain).
  destruct (Hagain 60%Z CHALLENGE_UPHELD 0.9 "r") as (message & Hmessage & _).
  by exists message.
Defined.

Lemma assign_dispute_in_sound_registry_witness :
  sound_registry (validators (panel []))
  /\ exists self' selected,
       assign_dispute (panel []) 0%Z (fun _ => 0.5) "d2" sample_payload 2
       = inr (self', selected)
       /\ NoDup selected
       /\ (Z.of_nat (length selected) <= 2)%Z.
Proof.
  split; [apply panel_sound_registry|].
  destruct (assign_dispute_in_sound_registry (panel []) 0%Z (fun _ => 0.5) "d2"
              sample_payload 2 (panel_sound_registry []))
    as (self' & selected & Hrun & Hnd & Hlen & _).
  exists self', selected. split; [exact Hrun|]. split; [exact Hnd|exact Hlen].
Defined.

Lemma votes_stay_sound_witness :
  sound_votes (panel split_votes)
  /\ sound_votes (escalate_to_arbiters (panel split_votes) 50%Z "d1").1
  /\ sound_votes (finalize_dispute flat_weight (panel split_votes) 50%Z "d1").1.
Proof.
  split; [apply split_votes_sound|].
  destruct (votes_stay_sound (panel split_votes) split_votes_sound)
    as (_ & Hescalate & Hfinal).
  split; [apply Hescalate|apply Hfinal].
Defined.

Lemma calibration_update_effects_witness :
  (forall x, 0 < flat_weight x)
  /\ 0 <= 0.6 <= 1
  /\ Forall aligned (ValidatorState.verdict_history (scout "a" 400))
  /\ 0.3 <= ValidatorState.calibration_score
              (updated_validator flat_weight 5%Z true 0.6 (scout "a" 400)) <= 1.
Proof.
  assert (forall x, 0 < flat_weight x) as Hexp by (intros x; by vm_compute).
  assert (0 <= 0.6 <= 1) as Hc by (split; by vm_compute).
  assert (Forall aligned (ValidatorState.verdict_history (scout "a" 400))) as Hh
    by constructor.
  split; [exact Hexp|]. split; [exact Hc|]. split; [exact Hh|].
  destruct (calibration_update_effects flat_weight Hexp 5%Z true 0.6 (scout "a" 400)
              Hc Hh) as (_ & _ & _ & _ & Hscore & _).
  exact Hscore.
Defined.

End ConsensusExtras.

(* ===================================================================== *)
(** ** neurons/validator.py: the finalizing round *)
(* ===================================================================== *)

Module ValidatorLoopExtras.
Import Challenge Consensus Neurons.

Local Open Scope Q_scope.

Section WithExp.

Variable exp : Q -> Q.

Lemma keys_set_present {V} (d : list (string * V)) k v v0 :
  PyDict.get k d = Some v0 -> PyDict.keys (PyDict.set k v d) = PyDict.keys d.
Proof.
  unfold PyDict.keys.
  induction d as [|[k' v'] d IH]; cbn [PyDict.get PyDict.set]; [done|].
  case_bool_decide as Hk; cbn [map fst].
  - intros _. by rewrite Hk.
  - intros Hget. f_equal. by apply IH.
Qed.

Lemma expire_items_keys now items :
  PyDict.keys (expire_items now items).1 = PyDict.keys items.
Proof.
  unfold PyDict.keys. induction items as [|[k d] items IH]; [done|].
  cbn [expire_items]. destruct (expire_items now items) as [rest' expired].
  cbn [fst] in IH. destruct (defense_expired now d); cbn; by rewrite IH.
Qed.

Lemma finalize_dispute_other self now dispute_id other :
  other <> dispute_id ->
  active_disputes (finalize_dispute exp self now dispute_id).1 !! other
  = active_disputes self !! other.
Proof.
  intros Hne. unfold finalize_dispute.
  destruct (calculate_consensus self dispute_id) as [result|]; [|done].
  destruct (active_disputes self !! dispute_id) as [ds|] eqn:Hds; [|done].
  destruct (_ && _).
  - unfold escalate_to_arbiters. rewrite Hds.
    destruct (available_arbiters self); [done|].
    cbn [fst active_disputes]. by rewrite lookup_insert_ne.
  - cbn [fst active_disputes].
    destruct (ConsensusExtras.apply_calibration_updates_frame exp now
                (ConsensusResult.final_verdict result)
                (default [] (dispute_votes self !! dispute_id)) self) as (-> & _).
    by rewrite lookup_delete_ne.
Qed.

(** A result of [finalize_dispute] that reached consensus is the tally of
    the engine it was called on. *)
Lemma finalize_dispute_reached self now dispute_id r :
  (finalize_dispute exp self now dispute_id).2 = Some r ->
  ConsensusResult.consensus_reached r = true ->
  calculate_consensus self dispute_id = Some r.
Proof.
  unfold finalize_dispute.
  destruct (calculate_consensus self dispute_id) as [result|] eqn:Hcalc; [|done].
  destruct (active_disputes self !! dispute_id) as [ds|] eqn:Hds; [|done].
  destruct (ConsensusResult.consensus_reached result) eqn:Hres; cbn [negb andb].
  { cbn [snd]. by intros [= <-]. }
  destruct (DisputeState.escalated ds); cbn [negb].
  { cbn [snd]. intros [= <-] Hr. by rewrite Hres in Hr. }
  unfold escalate_to_arbiters. rewrite Hds.
  destruct (available_arbiters self); cbn [snd].
  - rewrite Hcalc. cbn. intros [= <-] Hr.
    assert (ConsensusResult.consensus_reached (ConsensusResult.set_escalated true result)
            = ConsensusResult.consensus_reached result) as E by (by destruct result).
    by rewrite E, Hres in Hr.
  - intros [= <-] Hr. by vm_compute in Hr.
Qed.

(** One iteration of the loop: the engine becomes what [finalize_dispute]
    leaves; the table is untouched, or the entry under the dispute's
    identifier is resolved with the verdict and score of a tally that reached
    consensus. *)
Lemma finalize_step_cases now challenge_manager consensus dispute :
  let dispute_id := Dispute.dispute_id dispute in
  let out := finalize_step exp now (challenge_manager, consensus) dispute in
  out.2 = (finalize_dispute exp consensus now dispute_id).1
  /\ tree_challenges out.1 = tree_challenges challenge_manager
  /\ dispute_counter out.1 = dispute_counter challenge_manager
  /\ (disputes out.1 = disputes challenge_manager
      \/ exists r d,
           is_Some (active_disputes consensus !! dispute_id)
           /\ calculate_consensus consensus dispute_id = Some r
           /\ ConsensusResult.consensus_reached r = true
           /\ PyDict.get dispute_id (disputes challenge_manager) = Some d
           /\ disputes out.1
              = PyDict.set dispute_id
                  (resolved_with now (ConsensusResult.final_verdict r)
                     (ConsensusResult.weighted_score r) d)
                  (disputes challenge_manager)).
Proof.
  intros dispute_id out. subst out. unfold finalize_step. fold dispute_id.
  pose proof (finalize_dispute_reached consensus now dispute_id) as Hreached.
  pose proof (ConsensusExtras.finalize_dispute_not_active exp consensus now dispute_id)
    as Hnot.
  destruct (finalize_dispute exp consensus now dispute_id) as [consensus1 result].
  cbn [fst snd] in *.
  destruct result as [result|]; [|by repeat split; try left].
  destruct (ConsensusResult.consensus_reached result) eqn:Hreach;
    [|by repeat split; try left].
  cbn [fst snd]. unfold resolve_dispute.
  destruct (PyDict.get dispute_id (disputes challenge_manager)) as [d|] eqn:Hget;
    [|by repeat split; try left].
  cbn [fst disputes tree_challenges dispute_counter].
  split; [done|]. split; [done|]. split; [done|].
  right. exists result, d.
  split.
  { destruct (active_disputes consensus !! dispute_id) eqn:Hds; [by eexists|].
    by specialize (Hnot eq_refl). }
  split; [by apply Hreached|]. split; [done|]. split; [done|].
  by destruct (ConsensusResult.final_verdict result).
Qed.

Lemma finalize_step_spec now table0 self0 challenge_manager consensus dispute :
  round_invariant now table0 self0 challenge_manager ->
  round_invariant now table0 self0
    (finalize_step exp now (challenge_manager, consensus) dispute).1
  /\ (forall dispute_id,
        active_disputes consensus !! dispute_id = None ->
        PyDict.get dispute_id
          (disputes (finalize_step exp now (challenge_manager, consensus) dispute).1)
        = PyDict.get dispute_id (disputes challenge_manager)
        /\ active_disputes
             (finalize_step exp now (challenge_manager, consensus) dispute).2
           !! dispute_id = None).
Proof.
  intros (Htc & Hdc & Hkeys).
  destruct (finalize_step_cases now challenge_manager consensus dispute)
    as (Hvc & Htc1 & Hdc1 & Htable).
  set (id := Dispute.dispute_id dispute) in *.
  assert (forall dispute_id,
            active_disputes consensus !! dispute_id = None ->
            active_disputes (finalize_dispute exp consensus now id).1 !! dispute_id
            = None) as Huntracked.
  { intros dispute_id Hnone. destruct (decide (dispute_id = id)) as [->|Hne].
    - by rewrite (ConsensusExtras.finalize_dispute_not_active exp consensus now id Hnone).
    - by rewrite finalize_dispute_other. }
  rewrite Hvc. split.
  - unfold round_invariant. rewrite Htc1, Hdc1. split; [done|]. split; [done|].
    destruct Htable as [->|(r & d & _ & _ & _ & Hget & ->)]; [done|].
    by rewrite (keys_set_present _ _ _ d).
  - intros dispute_id Hnone. split; [|by apply Huntracked].
    destruct Htable as [->|(r & d & [ds Hds] & _ & _ & Hget & ->)]; [done|].
    apply PyDictFacts.get_set_ne. intros ->. by rewrite Hnone in Hds.
Qed.

Lemma finalize_loop_spec now table0 self0 pending : forall challenge_manager consensus,
  round_invariant now table0 self0 challenge_manager ->
  round_invariant now table0 self0
    (foldl (finalize_step exp now) (challenge_manager, consensus) pending).1
  /\ (forall dispute_id,
        active_disputes consensus !! dispute_id = None ->
        PyDict.get dispute_id
          (disputes (foldl (finalize_step exp now) (challenge_manager, consensus)
                       pending).1)
        = PyDict.get dispute_id (disputes challenge_manager)
        /\ active_disputes
             (foldl (finalize_step exp now) (challenge_manager, consensus) pending).2
           !! dispute_id = None).
Proof.
  induction pending as [|dispute pending IH]; intros cm vc Hinv; cbn [foldl].
  - by split.
  - destruct (finalize_step_spec now table0 self0 cm vc dispute Hinv) as [Hinv1 Hun1].
    destruct (finalize_step exp now (cm, vc) dispute) as [cm1 vc1].
    cbn [fst snd] in Hinv1, Hun1.
    destruct (IH cm1 vc1 Hinv1) as [Hinv2 Hun2]. split; [exact Hinv2|].
    intros dispute_id Hnone. destruct (Hun1 dispute_id Hnone) as [Hget1 Hnone1].
    destruct (Hun2 dispute_id Hnone1) as [Hget2 Hnone2].
    split; [by rewrite Hget2|exact Hnone2].
Qed.

(** Every entry of the table after the loop is the entry the loop started
    from, or what the last iteration that touched it stored. *)
Lemma finalize_loop_trace now st0 pending dispute_id :
  PyDict.get dispute_id (disputes (foldl (finalize_step exp now) st0 pending).1)
  = PyDict.get dispute_id (disputes st0.1)
  \/ exists k,
       resolved_by_iteration exp now st0 pending dispute_id
         (PyDict.get dispute_id
            (disputes (foldl (finalize_step exp now) st0 pending).1)) k.
Proof.
  induction pending as [|dispute pending IH] using rev_ind; [by left|].
  rewrite foldl_app. cbn [foldl].
  set (st := foldl (finalize_step exp now) st0 pending) in *.
  assert (forall k entry,
            resolved_by_iteration exp now st0 pending dispute_id entry k ->
            resolved_by_iteration exp now st0 (pending ++ [dispute]) dispute_id entry k)
    as Hext.
  { intros k entry (dk & r & d & Hk & Hid & Hcalc & Hreach & Hget & ->).
    exists dk, r, d. unfold state_at in *.
    pose proof (lookup_lt_Some _ _ _ Hk) as Hlt.
    rewrite lookup_app_l by done. rewrite take_app_le by lia. done. }
  destruct (finalize_step_cases now st.1 st.2 dispute) as (_ & _ & _ & Htable).
  rewrite <- surjective_pairing in Htable.
  destruct Htable as [->|(r & d & _ & Hcalc & Hreach & Hget & ->)].
  - destruct IH as [IH|[k IH]]; [by left|]. right. exists k. by apply Hext.
  - destruct (decide (Dispute.dispute_id dispute = dispute_id)) as [Hid|Hne].
    + right. exists (length pending), dispute, r, d. unfold state_at.
      rewrite lookup_app_r by lia. rewrite Nat.sub_diag.
      rewrite take_app_length. fold st. rewrite <- Hid.
      split; [done|]. split; [done|]. split; [done|]. split; [done|]. split; [done|].
      apply PyDictFacts.get_set_eq.
    + rewrite PyDictFacts.get_set_ne by done.
      destruct IH as [IH|[k IH]]; [by left|]. right. exists k. by apply Hext.
Qed.

(** X28.  One round of [finalize_disputes] adds and removes no dispute and keeps
    the challenge lists and the counter.  Every entry of the table is either
    as the sweep of expired defenses left it, or what one iteration of the
    loop over the pending disputes stored under the identifier of the dispute
    it handled: at that iteration the tally of the consensus engine, in the
    state the earlier iterations left it in, reached consensus for that
    identifier, and the entry then in the table was resolved at the instant
    of the round with the final verdict of that tally and its score as
    confidence.  A dispute that the consensus engine does not track is left
    as the sweep left it and stays untracked. *)
Theorem finalize_round_resolves_by_consensus_only now challenge_manager consensus :
  let swept_manager := (check_expired_defenses challenge_manager now).1 in
  let pending := get_pending_adjudication swept_manager in
  let out := finalize_disputes exp now (challenge_manager, consensus) in
  tree_challenges out.1 = tree_challenges challenge_manager
  /\ dispute_counter out.1 = dispute_counter challenge_manager
  /\ PyDict.keys (disputes out.1) = PyDict.keys (disputes challenge_manager)
  /\ (forall dispute_id,
        PyDict.get dispute_id (disputes out.1)
        = PyDict.get dispute_id (disputes swept_manager)
        \/ exists k dispute r d,
             pending !! k = Some dispute
             /\ Dispute.dispute_id dispute = dispute_id
             /\ calculate_consensus
                  (state_at exp now (swept_manager, consensus) pending k).2 dispute_id
                = Some r
             /\ ConsensusResult.consensus_reached r = true
             /\ PyDict.get dispute_id
                  (disputes (state_at exp now (swept_manager, consensus) pending k).1)
                = Some d
             /\ PyDict.get dispute_id (disputes out.1)
                = Some (resolved_with now (ConsensusResult.final_verdict r)
                          (ConsensusResult.weighted_score r) d))
  /\ (forall dispute_id,
        active_disputes consensus !! dispute_id = None ->
        PyDict.get dispute_id (disputes out.1)
        = PyDict.get dispute_id (disputes swept_manager)
        /\ active_disputes out.2 !! dispute_id = None).
Proof.
  intros swept_manager pending out. subst swept_manager pending out.
  unfold finalize_disputes, check_expired_defenses.
  pose proof (expire_items_keys now (disputes challenge_manager)) as Hkeys.
  destruct (expire_items now (disputes challenge_manager)) as [table1 expired].
  cbn [fst] in *.
  set (cm1 := {| disputes := table1;
                 tree_challenges := tree_challenges challenge_manager;
                 dispute_counter := dispute_counter challenge_manager |}).
  destruct (finalize_loop_spec now table1 cm1 (get_pending_adjudication cm1) cm1
              consensus) as [(Htc & Hdc & Hk) Hun].
  { by repeat split. }
  split; [exact Htc|]. split; [exact Hdc|]. split; [by rewrite Hk|].
  split; [|exact Hun].
  intros dispute_id.
  destruct (finalize_loop_trace now (cm1, consensus) (get_pending_adjudication cm1)
              dispute_id) as [Hsame|[k (dk & r & d & H)]].
  - by left.
  - right. by exists k, dk, r, d.
Qed.

(** X29.  A dispute pending adjudication that the consensus engine does not
    track is stuck: however many rounds of [finalize_disputes] follow, it is
    still in the table unchanged, and still untracked. *)
Theorem untracked_pending_dispute_stays_pending instants :
  forall challenge_manager consensus dispute_id d,
    PyDict.get dispute_id (disputes challenge_manager) = Some d ->
    Dispute.status d = PENDING_ADJUDICATION ->
    active_disputes consensus !! dispute_id = None ->
    let out := finalize_rounds exp instants (challenge_manager, consensus) in
    PyDict.get dispute_id (disputes out.1) = Some d
    /\ active_disputes out.2 !! dispute_id = None.
Proof.
  induction instants as [|now instants IH];
    intros cm vc dispute_id d Hget Hstatus Hnone out; subst out;
    unfold finalize_rounds; cbn [foldl]; [by split|].
  assert (PyDict.get dispute_id (disputes (check_expired_defenses cm now).1) = Some d)
    as Hswept.
  { unfold check_expired_defenses.
    pose proof (ChallengeProofs.expire_items_get now (disputes cm) dispute_id) as Hg.
    destruct (expire_items now (disputes cm)) as [table1 expired].
    cbn [fst disputes] in *. rewrite Hg, Hget. cbn.
    unfold defense_expired. rewrite Hstatus. by rewrite bool_decide_eq_false_2. }
  assert (PyDict.get dispute_id (disputes (finalize_disputes exp now (cm, vc)).1)
          = Some d
          /\ active_disputes (finalize_disputes exp now (cm, vc)).2 !! dispute_id = None)
    as [Hget1 Hnone1].
  { rewrite <- Hswept. unfold finalize_disputes, check_expired_defenses.
    destruct (expire_items now (disputes cm)) as [table1 expired].
    cbn [fst].
    set (cm1 := {| disputes := table1;
                   tree_challenges := tree_challenges cm;
                   dispute_counter := dispute_counter cm |}).
    destruct (finalize_loop_spec now table1 cm1 (get_pending_adjudication cm1) cm1 vc)
      as [_ Hun].
    { by repeat split. }
    by apply Hun. }
  destruct (finalize_disputes exp now (cm, vc)) as [cm1 vc1].
  apply (IH cm1 vc1 dispute_id d Hget1 Hstatus Hnone1).
Qed.

End WithExp.

(** *** Concrete runs *)

(** One round on the defended sample dispute, tracked by an engine whose
    three scouts voted unanimously: the dispute is resolved with the verdict
    and score of the tally, and the engine forgets it. *)
Example unanimous_round_resolves :
  exists r,
    calculate_consensus ConsensusSamples.unanimous_panel "disp_t1_1" = Some r
    /\ ConsensusResult.final_verdict r = CHALLENGE_UPHELD
    /\ ConsensusResult.consensus_reached r = true
    /\ PyDict.get "disp_t1_1"
         (disputes
            (finalize_disputes ConsensusSamples.flat_weight 6%Z
               (ChallengeSamples.defended, ConsensusSamples.unanimous_panel)).1)
       = Some (resolved_with 6%Z (ConsensusResult.final_verdict r)
                 (ConsensusResult.weighted_score r) ChallengeSamples.defended_dispute)
    /\ active_disputes
         (finalize_disputes ConsensusSamples.flat_weight 6%Z
            (ChallengeSamples.defended, ConsensusSamples.unanimous_panel)).2
       !! "disp_t1_1" = None.
Proof. eexists. split; [by vm_compute|]. repeat split; by vm_compute. Qed.

(** Two rounds on the defended sample dispute, which no consensus engine
    tracks, resolve nothing. *)
Lemma untracked_pending_dispute_stays_pending_witness :
  PyDict.get "disp_t1_1" (disputes ChallengeSamples.defended)
  = Some ChallengeSamples.defended_dispute
  /\ Dispute.status ChallengeSamples.defended_dispute = PENDING_ADJUDICATION
  /\ active_disputes (Consensus.init 0%Z) !! "disp_t1_1" = None
  /\ PyDict.get "disp_t1_1"
       (disputes
          (finalize_rounds ConsensusSamples.flat_weight [10%Z; 20%Z]
             (ChallengeSamples.defended, Consensus.init 0%Z)).1)
     = Some ChallengeSamples.defended_dispute.
Proof.
  assert (PyDict.get "disp_t1_1" (disputes ChallengeSamples.defended)
          = Some ChallengeSamples.defended_dispute) as Hget by reflexivity.
  assert (Dispute.status ChallengeSamples.defended_dispute = PENDING_ADJUDICATION)
    as Hstatus by reflexivity.
  assert (active_disputes (Consensus.init 0%Z) !! "disp_t1_1" = None) as Hnone
    by reflexivity.
  split; [exact Hget|]. split; [exact Hstatus|]. split; [exact Hnone|].
  apply (untracked_pending_dispute_stays_pending ConsensusSamples.flat_weight
           [10%Z; 20%Z] ChallengeSamples.defended (Consensus.init 0%Z) "disp_t1_1"
           ChallengeSamples.defended_dispute Hget Hstatus Hnone).
Defined.

End ValidatorLoopExtras.

(* ===================================================================== *)
(** * Challenge validation over binary64 *)
(* ===================================================================== *)

Module Binary64Extras.
Import PrimFloat Binary64 Binary64Samples.

Local Open Scope float_scope.

Lemma has_active_challenge_none ds target l :
  has_active_challenge ds target l = false
  <-> forall dispute_id d,
        dispute_id ∈ l -> PyDict.get dispute_id ds = Some d ->
        Dispute.target_node_id d = target -> Dispute.status d = Challenge.RESOLVED.
Proof.
  induction l as [|k l IH]; cbn [has_active_challenge].
  - split; [|done]. intros _ ?? Hin. by apply elem_of_nil in Hin.
  - destruct (PyDict.get k ds) as [d|] eqn:Hk.
    + destruct (bool_decide (Dispute.target_node_id d = target)
                && negb (bool_decide (Dispute.status d = Challenge.RESOLVED))) eqn:Hact.
      * split; [done|]. intros H. exfalso.
        apply andb_prop in Hact as [Ht Hs]. apply bool_decide_eq_true in Ht.
        apply negb_true_iff, bool_decide_eq_false in Hs.
        apply Hs, (H k d); [by left|done..].
      * rewrite IH. split.
        -- intros H k' d' Hin Hget Ht.
           apply elem_of_cons in Hin as [->|Hin]; [|by eapply H].
           rewrite Hk in Hget. injection Hget as <-.
           apply andb_false_iff in Hact as [Hf|Hf].
           ++ by apply bool_decide_eq_false in Hf.
           ++ by apply negb_false_iff, bool_decide_eq_true in Hf.
        -- intros H k' d' Hin. apply H. by right.
    + rewrite IH. split.
      * intros H k' d' Hin Hget.
        apply elem_of_cons in Hin as [->|Hin]; [by rewrite Hk in Hget|by eapply H].
      * intros H k' d' Hin. apply H. by right.
Qed.

Section WithClock.

Variable fromisoformat : string -> Parsed.
Variable datetime_max : datetime.

Local Abbreviation window_closed := (Binary64.window_closed fromisoformat datetime_max).
Local Abbreviation validate_challenge :=
  (Binary64.validate_challenge fromisoformat datetime_max).

(** The window check case by case. *)
Lemma window_closed_cases now tree :
  match ReasoningTree.submitted_at tree with
  | None => window_closed now tree = Return false
  | Some s =>
      if bool_decide (s = "") then window_closed now tree = Return false
      else
        match fromisoformat s with
        | Invalid => window_closed now tree = Raise ValueError
        | Naive submitted =>
            let window_end :=
              (submitted + timedelta_hours Challenge.CHALLENGE_WINDOW_HOURS)%Z in
            ((datetime_max < window_end)%Z ->
             window_closed now tree = Raise OverflowError)
            /\ ((window_end <= datetime_max)%Z -> (window_end < now)%Z ->
                window_closed now tree = Return true)
            /\ ((window_end <= datetime_max)%Z -> (now <= window_end)%Z ->
                window_closed now tree = Return false)
        | Aware submitted =>
            let window_end :=
              (submitted + timedelta_hours Challenge.CHALLENGE_WINDOW_HOURS)%Z in
            ((datetime_max < window_end)%Z ->
             window_closed now tree = Raise OverflowError)
            /\ ((window_end <= datetime_max)%Z ->
                window_closed now tree = Raise TypeError)
        end
  end.
Proof.
  unfold Binary64.window_closed.
  destruct (ReasoningTree.submitted_at tree) as [s|]; [|done].
  case_bool_decide; [done|].
  destruct (fromisoformat s) as [|submitted|submitted]; [done| |]; cbv zeta.
  - split; [|split]; intros; repeat case_bool_decide; try done; lia.
  - split; intros; repeat case_bool_decide; try done; lia.
Qed.

(** X8.  The checks of [validate_challenge] in their order, on binary64
    stakes: the first one that fails decides the answer, an exception of the
    window check is the answer when the node and stake checks pass, and the
    challenge is accepted exactly when all checks pass.  The stake check
    compares the stake with the rounded product of the tree's stake and 0.1;
    a stake or a product that is NaN passes it, and otherwise it is the
    order of the doubles.  The window check is skipped for a missing or empty
    timestamp, raises [ValueError] on a string that does not parse,
    [OverflowError] when six hours past the timestamp is beyond
    [datetime.max], [TypeError] on a timestamp with an offset, and otherwise
    refuses the challenge strictly after the end of the window. *)
Theorem validate_challenge_decision_table self now challenge tree :
  let target := ChallengeSubmission.target_node challenge in
  let node_ids :=
    ReasoningNode.id (ReasoningTree.root tree)
      :: map ReasoningNode.id (ReasoningTree.nodes tree) in
  let stake := ChallengeSubmission.stake challenge in
  let min_stake := ReasoningTree.stake tree * MIN_CHALLENGE_STAKE_RATIO in
  let result := validate_challenge self now challenge tree in
  (target ∉ node_ids -> result = Return (false, Some (TargetNodeNotFound target)))
  /\ (target ∈ node_ids -> (stake <? min_stake) = true ->
      result = Return (false, Some (StakeBelowMinimum stake min_stake)))
  /\ (target ∈ node_ids -> (stake <? min_stake) = false ->
      forall e, window_closed now tree = Raise e -> result = Raise e)
  /\ (target ∈ node_ids -> (stake <? min_stake) = false ->
      window_closed now tree = Return true ->
      result = Return (false, Some ChallengeWindowClosed))
  /\ (target ∈ node_ids -> (stake <? min_stake) = false ->
      window_closed now tree = Return false ->
      ~ no_active_challenge self (ReasoningTree.task_id tree) target ->
      result = Return (false, Some (AlreadyActiveChallenge target)))
  /\ (result = Return (true, None)
      <-> target ∈ node_ids
          /\ (stake <? min_stake) = false
          /\ window_closed now tree = Return false
          /\ no_active_challenge self (ReasoningTree.task_id tree) target)
  /\ (is_nan stake = true \/ is_nan min_stake = true -> (stake <? min_stake) = false)
  /\ (is_nan stake = false -> is_nan min_stake = false ->
      ((stake <? min_stake) = true
       <-> lex_lt (key (FloatOps.Prim2SF stake)) (key (FloatOps.Prim2SF min_stake))))
  /\ match ReasoningTree.submitted_at tree with
     | None => window_closed now tree = Return false
     | Some s =>
         if bool_decide (s = "") then window_closed now tree = Return false
         else
           match fromisoformat s with
           | Invalid => window_closed now tree = Raise ValueError
           | Naive submitted =>
               let window_end :=
                 (submitted + timedelta_hours Challenge.CHALLENGE_WINDOW_HOURS)%Z in
               ((datetime_max < window_end)%Z ->
                window_closed now tree = Raise OverflowError)
               /\ ((window_end <= datetime_max)%Z -> (window_end < now)%Z ->
                   window_closed now tree = Return true)
               /\ ((window_end <= datetime_max)%Z -> (now <= window_end)%Z ->
                   window_closed now tree = Return false)
           | Aware submitted =>
               let window_end :=
                 (submitted + timedelta_hours Challenge.CHALLENGE_WINDOW_HOURS)%Z in
               ((datetime_max < window_end)%Z ->
                window_closed now tree = Raise OverflowError)
               /\ ((window_end <= datetime_max)%Z ->
                   window_closed now tree = Raise TypeError)
           end
     end.
Proof.
  intros target node_ids stake min_stake result.
  subst result. unfold Binary64.validate_challenge.
  fold target node_ids stake min_stake.
  assert (has_active_challenge (disputes self) target
            (default [] (tree_challenges self !! ReasoningTree.task_id tree)) = false
          <-> no_active_challenge self (ReasoningTree.task_id tree) target) as Hdup
    by apply has_active_challenge_none.
  split; [|split; [|split; [|split; [|split; [|split; [|split; [|split]]]]]]].
  - intros Hnot. by rewrite bool_decide_eq_false_2.
  - intros Hin Hlt. rewrite bool_decide_eq_true_2 by done. cbn [negb]. by rewrite Hlt.
  - intros Hin Hge e He. rewrite bool_decide_eq_true_2 by done. cbn [negb].
    by rewrite Hge, He.
  - intros Hin Hge Hw. rewrite bool_decide_eq_true_2 by done. cbn [negb].
    by rewrite Hge, Hw.
  - intros Hin Hge Hw Hact. rewrite bool_decide_eq_true_2 by done. cbn [negb].
    rewrite Hge, Hw.
    destruct (has_active_challenge _ _ _) eqn:Hh; [done|]. exfalso. by apply Hact, Hdup.
  - split.
    + destruct (decide (target ∈ node_ids)) as [Hin|Hnot];
        [|by rewrite bool_decide_eq_false_2].
      rewrite bool_decide_eq_true_2 by done. cbn [negb].
      destruct (stake <? min_stake) eqn:Hs; [done|].
      destruct (window_closed now tree) as [[|]|e] eqn:Hw; [done| |done].
      destruct (has_active_challenge _ _ _) eqn:Hh; [done|].
      intros _. split; [done|]. split; [done|]. split; [done|]. by apply Hdup.
    + intros (Hin & Hge & Hw & Hno).
      rewrite bool_decide_eq_true_2 by done. cbn [negb]. rewrite Hge, Hw.
      apply Hdup in Hno. by rewrite Hno.
  - apply Binary64Proofs.ltb_nan.
  - apply Binary64Proofs.ltb_key.
  - apply window_closed_cases.
Qed.

End WithClock.

(** *** Concrete stakes *)

(** Against a tree of stake 43 the minimum is the double nearest 4.3, the
    rounded product of 43 and the double nearest 0.1.  A challenge with that
    stake is accepted, although the exact product of the two doubles is
    larger than the stake; the next double below is refused; a NaN stake is
    accepted. *)
Example stake_at_rounded_minimum :
  ReasoningTree.stake tree_43 * MIN_CHALLENGE_STAKE_RATIO = 4.3
  /\ validate_challenge no_parse 0%Z empty_manager 0%Z (challenge_with 4.3) tree_43
     = Return (true, None)
  /\ (exact 4.3 < exact (ReasoningTree.stake tree_43) * exact MIN_CHALLENGE_STAKE_RATIO)%Q
  /\ validate_challenge no_parse 0%Z empty_manager 0%Z
       (challenge_with (next_down 4.3)) tree_43
     = Return (false, Some (StakeBelowMinimum (next_down 4.3) 4.3))
  /\ validate_challenge no_parse 0%Z empty_manager 0%Z (challenge_with nan) tree_43
     = Return (true, None).
Proof. repeat split; by vm_compute. Qed.

End Binary64Extras.
